(** * Wishlist Savings Tracker (Script.js): a shallow embedding and its properties

    The script keeps a list of savings goals and a preferences record in two
    module-level variables, mutates them from event handlers, re-renders and
    writes both to localStorage after every change.

    JavaScript numbers are IEEE 754 binary64 values.  They are modelled here by
    their exact rational value, with NaN, the two infinities and the two zeros
    as separate constructors; every arithmetic operator computes the exact
    rational result and rounds it to the nearest binary64 value, ties to even,
    which is what the language prescribes.

    JavaScript strings are held in UTF-8, one [ascii] per byte, which is also
    how a string literal of this file is read.  The script compares strings
    for equality, trims them and replaces ASCII characters in them; none of
    this depends on the encoding, except for the white space that [trim]
    strips, which is listed below byte by byte.  A string with a lone
    surrogate has no UTF-8 form and is left out. *)

From Stdlib Require Import ZArith QArith Qround Qabs Qpower Qreduction.
From Stdlib Require Import Lia Lqa Bool List String Ascii.
From Stdlib Require Import Floats.SpecFloat.
From Stdlib Require Import Permutation Sorted.
Import ListNotations.

Local Open Scope Z_scope.
Local Open Scope Q_scope.

(** ** Binary64 numbers *)

Module Num.

(** [2 ^ e] as a rational, for any integer exponent. *)
Definition pow2 (e : Z) : Q := 2 ^ e.

(** [floor (log2 |q|)] for [q <> 0]. *)
Definition ilog2 (q : Q) : Z :=
  let d := (Z.log2 (Z.abs (Qnum q)) - Z.log2 (Zpos (Qden q)))%Z in
  if Qle_bool (pow2 d) (Qabs q) then d else (d - 1)%Z.

(** Nearest integer, ties to the even one. *)
Definition rne (t : Q) : Z :=
  let f := Qfloor t in
  match Qcompare (t - inject_Z f) (1 # 2) with
  | Lt => f
  | Gt => (f + 1)%Z
  | Eq => if Z.even f then f else (f + 1)%Z
  end.

(** Exponent of the last place of a binary64 value in the binade [e]:
    53 significant bits, and nothing below [2 ^ -1074]. *)
Definition fexp (e : Z) : Z := Z.max (e - 52) (-1074).

(** Nearest multiple of [2 ^ ex]. *)
Definition round_to (ex : Z) (q : Q) : Q :=
  inject_Z (rne (q / pow2 ex)) * pow2 ex.

(** Round to nearest binary64, exponent unbounded above. *)
Definition RN (q : Q) : Q :=
  if Qeq_bool q 0 then 0 else Qred (round_to (fexp (ilog2 q)) q).

Inductive number : Type :=
| NaN
| Inf (neg : bool)
| Zero (neg : bool)
| Fin (q : Q).

Definition Qneg (q : Q) : bool := if Qlt_le_dec q 0 then true else false.

(** The binary64 value nearest to a non-zero rational [q]; overflow gives an
    infinity and underflow a zero of the sign of [q]. *)
Definition of_Q (q : Q) : number :=
  let r := RN q in
  if Qeq_bool r 0 then Zero (Qneg q)
  else if Qle_bool (pow2 1024) (Qabs r) then Inf (Qneg q)
  else Fin r.

(** A numeric literal of the source text. *)
Definition lit (q : Q) : number :=
  if Qeq_bool q 0 then Zero false else of_Q q.

Definition is_nan (x : number) : bool :=
  match x with NaN => true | _ => false end.

(** [Number.isFinite] *)
Definition isFinite (x : number) : bool :=
  match x with Zero _ | Fin _ => true | _ => false end.

(** Rational value of a finite number. *)
Definition to_Q (x : number) : Q :=
  match x with Fin q => q | _ => 0 end.

Definition fneg (x : number) : number :=
  match x with
  | NaN => NaN
  | Inf s => Inf (negb s)
  | Zero s => Zero (negb s)
  | Fin q => Fin (Qred (- q))
  end.

(** [x + y] *)
Definition fadd (x y : number) : number :=
  match x, y with
  | NaN, _ | _, NaN => NaN
  | Inf s1, Inf s2 => if Bool.eqb s1 s2 then Inf s1 else NaN
  | Inf s, _ | _, Inf s => Inf s
  | Zero s1, Zero s2 => Zero (s1 && s2)
  | Zero _, Fin q | Fin q, Zero _ => Fin q
  | Fin p, Fin q =>
      if Qeq_bool (p + q) 0 then Zero false else of_Q (p + q)
  end.

(** [x - y] *)
Definition fsub (x y : number) : number := fadd x (fneg y).

Definition sign (x : number) : bool :=
  match x with
  | NaN => false
  | Inf s | Zero s => s
  | Fin q => Qneg q
  end.

(** [x * y] *)
Definition fmul (x y : number) : number :=
  match x, y with
  | NaN, _ | _, NaN => NaN
  | Inf _, Zero _ | Zero _, Inf _ => NaN
  | Inf _, _ | _, Inf _ => Inf (xorb (sign x) (sign y))
  | Zero _, _ | _, Zero _ => Zero (xorb (sign x) (sign y))
  | Fin p, Fin q =>
      if Qeq_bool (p * q) 0 then Zero (xorb (sign x) (sign y)) else of_Q (p * q)
  end.

(** [x / y] *)
Definition fdiv (x y : number) : number :=
  match x, y with
  | NaN, _ | _, NaN => NaN
  | Inf _, Inf _ | Zero _, Zero _ => NaN
  | Inf _, _ | _, Zero _ => Inf (xorb (sign x) (sign y))
  | Zero _, _ | _, Inf _ => Zero (xorb (sign x) (sign y))
  | Fin p, Fin q =>
      if Qeq_bool (p / q) 0 then Zero (xorb (sign x) (sign y)) else of_Q (p / q)
  end.

(** Order of two numbers, [None] when one of them is NaN. *)
Definition ncompare (x y : number) : option comparison :=
  match x, y with
  | NaN, _ | _, NaN => None
  | Inf s1, Inf s2 =>
      Some (if Bool.eqb s1 s2 then Eq else if s1 then Lt else Gt)
  | Inf s, _ => Some (if s then Lt else Gt)
  | _, Inf s => Some (if s then Gt else Lt)
  | _, _ => Some (Qcompare (to_Q x) (to_Q y))
  end.

(** [x < y], [x > y], [x <= y], [x >= y], [x === y] *)
Definition ltb (x y : number) : bool :=
  match ncompare x y with Some Lt => true | _ => false end.
Definition gtb (x y : number) : bool := ltb y x.
Definition leb (x y : number) : bool :=
  match ncompare x y with Some Lt | Some Eq => true | _ => false end.
Definition geb (x y : number) : bool := leb y x.
Definition eqb (x y : number) : bool :=
  match ncompare x y with Some Eq => true | _ => false end.

(** [Math.max(x, y)] and [Math.min(x, y)]: NaN if either is NaN, and
    [-0] is smaller than [+0]. *)
Definition Math_max (x y : number) : number :=
  match ncompare x y with
  | None => NaN
  | Some Lt => y
  | Some Gt => x
  | Some Eq => if sign x then y else x
  end.

Definition Math_min (x y : number) : number :=
  match ncompare x y with
  | None => NaN
  | Some Lt => x
  | Some Gt => y
  | Some Eq => if sign x then x else y
  end.

(** [Math.round(x)]: the integer [floor (x + 1/2)], computed exactly; the
    result is [-0] for [-0] and for [-1/2 <= x < 0]. *)
Definition Math_round (x : number) : number :=
  match x with
  | Fin q =>
      let n := Qfloor (q + (1 # 2)) in
      if (n =? 0)%Z then Zero (Qneg q) else Fin (inject_Z n)
  | _ => x
  end.

(** [Number.EPSILON] is [2 ^ -52]. *)
Definition EPSILON : number := Fin (Qred (pow2 (-52))).

Definition zero : number := Zero false.
Definition hundred : number := Fin 100.

(** The binary64 values, overflow aside: at most 53 significant bits, and
    nothing below [2 ^ -1074]. *)
Definition representable (f : Q) : Prop :=
  exists m c : Z, (Z.abs m <= 2 ^ 53)%Z /\ (-1074 <= c)%Z /\ f == inject_Z m * pow2 c.

(** A number that compares as at least zero. *)
Definition nonneg (x : number) : Prop :=
  match x with
  | NaN => False
  | Inf s => s = false
  | Zero _ => True
  | Fin q => 0 <= q
  end.

(** A number that compares as at most zero. *)
Definition nonpos (x : number) : Prop :=
  match x with
  | NaN => False
  | Inf s => s = true
  | Zero _ => True
  | Fin q => q <= 0
  end.

(** The same number in the format of the standard library's specification of
    IEEE 754 arithmetic, for a binary64 value [x]. *)
Definition to_SF (x : number) : spec_float :=
  match x with
  | NaN => S754_nan
  | Inf s => S754_infinity s
  | Zero s => S754_zero s
  | Fin q =>
      let e := fexp (ilog2 q) in
      S754_finite (Qneg q) (Z.to_pos (Qfloor (Qabs q / pow2 e))) e
  end.

End Num.

Import Num.

(** ** Utilities of the script *)

(** [clamp(n, min, max)] *)
Definition clamp (n lo hi : number) : number :=
  Math_max lo (Math_min hi n).

(** [safeNumber] after the conversion [Number(value)]: a non-finite number
    becomes NaN. *)
Definition safeNumber (n : number) : number :=
  if isFinite n then n else NaN.

(** [round2(n)] *)
Definition round2 (n : number) : number :=
  fdiv (Math_round (fmul (fadd n EPSILON) hundred)) hundred.

(** [computeRemaining(target, saved)] *)
Definition computeRemaining (target saved : number) : number :=
  round2 (Math_max zero (fsub target saved)).

(** [computeProgressPct(target, saved)] *)
Definition computeProgressPct (target saved : number) : number :=
  if leb target zero then zero
  else clamp (fmul (fdiv saved target) hundred) zero hundred.

(** ** Data *)

Inductive Currency : Type := INR | USD.
Inductive Theme : Type := dark | light.

Record Prefs : Type := mkPrefs { currency : Currency; theme : Theme }.

(** [{ currency: "INR", theme: "dark" }] *)
Definition default_prefs : Prefs := mkPrefs INR dark.

(** A goal object.  [createdAt] is the time value of [Date.now()], an integer
    number of milliseconds. *)
Record Goal : Type := mkGoal {
  id : string;
  name : string;
  desc : string;
  target : number;
  saved : number;
  createdAt : Z
}.

Definition set_saved (v : number) (g : Goal) : Goal :=
  mkGoal (id g) (name g) (desc g) (target g) v (createdAt g).

Definition set_target (v : number) (g : Goal) : Goal :=
  mkGoal (id g) (name g) (desc g) v (saved g) (createdAt g).

(** ** localStorage *)

(** Values produced by [JSON.parse]. *)
#[warnings="-register-all"] Inductive json : Type :=
| JNull
| JBool (b : bool)
| JNum (n : number)
| JStr (s : string)
| JArr (l : list json)
| JObj (fields : list (string * json)).

(** A stored string is modelled by what the script can observe of it: whether
    it is empty (and so falsy), and what [JSON.parse] makes of it, [None]
    standing for a thrown SyntaxError. *)
Inductive blob : Type :=
| Empty
| Text (parsed : option json).

(** The two slots [wst_goals_v1] and [wst_prefs_v1]; [None] is the [null] that
    [getItem] returns for a missing key. *)
Record Storage : Type := mkStorage {
  slot_goals : option blob;
  slot_prefs : option blob
}.

Definition empty_storage : Storage := mkStorage None None.

(** [JSON.stringify] writes a non-finite number as [null] and [-0] as [0]. *)
Definition json_of_number (x : number) : json :=
  match x with
  | Fin q => JNum (Fin q)
  | Zero _ => JNum (Zero false)
  | _ => JNull
  end.

Definition json_of_goal (g : Goal) : json :=
  JObj [ ("id", JStr (id g)); ("name", JStr (name g)); ("desc", JStr (desc g));
         ("target", json_of_number (target g));
         ("saved", json_of_number (saved g));
         ("createdAt", json_of_number (lit (inject_Z (createdAt g)))) ]%string.

Definition json_of_prefs (p : Prefs) : json :=
  JObj [ ("currency", JStr (match currency p with INR => "INR" | USD => "USD" end));
         ("theme", JStr (match theme p with dark => "dark" | light => "light" end)) ]%string.

(** Property read [o.key] on a parsed value; [None] is [undefined]. *)
Fixpoint get_field (key : string) (fields : list (string * json)) : option json :=
  match fields with
  | [] => None
  | (k, v) :: rest => if String.eqb k key then Some v else get_field key rest
  end.

Definition prop (key : string) (j : json) : option json :=
  match j with
  | JObj fields => get_field key fields
  | _ => None
  end.

(** [v === "text"] for a property that may be undefined. *)
Definition is_str (text : string) (v : option json) : bool :=
  match v with
  | Some (JStr s) => String.eqb s text
  | _ => false
  end.

(** What the module variables [goals] and [prefs] hold right after loading:
    [goals] is whatever array was parsed, element shapes unchecked. *)
Record Loaded : Type := mkLoaded {
  l_goals : list json;
  l_prefs : Prefs
}.

(** [raw ? JSON.parse(raw) : dflt], [None] when [JSON.parse] throws. *)
Definition parse_or (dflt : json) (raw : option blob) : option json :=
  match raw with
  | None | Some Empty => Some dflt
  | Some (Text parsed) => parsed
  end.

(** The body of the [try] block of [loadFromStorage]; [None] when it throws.
    An array of any content is assigned to [goals]; any object (arrays are
    objects too) gives preferences, each field falling back on its own. *)
Definition load_try (sto : Storage) (cur : Loaded) : option Loaded :=
  match parse_or (JArr []) (slot_goals sto) with
  | None => None
  | Some parsed =>
      let gs := match parsed with JArr l => l | _ => l_goals cur end in
      match parse_or JNull (slot_prefs sto) with
      | None => None
      | Some parsedPrefs =>
          match parsedPrefs with
          | JObj _ | JArr _ =>
              Some (mkLoaded gs
                      (mkPrefs
                         (if is_str "USD" (prop "currency" parsedPrefs) then USD else INR)
                         (if is_str "light" (prop "theme" parsedPrefs) then light else dark)))
          | _ => Some (mkLoaded gs (l_prefs cur))
          end
      end
  end.

(** [loadFromStorage()] *)
Definition loadFromStorage (sto : Storage) (cur : Loaded) : Loaded :=
  match load_try sto cur with
  | Some l => l
  | None => mkLoaded [] default_prefs
  end.

(** The values of [goals] and [prefs] when the script starts. *)
Definition initial : Loaded := mkLoaded [] default_prefs.

(** [init()] calls [render()] right after loading, outside any [try]; its
    first reads of the goals are [g.target] in [renderSummary], and reading a
    property of [null] throws a TypeError, while on any other parsed value it
    gives a value or [undefined]. *)
Definition is_null (j : json) : bool :=
  match j with JNull => true | _ => false end.

Definition init_throws (sto : Storage) : bool :=
  existsb is_null (l_goals (loadFromStorage sto initial)).

(** Reading a property as a number or as a string. *)
Definition as_number (v : option json) : option number :=
  match v with Some (JNum n) => Some n | _ => None end.

Definition as_string (v : option json) : option string :=
  match v with Some (JStr s) => Some s | _ => None end.

(** A parsed value that has the shape of a goal object. *)
Definition is_goal_record (j : json) : bool :=
  match j with
  | JObj _ =>
      match as_string (prop "id" j), as_string (prop "name" j),
            as_string (prop "desc" j), as_number (prop "target" j),
            as_number (prop "saved" j), as_number (prop "createdAt" j) with
      | Some _, Some _, Some _, Some _, Some _, Some _ => true
      | _, _, _, _, _, _ => false
      end
  | _ => false
  end.

(** ** The application state *)

Record State : Type := mkState {
  goals : list Goal;
  prefs : Prefs;
  storage : Storage
}.

(** [saveToStorage()] *)
Definition saveToStorage (st : State) : State :=
  mkState (goals st) (prefs st)
    (mkStorage (Some (Text (Some (JArr (map json_of_goal (goals st))))))
               (Some (Text (Some (json_of_prefs (prefs st)))))).

(** What [renderSummary] computes before formatting. *)
Record Summary : Type := mkSummary {
  totalGoals : nat;
  totalRequired : number;
  totalSaved : number;
  totalRemaining : number
}.

(** [goals.reduce((acc, g) => acc + f(g), 0)] *)
Definition reduce_sum (f : Goal -> number) (gs : list Goal) : number :=
  fold_left (fun acc g => fadd acc (f g)) gs zero.

(** [renderSummary()] *)
Definition renderSummary (gs : list Goal) : Summary :=
  let totalRequired := reduce_sum target gs in
  let totalSaved := reduce_sum saved gs in
  mkSummary (List.length gs) totalRequired totalSaved
    (Math_max zero (fsub totalRequired totalSaved)).

(** The amounts [renderSummary] puts on the page: each total through
    [round2] before [formatMoney]. *)
Definition shown (s : Summary) : number * number * number :=
  (round2 (totalRequired s), round2 (totalSaved s), round2 (totalRemaining s)).

(** One card of the grid. *)
Record Card : Type := mkCard {
  card_goal : Goal;
  card_remaining : number;
  card_pct : number;
  card_achieved : bool
}.

(** [[...goals].sort((a, b) => b.createdAt - a.createdAt)]: a stable sort,
    newest first.  Goals are inserted from the last one to the first one, each
    in front of those that are not newer, so that equal times keep their
    order. *)
Fixpoint insert_newest (g : Goal) (sorted : list Goal) : list Goal :=
  match sorted with
  | [] => [g]
  | h :: t =>
      if (createdAt h <=? createdAt g)%Z then g :: h :: t
      else h :: insert_newest g t
  end.

Definition newest_first (gs : list Goal) : list Goal :=
  fold_right insert_newest [] gs.

Definition card_of (g : Goal) : Card :=
  let remaining := computeRemaining (target g) (saved g) in
  mkCard g remaining (computeProgressPct (target g) (saved g))
    (leb remaining zero && gtb (target g) zero).

(** [renderGrid()] *)
Definition renderGrid (gs : list Goal) : list Card :=
  map card_of (newest_first gs).

Inductive message : Type :=
| MaxAdd (remaining : number)   (* "You can only add up to ... for this goal." *)
| InvalidTarget                 (* "Please enter a valid target amount greater than 0." *)
| InvalidSavings                (* "Enter a valid savings amount greater than 0." *)
| NeedName.                     (* "Please enter a goal name." *)

(** What a call does besides changing the state. *)
Inductive event : Type :=
| Alert (m : message)
| FormError (m : message)
| Rendered (p : Prefs) (s : Summary) (cards : list Card).

Definition Outcome : Type := State * list event.

(** [render()]: draw the page, then [saveToStorage()]. *)
Definition render (st : State) : Outcome :=
  (saveToStorage st,
   [Rendered (prefs st) (renderSummary (goals st)) (renderGrid (goals st))]).

(** ** Escaping text for the page *)

(** [s.replaceAll(c, by)] for a one-character pattern [c] and a replacement
    that holds no [$]: every occurrence of [c] is replaced, from left to
    right.  The characters replaced below are ASCII, and an ASCII byte never
    occurs inside the UTF-8 form of another character, so the bytes of every
    other character are left as they are. *)
Fixpoint replaceAll (c : ascii) (by_ : string) (s : string) : string :=
  match s with
  | EmptyString => EmptyString
  | String a rest =>
      if Ascii.eqb a c then String.append by_ (replaceAll c by_ rest)
      else String a (replaceAll c by_ rest)
  end.

(** The double quote character. *)
Definition dquote : ascii := ascii_of_nat 34.

(** [escapeHtml(str)] *)
Definition escapeHtml (str : string) : string :=
  replaceAll "'" "&#039;"
    (replaceAll dquote "&quot;"
       (replaceAll ">" "&gt;"
          (replaceAll "<" "&lt;"
             (replaceAll "&" "&amp;" str)))).

(** ** Actions *)

(** [String.prototype.trim] strips the white space and the line terminators
    of the language from both ends.  In UTF-8 these are

    - one byte: U+0009 to U+000D and U+0020;
    - two bytes: U+00A0, that is C2 A0;
    - three bytes: U+1680 (E1 9A 80), U+2000 to U+200A (E2 80 80 to E2 80 8A),
      U+2028 and U+2029 (E2 80 A8, E2 80 A9), U+202F (E2 80 AF),
      U+205F (E2 81 9F), U+3000 (E3 80 80) and U+FEFF (EF BB BF). *)
Definition is_space1 (a : ascii) : bool :=
  let n := nat_of_ascii a in
  ((9 <=? n) && (n <=? 13) || (n =? 32))%nat.

Definition is_space2 (a b : ascii) : bool :=
  ((nat_of_ascii a =? 194) && (nat_of_ascii b =? 160))%nat.

Definition is_space3 (a b c : ascii) : bool :=
  let x := nat_of_ascii a in
  let y := nat_of_ascii b in
  let z := nat_of_ascii c in
  ((x =? 225) && (y =? 154) && (z =? 128)
   || (x =? 226) && (y =? 128)
      && ((128 <=? z) && (z <=? 138) || (z =? 168) || (z =? 169) || (z =? 175))
   || (x =? 226) && (y =? 129) && (z =? 159)
   || (x =? 227) && (y =? 128) && (z =? 128)
   || (x =? 239) && (y =? 187) && (z =? 191))%nat.

(** The string without the white space it starts with. *)
Fixpoint trim_left (s : string) : string :=
  match s with
  | EmptyString => EmptyString
  | String a r1 =>
      if is_space1 a then trim_left r1
      else
        match r1 with
        | EmptyString => s
        | String b r2 =>
            if is_space2 a b then trim_left r2
            else
              match r2 with
              | EmptyString => s
              | String c r3 => if is_space3 a b c then trim_left r3 else s
              end
        end
  end.

(** A string made of white space only. *)
Definition all_space (s : string) : bool :=
  match trim_left s with EmptyString => true | _ => false end.

(** The string cut where its trailing white space starts. *)
Fixpoint trim_right (s : string) : string :=
  match s with
  | EmptyString => EmptyString
  | String a rest => if all_space s then EmptyString else String a (trim_right rest)
  end.

Definition trim (s : string) : string := trim_right (trim_left s).

(** [addGoal({ name, desc, target })]; [uid] and [now] are the results of
    [uid()] and [Date.now()]. *)
Definition newGoal (uid : string) (now : Z) (nm ds : string) (tg : number) : Goal :=
  mkGoal uid (trim nm) (trim ds) (round2 tg) zero now.

Definition addGoal (uid : string) (now : Z) (nm ds : string) (tg : number)
    (st : State) : Outcome :=
  render (mkState (goals st ++ [newGoal uid now nm ds tg]) (prefs st) (storage st)).

(** [goals.find((g) => g.id === id)] *)
Definition find_goal (i : string) (gs : list Goal) : option Goal :=
  List.find (fun g => String.eqb (id g) i) gs.

(** An assignment to a property of the object that [find] returned: the first
    goal with that id is changed in place. *)
Fixpoint update_goal (i : string) (f : Goal -> Goal) (gs : list Goal) : list Goal :=
  match gs with
  | [] => []
  | g :: rest =>
      if String.eqb (id g) i then f g :: rest else g :: update_goal i f rest
  end.

(** [deleteGoal(id)] *)
Definition deleteGoal (i : string) (st : State) : Outcome :=
  render (mkState (filter (fun g => negb (String.eqb (id g) i)) (goals st))
            (prefs st) (storage st)).

(** [addSavings(id, amountToAdd)] *)
Definition addSavings (i : string) (amountToAdd : number) (st : State) : Outcome :=
  match find_goal i (goals st) with
  | None => (st, [])
  | Some goal =>
      let remaining := computeRemaining (target goal) (saved goal) in
      let amt := round2 amountToAdd in
      if negb (gtb amt zero) then (st, [])
      else if gtb amt remaining then (st, [Alert (MaxAdd remaining)])
      else
        render (mkState
                  (update_goal i (set_saved (round2 (fadd (saved goal) amt))) (goals st))
                  (prefs st) (storage st))
  end.

(** [goal.target = t; if (goal.saved > goal.target) goal.saved = goal.target;] *)
Definition retarget (t : number) (g : Goal) : Goal :=
  let g' := set_target t g in
  if gtb (saved g') (target g') then set_saved (target g') g' else g'.

(** [editTarget(id)].  [input] is the answer to the prompt: [None] when it is
    dismissed, otherwise the number that [Number(input)] gives. *)
Definition editTarget (i : string) (input : option number) (st : State) : Outcome :=
  match find_goal i (goals st) with
  | None => (st, [])
  | Some goal =>
      match input with
      | None => (st, [])
      | Some n =>
          let newTarget := safeNumber n in
          if negb (isFinite newTarget) || leb newTarget zero
          then (st, [Alert InvalidTarget])
          else
            render (mkState (update_goal i (retarget (round2 newTarget)) (goals st))
                      (prefs st) (storage st))
      end
  end.

(** [resetAll()]; [ok] is the answer to the confirmation dialog. *)
Definition resetAll (ok : bool) (st : State) : Outcome :=
  if negb ok then (st, [])
  else render (saveToStorage (mkState [] default_prefs (storage st))).

(** ** Event listeners

    Only what reaches the state, an alert or the form's error line is kept;
    clearing the input fields and the error line is left out. *)

(** Submit of the add-goal form; [tg] is [Number(goalTargetEl.value)]. *)
Definition submitAddGoal (uid : string) (now : Z) (nm ds : string) (tg : number)
    (st : State) : Outcome :=
  let tgt := safeNumber tg in
  match trim nm with
  | EmptyString => (st, [FormError NeedName])
  | _ =>
      if negb (isFinite tgt) || leb tgt zero then (st, [FormError InvalidTarget])
      else addGoal uid now nm ds tgt st
  end.

(** Submit of the add-savings form of a card. *)
Definition submitAddSavings (i : string) (value : number) (st : State) : Outcome :=
  let amt := safeNumber value in
  if negb (isFinite amt) || leb amt zero then (st, [Alert InvalidSavings])
  else addSavings i amt st.

Definition toggleCurrency (st : State) : Outcome :=
  render (mkState (goals st)
            (mkPrefs (match currency (prefs st) with INR => USD | USD => INR end)
                     (theme (prefs st)))
            (storage st)).

Definition toggleTheme (st : State) : Outcome :=
  render (mkState (goals st)
            (mkPrefs (currency (prefs st))
                     (match theme (prefs st) with dark => light | light => dark end))
            (storage st)).

(** ** Notions used in the statements *)

(** [round2] on rational values: the number of cents that [Math.round]
    returns, and the rounded quotient. *)
Definition eps : Q := Qred (pow2 (-52)).

Definition cents (q : Q) : Z := Qfloor (RN (RN (q + eps) * 100) + (1 # 2)).

Definition round2_Q (q : Q) : Q := RN (inject_Z (cents q) / 100).

(** [2 ^ 45], about 3.5e13: the bound up to which [round2] is idempotent. *)
Definition B45 : Q := inject_Z (2 ^ 45).

Definition two45 : number := Fin (inject_Z (2 ^ 45)).

(** [2 ^ 43], about 8.8e12, and that many cents. *)
Definition two43 : number := Fin (inject_Z (2 ^ 43)).

Definition K43 : Z := (100 * 2 ^ 43)%Z.

(** [x] is the binary64 value nearest to [k] cents. *)
Definition cents_value (k : Z) (x : number) : Prop :=
  isFinite x = true /\ to_Q x == RN (inject_Z k / 100).

(** A goal whose target and savings are numbers of cents, in order and
    below [2 ^ 43]. *)
Definition well_kept (g : Goal) : Prop :=
  exists kt ks : Z, (0 <= ks <= kt)%Z /\ (kt <= K43)%Z /\
    cents_value kt (target g) /\ cents_value ks (saved g).

(** The documented invariant of a goal, [0 <= saved && saved <= target]. *)
Definition within_target (g : Goal) : bool :=
  leb zero (saved g) && leb (saved g) (target g).

Definition is_alert (e : event) : bool :=
  match e with Alert _ => true | _ => false end.

Definition nonempty (s : string) : bool :=
  match s with EmptyString => false | _ => true end.

(** A call that returned without changing or signalling anything. *)
Definition silent (st : State) (o : Outcome) : Prop := o = (st, []).

(** Rounding to the nearest integer with ties away from zero, in the words
    of the specification, and the two-digit rounding it describes. *)
Definition round_half_away (s : Q) : Z :=
  if Qneg s then (- Qfloor (- s + (1 # 2)))%Z else Qfloor (s + (1 # 2)).

Definition round2_half_away (x : number) : number :=
  match x with
  | Fin q => lit (inject_Z (round_half_away (q * 100)) / 100)
  | _ => x
  end.

(** The three ways a storage slot can fail to hold a value. *)
Definition unparseable (b : option blob) : bool :=
  match b with Some (Text None) => true | _ => false end.

Definition missing (b : option blob) : bool :=
  match b with None | Some Empty => true | _ => false end.

(** [j && typeof j === "object"] *)
Definition is_object (j : json) : bool :=
  match j with JObj _ | JArr _ => true | _ => false end.

(** What the user can do, and a session as a sequence of such actions. *)
Inductive action : Type :=
| Create (uid : string) (now : Z) (nm ds : string) (tg : number)
| AddSavings (i : string) (value : number)
| EditTarget (i : string) (input : option number)
| Delete (i : string)
| ToggleCurrency
| ToggleTheme.

Definition step (st : State) (a : action) : State :=
  fst match a with
      | Create uid now nm ds tg => submitAddGoal uid now nm ds tg st
      | AddSavings i value => submitAddSavings i value st
      | EditTarget i input => editTarget i input st
      | Delete i => deleteGoal i st
      | ToggleCurrency => toggleCurrency st
      | ToggleTheme => toggleTheme st
      end.

Definition run (acts : list action) (st : State) : State := fold_left step acts st.

(** An action whose target amount, if it has one, is at most [2 ^ 43]. *)
Definition modest (a : action) : bool :=
  match a with
  | Create _ _ _ _ tg => leb tg two43
  | EditTarget _ (Some n) => leb n two43
  | _ => true
  end.

(** What [escapeHtml] makes of one character, and of a text taken one
    character at a time. *)
Definition escape_char (a : ascii) : string :=
  if Ascii.eqb a "&" then "&amp;"
  else if Ascii.eqb a "<" then "&lt;"
  else if Ascii.eqb a ">" then "&gt;"
  else if Ascii.eqb a dquote then "&quot;"
  else if Ascii.eqb a "'" then "&#039;"
  else String a EmptyString.

Fixpoint escape_each (s : string) : string :=
  match s with
  | EmptyString => EmptyString
  | String a rest => String.append (escape_char a) (escape_each rest)
  end.

(** The characters that open or close a tag or an attribute value. *)
Definition is_markup (a : ascii) : bool :=
  Ascii.eqb a "<" || Ascii.eqb a ">" || Ascii.eqb a dquote || Ascii.eqb a "'".

Fixpoint string_forall (p : ascii -> bool) (s : string) : bool :=
  match s with
  | EmptyString => true
  | String a rest => p a && string_forall p rest
  end.

(** Every [&] of the text is followed by the rest of one of the five
    entities. *)
Fixpoint entities_only (s : string) : bool :=
  match s with
  | EmptyString => true
  | String a rest =>
      if Ascii.eqb a "&" then
        (String.prefix "amp;" rest || String.prefix "lt;" rest || String.prefix "gt;" rest
         || String.prefix "quot;" rest || String.prefix "#039;" rest)
        && entities_only rest
      else entities_only rest
  end.

(** The two slots hold what [saveToStorage] writes for the current goals and
    preferences. *)
Definition synced (st : State) : Prop := storage st = storage (saveToStorage st).

(** A handler with all that it does. *)
Definition perform (st : State) (a : action) : Outcome :=
  match a with
  | Create uid now nm ds tg => submitAddGoal uid now nm ds tg st
  | AddSavings i value => submitAddSavings i value st
  | EditTarget i input => editTarget i input st
  | Delete i => deleteGoal i st
  | ToggleCurrency => toggleCurrency st
  | ToggleTheme => toggleTheme st
  end.

(** What a handler may leave behind: nothing or one message, with the state
    untouched; or one drawing of the page, which then shows the new state,
    and the new state is the one in storage. *)
Definition settled (st : State) (o : Outcome) : Prop :=
  match snd o with
  | [] | [Alert _] | [FormError _] => fst o = st
  | [Rendered p s cards] =>
      p = prefs (fst o) /\ s = renderSummary (goals (fst o)) /\
      cards = renderGrid (goals (fst o)) /\ synced (fst o)
  | _ => False
  end.

(** The order of the cards, and the goals made at a given time. *)
Definition newer_or_same (a b : Goal) : Prop := (createdAt b <= createdAt a)%Z.

Definition made_at (t : Z) (g : Goal) : bool := (createdAt g =? t)%Z.

(** What identifies and describes a goal, amounts aside. *)
Definition label (g : Goal) : string * string * string * Z :=
  (id g, name g, desc g, createdAt g).

Definition is_saving (a : action) : bool :=
  match a with AddSavings _ _ => true | _ => false end.

(** A number that is a binary64 value: a finite one has at most 53
    significant bits and is below [2 ^ 1024]. *)
Definition binary64 (x : number) : Prop :=
  match x with
  | Fin q => representable q /\ Qabs q < pow2 1024
  | _ => True
  end.

Definition stored_as_binary64 (g : Goal) : Prop :=
  binary64 (target g) /\ binary64 (saved g).

(** ** Sample states *)

Definition st0 : State := mkState [] default_prefs empty_storage.

(** The goal "Bike" of 10000 with 4000 saved, and a state that holds it. *)
Definition bike : Goal := mkGoal "g1" "Bike" "to work" (lit 10000) (lit 4000) 1.

Definition st_bike : State :=
  run [Create "g1" 1 "Bike" "to work" (lit 10000); AddSavings "g1" (lit 4000)]%string st0.

(** One goal "Pen" of 100 with nothing saved. *)
Definition st_pen : State := run [Create "g1" 1 "Pen" "a gift" (lit 100)]%string st0.

(** [35184372088832.015625], that is [2 ^ 45 + 1 / 64], a binary64 value. *)
Definition big : number := lit (35184372088832 + (1 # 64)).

(** One goal "Fund" of 36000000000000 with 0.05 saved. *)
Definition st_fund : State :=
  run [Create "g1" 1 "Fund" "college" (lit 36000000000000);
       AddSavings "g1" (lit (5 # 100))]%string st0.

(** One goal "Yacht" created with target [big]. *)
Definition st_yacht : State := run [Create "g1" 1 "Yacht" "one day" big]%string st0.

(** Three goals: 0.1 with 0.1 saved, 0.2 with 0.1 saved, 0.7 with 0.3 saved. *)
Definition st_three : State :=
  run [Create "g1" 1 "Tea" "green" (lit (1 # 10));
       Create "g2" 2 "Pen" "a gift" (lit (2 # 10));
       Create "g3" 3 "Ink" "blue" (lit (7 # 10));
       AddSavings "g1" (lit (1 # 10));
       AddSavings "g2" (lit (1 # 10));
       AddSavings "g3" (lit (3 # 10))]%string st0.

(** White space beyond ASCII, in UTF-8: the no-break space U+00A0, the line
    separator U+2028 and the byte order mark U+FEFF. *)
Definition no_break_space : string :=
  String (ascii_of_nat 194) (String (ascii_of_nat 160) EmptyString).

Definition line_separator : string :=
  String (ascii_of_nat 226) (String (ascii_of_nat 128) (String (ascii_of_nat 168) EmptyString)).

Definition byte_order_mark : string :=
  String (ascii_of_nat 239) (String (ascii_of_nat 187) (String (ascii_of_nat 191) EmptyString)).

(** * Properties *)

Ltac qabs := repeat (apply Qabs_case; intros ?); intros; lra.

(** ** Powers of two and the binade of a rational *)

Lemma pow2_pos e : 0 < pow2 e.
Proof. apply Qpower_0_lt. reflexivity. Qed.

Lemma pow2_add a b : pow2 (a + b) == pow2 a * pow2 b.
Proof. apply Qpower_plus. discriminate. Qed.

Lemma pow2_le a b : (a <= b)%Z -> pow2 a <= pow2 b.
Proof. intros H. apply Qpower_le_compat_l; [exact H | discriminate]. Qed.

Lemma pow2_lt a b : (a < b)%Z -> pow2 a < pow2 b.
Proof. intros H. apply Qpower_lt_compat_l; [exact H | reflexivity]. Qed.

Lemma pow2_succ a : pow2 (a + 1) == 2 * pow2 a.
Proof. rewrite pow2_add. change (pow2 1) with 2. ring. Qed.

Lemma pow2_Z e : (0 <= e)%Z -> pow2 e == inject_Z (2 ^ e).
Proof. intros H. unfold pow2. rewrite Zpower_Qpower by exact H. reflexivity. Qed.

Lemma pow2_sub a b : pow2 (a - b) == pow2 a / pow2 b.
Proof.
  assert (H := pow2_add (a - b) b). replace (a - b + b)%Z with a in H by ring.
  rewrite H. field. intro E. pose proof (pow2_pos b). lra.
Qed.

Lemma Qabs_div_pos q : Qabs q == inject_Z (Z.abs (Qnum q)) / inject_Z (Zpos (Qden q)).
Proof. destruct q as [n d]. cbn [Qabs Qnum Qden]. apply Qmake_Qdiv. Qed.

Lemma ilog2_spec q : ~ q == 0 -> pow2 (ilog2 q) <= Qabs q /\ Qabs q < pow2 (ilog2 q + 1).
Proof.
  intros Hq.
  set (a := Z.abs (Qnum q)). set (b := Zpos (Qden q)).
  assert (Ha : (0 < a)%Z).
  { subst a. destruct q as [n d]. cbn. unfold Qeq in Hq. cbn in Hq. lia. }
  assert (Hb : (0 < b)%Z) by (subst b; lia).
  destruct (Z.log2_spec a Ha) as [Ha1 Ha2].
  destruct (Z.log2_spec b Hb) as [Hb1 Hb2].
  pose proof (Z.log2_nonneg a) as Hla. pose proof (Z.log2_nonneg b) as Hlb.
  set (la := Z.log2 a) in *. set (lb := Z.log2 b) in *.
  assert (QA1 : pow2 la <= inject_Z a).
  { rewrite pow2_Z by lia. rewrite <- Zle_Qle. exact Ha1. }
  assert (QA2 : inject_Z a < 2 * pow2 la).
  { rewrite <- pow2_succ. rewrite pow2_Z by lia. rewrite <- Zlt_Qlt.
    replace (la + 1)%Z with (Z.succ la) by lia. exact Ha2. }
  assert (QB1 : pow2 lb <= inject_Z b).
  { rewrite pow2_Z by lia. rewrite <- Zle_Qle. exact Hb1. }
  assert (QB2 : inject_Z b < 2 * pow2 lb).
  { rewrite <- pow2_succ. rewrite pow2_Z by lia. rewrite <- Zlt_Qlt.
    replace (lb + 1)%Z with (Z.succ lb) by lia. exact Hb2. }
  assert (QB : 0 < inject_Z b) by (rewrite Zlt_Qlt in Hb; exact Hb).
  assert (Habs : Qabs q == inject_Z a / inject_Z b) by apply Qabs_div_pos.
  assert (Hd : pow2 (la - lb) * pow2 lb == pow2 la).
  { rewrite <- pow2_add. replace (la - lb + lb)%Z with la by ring. reflexivity. }
  assert (Hd1 : pow2 (la - lb - 1) * 2 == pow2 (la - lb)).
  { assert (E := pow2_succ (la - lb - 1)). replace (la - lb - 1 + 1)%Z with (la - lb)%Z in E by ring.
    rewrite E. ring. }
  pose proof (pow2_pos (la - lb)) as Pd. pose proof (pow2_pos lb) as Plb.
  pose proof (pow2_pos (la - lb - 1)) as Pd1.
  assert (U : inject_Z a / inject_Z b < 2 * pow2 (la - lb)).
  { apply Qlt_shift_div_r; [exact QB|].
    apply Qlt_le_trans with (2 * pow2 la); [exact QA2|].
    rewrite <- Hd. 
    assert (pow2 (la - lb) * pow2 lb <= pow2 (la - lb) * inject_Z b).
    { apply Qmult_le_l; assumption. }
    lra. }
  assert (L : pow2 (la - lb - 1) < inject_Z a / inject_Z b).
  { apply Qlt_shift_div_l; [exact QB|].
    apply Qlt_le_trans with (pow2 la); [|exact QA1].
    rewrite <- Hd, <- Hd1.
    assert (pow2 (la - lb - 1) * inject_Z b < pow2 (la - lb - 1) * (2 * pow2 lb)).
    { apply Qmult_lt_l; assumption. }
    lra. }
  unfold ilog2. fold a b la lb.
  destruct (Qle_bool (pow2 (la - lb)) (Qabs q)) eqn:T.
  - apply Qle_bool_iff in T. split; [exact T|].
    rewrite pow2_succ, Habs. exact U.
  - assert (T' : ~ pow2 (la - lb) <= Qabs q).
    { intro C. apply Qle_bool_iff in C. congruence. }
    apply Qnot_le_lt in T'. split.
    + rewrite Habs. apply Qlt_le_weak. exact L.
    + replace (la - lb - 1 + 1)%Z with (la - lb)%Z by ring. exact T'.
Qed.

Lemma ilog2_unique q e : pow2 e <= Qabs q -> Qabs q < pow2 (e + 1) -> ilog2 q = e.
Proof.
  intros H1 H2.
  assert (Hq : ~ q == 0).
  { intro E. rewrite E in H1. pose proof (pow2_pos e). cbn in H1. lra. }
  destruct (ilog2_spec q Hq) as [S1 S2].
  destruct (Z.lt_trichotomy (ilog2 q) e) as [C|[C|C]]; [|exact C|].
  - assert (pow2 (ilog2 q + 1) <= pow2 e) by (apply pow2_le; lia). lra.
  - assert (pow2 (e + 1) <= pow2 (ilog2 q)) by (apply pow2_le; lia). lra.
Qed.

Lemma ilog2_eq p q : ~ q == 0 -> p == q -> ilog2 p = ilog2 q.
Proof.
  intros NZ E. destruct (ilog2_spec q NZ) as [S1 S2].
  apply ilog2_unique; rewrite E; assumption.
Qed.

(** *** Nearest integer *)

Lemma rne_cases t :
  (rne t = Qfloor t /\ t - inject_Z (Qfloor t) <= 1 # 2) \/
  (rne t = (Qfloor t + 1)%Z /\ 1 # 2 <= t - inject_Z (Qfloor t)).
Proof.
  unfold rne. destruct (Qcompare_spec (t - inject_Z (Qfloor t)) (1 # 2)) as [E|L|G].
  - destruct (Z.even (Qfloor t)); [left|right]; split; try reflexivity; rewrite E; apply Qle_refl.
  - left. split; [reflexivity | apply Qlt_le_weak; exact L].
  - right. split; [reflexivity | apply Qlt_le_weak; exact G].
Qed.

Lemma inject_Z_succ z : inject_Z (z + 1) == inject_Z z + 1.
Proof. rewrite inject_Z_plus. reflexivity. Qed.

Lemma rne_error t : Qabs (inject_Z (rne t) - t) <= 1 # 2.
Proof.
  pose proof (Qfloor_le t) as F1. pose proof (Qlt_floor t) as F2.
  rewrite inject_Z_succ in F2.
  destruct (rne_cases t) as [[-> H]|[-> H]]; [|rewrite inject_Z_succ];
    apply Qabs_case; intros; lra.
Qed.

Lemma inject_Z_apart n m : n <> m -> 1 <= Qabs (inject_Z n - inject_Z m).
Proof.
  intros H. unfold Qminus. rewrite <- inject_Z_opp, <- inject_Z_plus.
  change (Qabs (inject_Z (n + - m))) with (inject_Z (Z.abs (n + - m))).
  change 1 with (inject_Z 1). rewrite <- Zle_Qle. lia.
Qed.

Lemma rne_nearest t n : Qabs (inject_Z (rne t) - t) <= Qabs (inject_Z n - t).
Proof.
  destruct (Z.eq_dec n (rne t)) as [->|N]; [apply Qle_refl|].
  pose proof (rne_error t) as E. pose proof (inject_Z_apart _ _ N) as A.
  revert E A. qabs.
Qed.

Lemma rne_Z n : rne (inject_Z n) = n.
Proof.
  pose proof (rne_nearest (inject_Z n) n) as H.
  destruct (Z.eq_dec (rne (inject_Z n)) n) as [E|N]; [exact E|].
  pose proof (inject_Z_apart _ _ N) as A.
  assert (Z0 : Qabs (inject_Z n - inject_Z n) == 0).
  { setoid_replace (inject_Z n - inject_Z n) with 0 by ring. reflexivity. }
  rewrite Z0 in H. lra.
Qed.

Lemma rne_comp p q : p == q -> rne p = rne q.
Proof.
  intros E. unfold rne. rewrite (Qfloor_comp _ _ E).
  assert (C : Qcompare (p - inject_Z (Qfloor q)) (1 # 2) = Qcompare (q - inject_Z (Qfloor q)) (1 # 2)).
  { rewrite E. reflexivity. }
  rewrite C. reflexivity.
Qed.

Lemma rne_bound t N : Qabs t <= inject_Z N -> (Z.abs (rne t) <= N)%Z.
Proof.
  intros H. apply Qabs_Qle_condition in H. destruct H as [H1 H2].
  pose proof (Qfloor_le t) as F1. pose proof (Qlt_floor t) as F2.
  rewrite inject_Z_succ in F2.
  assert (L : (- N <= Qfloor t)%Z).
  { rewrite <- (Qfloor_Z (- N)). apply Qfloor_resp_le. rewrite inject_Z_opp. exact H1. }
  assert (U : (Qfloor t <= N)%Z).
  { rewrite <- (Qfloor_Z N). apply Qfloor_resp_le. exact H2. }
  destruct (rne_cases t) as [[-> H]|[-> H]]; [lia|].
  assert (Qfloor t <> N).
  { intros EQ. rewrite EQ in *. lra. }
  lia.
Qed.

Lemma rne_nonneg t : 0 <= t -> (0 <= rne t)%Z.
Proof.
  intros H. assert (F : (0 <= Qfloor t)%Z).
  { rewrite <- (Qfloor_Z 0). apply Qfloor_resp_le. exact H. }
  destruct (rne_cases t) as [[-> _]|[-> _]]; lia.
Qed.

(** *** Rounding to a grid and to binary64 *)

Lemma round_to_error ex q : Qabs (round_to ex q - q) <= pow2 ex * (1 # 2).
Proof.
  unfold round_to. pose proof (pow2_pos ex) as P.
  pose proof (rne_error (q / pow2 ex)) as E.
  assert (EQ : inject_Z (rne (q / pow2 ex)) * pow2 ex - q
               == (inject_Z (rne (q / pow2 ex)) - q / pow2 ex) * pow2 ex).
  { field. lra. }
  rewrite EQ, Qabs_Qmult, (Qabs_pos (pow2 ex)) by lra.
  rewrite (Qmult_comm (pow2 ex)). apply Qmult_le_compat_r; lra.
Qed.

Lemma round_to_nearest ex q n :
  Qabs (round_to ex q - q) <= Qabs (inject_Z n * pow2 ex - q).
Proof.
  unfold round_to. pose proof (pow2_pos ex) as P.
  pose proof (rne_nearest (q / pow2 ex) n) as E.
  assert (EQ : forall z, inject_Z z * pow2 ex - q == (inject_Z z - q / pow2 ex) * pow2 ex).
  { intros z. field. lra. }
  rewrite !EQ, !Qabs_Qmult, (Qabs_pos (pow2 ex)) by lra.
  apply Qmult_le_compat_r; lra.
Qed.

Lemma RN_0 q : q == 0 -> RN q = 0.
Proof. intros E. unfold RN. apply Qeq_bool_iff in E. rewrite E. reflexivity. Qed.

Lemma RN_nz q : ~ q == 0 -> RN q == round_to (fexp (ilog2 q)) q.
Proof.
  intros N. unfold RN. destruct (Qeq_bool q 0) eqn:E.
  - apply Qeq_bool_iff in E. contradiction.
  - apply Qred_correct.
Qed.

Lemma round_to_comp ex p q : p == q -> round_to ex p == round_to ex q.
Proof.
  intros E. unfold round_to.
  rewrite (rne_comp (p / pow2 ex) (q / pow2 ex)); [reflexivity | rewrite E; reflexivity].
Qed.

Lemma RN_comp p q : p == q -> RN p = RN q.
Proof.
  intros E. unfold RN.
  destruct (Qeq_bool q 0) eqn:Z.
  - assert (Zp : Qeq_bool p 0 = true).
    { apply Qeq_bool_iff. rewrite E. apply Qeq_bool_iff. exact Z. }
    rewrite Zp. reflexivity.
  - assert (NZ : ~ q == 0) by (intro C; apply Qeq_bool_iff in C; congruence).
    assert (Zp : Qeq_bool p 0 = false).
    { destruct (Qeq_bool p 0) eqn:T; [|reflexivity].
      apply Qeq_bool_iff in T. rewrite E in T. contradiction. }
    rewrite Zp. apply Qred_complete.
    rewrite (ilog2_eq p q NZ E). apply round_to_comp. exact E.
Qed.

Lemma pow2_split a b : (b <= a)%Z -> pow2 a == inject_Z (2 ^ (a - b)) * pow2 b.
Proof.
  intros H. rewrite <- pow2_Z by lia. rewrite <- pow2_add.
  replace (a - b + b)%Z with a by ring. reflexivity.
Qed.

Lemma fexp_le e : (fexp e <= e)%Z \/ (e < -1074)%Z.
Proof. unfold fexp. lia. Qed.

(** [RN q] is at least as close to [q] as any binary64 value. *)
Lemma RN_nearest q f : representable f -> Qabs (RN q - q) <= Qabs (f - q).
Proof.
  intros (m & c & Hm & Hc & Hf).
  destruct (Qeq_dec q 0) as [Z|NZ].
  { rewrite (RN_0 q Z), Z. 
    setoid_replace (0 - 0) with 0 by ring. cbn [Qabs]. apply Qabs_nonneg. }
  rewrite (RN_nz q NZ).
  destruct (ilog2_spec q NZ) as [S1 S2].
  set (e := ilog2 q) in *. set (ex := fexp e).
  destruct (Z_le_gt_dec ex c) as [G|G].
  - (* [f] is on the grid *)
    rewrite Hf, (pow2_split c ex G), Qmult_assoc, <- inject_Z_mult.
    apply round_to_nearest.
  - (* [f] lies below the binade of [q] *)
    assert (Ex : ex = (e - 52)%Z) by (unfold ex, fexp in *; lia).
    assert (Bf : Qabs f <= pow2 e).
    { rewrite Hf, Qabs_Qmult, (Qabs_pos (pow2 c)) by (pose proof (pow2_pos c); lra).
      apply Qle_trans with (inject_Z (2 ^ 53) * pow2 c).
      - apply Qmult_le_compat_r; [|pose proof (pow2_pos c); lra].
        change (Qabs (inject_Z m)) with (inject_Z (Z.abs m)). rewrite <- Zle_Qle. exact Hm.
      - rewrite <- pow2_Z by lia. rewrite <- pow2_add. apply pow2_le. lia. }
    assert (Ge : pow2 e == inject_Z (2 ^ 52) * pow2 ex).
    { rewrite (pow2_split e ex) by lia. rewrite Ex. replace (e - (e - 52))%Z with 52%Z by ring. reflexivity. }
    pose proof (round_to_nearest ex q (2 ^ 52)) as N1.
    pose proof (round_to_nearest ex q (- 2 ^ 52)) as N2.
    rewrite inject_Z_opp in N2. 
    setoid_replace (- inject_Z (2 ^ 52) * pow2 ex) with (- pow2 e) in N2 by (rewrite Ge; ring).
    rewrite <- Ge in N1.
    revert Bf S1 N1 N2. generalize (round_to ex q). intros r.
    qabs.
Qed.

Lemma representable_RN q : representable (RN q).
Proof.
  destruct (Qeq_dec q 0) as [Z|NZ].
  { rewrite (RN_0 q Z). exists 0%Z, 0%Z. split; [cbn; lia|]. split; [lia|]. reflexivity. }
  destruct (ilog2_spec q NZ) as [S1 S2].
  exists (rne (q / pow2 (fexp (ilog2 q)))), (fexp (ilog2 q)).
  split; [|split].
  - apply rne_bound.
    pose proof (pow2_pos (fexp (ilog2 q))) as P.
    unfold Qdiv. rewrite Qabs_Qmult, (Qabs_pos (/ _)) by (apply Qlt_le_weak, Qinv_lt_0_compat; exact P).
    apply Qle_shift_div_r; [exact P|].
    rewrite <- pow2_Z by lia. rewrite <- pow2_add.
    apply Qle_trans with (pow2 (ilog2 q + 1)); [lra|]. apply pow2_le. unfold fexp. lia.
  - unfold fexp. lia.
  - apply RN_nz. exact NZ.
Qed.

Lemma RN_id f : representable f -> RN f == f.
Proof.
  intros R. pose proof (RN_nearest f f R) as H.
  assert (Z : Qabs (f - f) == 0).
  { setoid_replace (f - f) with 0 by ring. reflexivity. }
  rewrite Z in H. apply Qle_antisym; revert H; qabs.
Qed.

Lemma RN_monotone p q : p <= q -> RN p <= RN q.
Proof.
  intros L. destruct (Qlt_le_dec (RN q) (RN p)) as [C|C]; [|exact C].
  exfalso.
  pose proof (RN_nearest p (RN q) (representable_RN q)) as N1.
  pose proof (RN_nearest q (RN p) (representable_RN p)) as N2.
  assert (E : p == q).
  { revert N1 N2. qabs. }
  rewrite (RN_comp p q E) in C. lra.
Qed.

Lemma RN_nonneg q : 0 <= q -> 0 <= RN q.
Proof. intros H. change (RN 0 <= RN q). apply RN_monotone. exact H. Qed.

Lemma RN_nonpos q : q <= 0 -> RN q <= 0.
Proof. intros H. change (RN q <= RN 0). apply RN_monotone. exact H. Qed.

(** Half a unit in the last place, for a value of magnitude at most [2 ^ E]. *)
Lemma RN_error q E :
  (-1021 <= E)%Z -> Qabs q <= pow2 E -> Qabs (RN q - q) <= pow2 (E - 54).
Proof.
  intros HE B.
  destruct (Qeq_dec q 0) as [Z|NZ].
  { rewrite (RN_0 q Z), Z. cbn. pose proof (pow2_pos (E - 54)). lra. }
  destruct (Qeq_dec (Qabs q) (pow2 E)) as [EQ|NE].
  - assert (R : representable q).
    { destruct (Qlt_le_dec q 0).
      - exists (-1)%Z, E. split; [cbn; lia|]. split; [lia|].
        rewrite Qabs_neg in EQ by lra. change (inject_Z (-1)) with (-1#1). lra.
      - exists 1%Z, E. split; [cbn; lia|]. split; [lia|].
        rewrite Qabs_pos in EQ by lra. change (inject_Z 1) with 1. lra. }
    rewrite (RN_id q R). setoid_replace (q - q) with 0 by ring. cbn.
    pose proof (pow2_pos (E - 54)). lra.
  - destruct (ilog2_spec q NZ) as [S1 S2].
    assert (LT : (ilog2 q < E)%Z).
    { destruct (Z_lt_le_dec (ilog2 q) E) as [C|C]; [exact C|].
      assert (pow2 E <= pow2 (ilog2 q)) by (apply pow2_le; exact C).
      exfalso. apply NE. lra. }
    rewrite (RN_nz q NZ).
    eapply Qle_trans; [apply round_to_error|].
    assert (H1 : pow2 (fexp (ilog2 q)) <= pow2 (E - 53)).
    { apply pow2_le. unfold fexp. lia. }
    assert (H2 : pow2 (E - 53) == 2 * pow2 (E - 54)).
    { rewrite <- pow2_succ. replace (E - 54 + 1)%Z with (E - 53)%Z by ring. reflexivity. }
    lra.
Qed.

(** *** Bounds, and the value of each step of [round2] *)

Lemma eps_pos : 0 < eps.
Proof. reflexivity. Qed.

Lemma eps_le E : (-51 <= E)%Z -> eps <= pow2 E.
Proof.
  intros H. apply Qle_trans with (pow2 (-51)); [vm_compute; discriminate | apply pow2_le; lia].
Qed.

Lemma representable_pow2 E : (-1074 <= E)%Z -> representable (pow2 E).
Proof.
  intros H. exists 1%Z, E. split; [cbn; lia|]. split; [exact H|].
  change (inject_Z 1) with 1. ring.
Qed.

Lemma representable_opp f : representable f -> representable (- f).
Proof.
  intros (m & c & Hm & Hc & Hf). exists (- m)%Z, c. split; [lia|]. split; [exact Hc|].
  rewrite inject_Z_opp, Hf. ring.
Qed.

Lemma RN_bound q E : (-1074 <= E)%Z -> Qabs q <= pow2 E -> Qabs (RN q) <= pow2 E.
Proof.
  intros HE B. apply Qabs_Qle_condition in B. destruct B as [B1 B2].
  apply Qabs_Qle_condition. split.
  - rewrite <- (RN_id (- pow2 E)) by (apply representable_opp, representable_pow2; exact HE).
    apply RN_monotone. exact B1.
  - rewrite <- (RN_id (pow2 E)) by (apply representable_pow2; exact HE).
    apply RN_monotone. exact B2.
Qed.

Lemma of_Q_finite q E :
  (-1074 <= E < 1024)%Z -> Qabs q <= pow2 E ->
  isFinite (of_Q q) = true /\ to_Q (of_Q q) == RN q.
Proof.
  intros HE B. unfold of_Q.
  destruct (Qeq_bool (RN q) 0) eqn:Z.
  - split; [reflexivity|]. apply Qeq_bool_iff in Z. rewrite Z. reflexivity.
  - destruct (Qle_bool (pow2 1024) (Qabs (RN q))) eqn:O.
    + exfalso. apply Qle_bool_iff in O.
      pose proof (RN_bound q E ltac:(lia) B) as B'.
      assert (pow2 E < pow2 1024) by (apply pow2_lt; lia). lra.
    + split; reflexivity.
Qed.

Lemma of_Q_not_nan q : is_nan (of_Q q) = false.
Proof.
  unfold of_Q. destruct (Qeq_bool (RN q) 0); [reflexivity|].
  destruct (Qle_bool (pow2 1024) (Qabs (RN q))); reflexivity.
Qed.

Lemma finite_cases x : isFinite x = true -> (exists s, x = Zero s) \/ (exists q, x = Fin q).
Proof. destruct x; try discriminate; eauto. Qed.

Lemma fadd_EPSILON_value x E :
  (-51 <= E < 1023)%Z -> isFinite x = true -> Qabs (to_Q x) <= pow2 E ->
  isFinite (fadd x EPSILON) = true /\ to_Q (fadd x EPSILON) == RN (to_Q x + eps).
Proof.
  intros HE F B. destruct (finite_cases x F) as [[s ->]|[q ->]].
  - split; [reflexivity|]. vm_compute. reflexivity.
  - cbn [to_Q] in *. unfold fadd, EPSILON. fold eps.
    destruct (Qeq_bool (q + eps) 0) eqn:Z.
    + split; [reflexivity|]. apply Qeq_bool_iff in Z. rewrite (RN_0 _ Z). reflexivity.
    + apply (of_Q_finite _ (E + 1)); [lia|].
      rewrite pow2_succ.
      pose proof (eps_le E ltac:(lia)) as Be. pose proof eps_pos as Pe.
      pose proof (pow2_pos E). revert B. qabs.
Qed.

Lemma fmul_hundred_value x E :
  (-1074 <= E < 1017)%Z -> isFinite x = true -> Qabs (to_Q x) <= pow2 E ->
  isFinite (fmul x hundred) = true /\ to_Q (fmul x hundred) == RN (to_Q x * 100).
Proof.
  intros HE F B. destruct (finite_cases x F) as [[s ->]|[q ->]].
  - split; [reflexivity|]. reflexivity.
  - cbn [to_Q] in *. unfold fmul, hundred.
    destruct (Qeq_bool (q * 100) 0) eqn:Z.
    + split; [reflexivity|]. apply Qeq_bool_iff in Z. rewrite (RN_0 _ Z). reflexivity.
    + apply (of_Q_finite _ (E + 7)); [lia|].
      rewrite pow2_add. change (pow2 7) with 128.
      pose proof (pow2_pos E). revert B. qabs.
Qed.

Lemma fdiv_hundred_value x E :
  (-1074 <= E < 1024)%Z -> isFinite x = true -> Qabs (to_Q x) <= pow2 E ->
  isFinite (fdiv x hundred) = true /\ to_Q (fdiv x hundred) == RN (to_Q x / 100).
Proof.
  intros HE F B. destruct (finite_cases x F) as [[s ->]|[q ->]].
  - split; [reflexivity|]. reflexivity.
  - cbn [to_Q] in *. unfold fdiv, hundred.
    destruct (Qeq_bool (q / 100) 0) eqn:Z.
    + split; [reflexivity|]. apply Qeq_bool_iff in Z. rewrite (RN_0 _ Z). reflexivity.
    + apply (of_Q_finite _ E); [lia|].
      assert (EQ : q / 100 == q * (1 # 100)) by (field).
      rewrite EQ. pose proof (pow2_pos E). revert B. qabs.
Qed.

Lemma Math_round_value x :
  isFinite x = true ->
  isFinite (Math_round x) = true /\
  to_Q (Math_round x) == inject_Z (Qfloor (to_Q x + (1 # 2))).
Proof.
  intros F. destruct (finite_cases x F) as [[s ->]|[q ->]].
  - split; reflexivity.
  - cbn [to_Q Math_round]. destruct (Z.eqb_spec (Qfloor (q + (1 # 2))) 0) as [E|N].
    + split; [reflexivity|]. rewrite E. reflexivity.
    + split; reflexivity.
Qed.

Lemma Qfloor_bound t N : Qabs t <= inject_Z N -> Qabs (inject_Z (Qfloor (t + (1 # 2)))) <= inject_Z N.
Proof.
  intros B. apply Qabs_Qle_condition in B. destruct B as [B1 B2].
  change (Qabs (inject_Z (Qfloor (t + (1 # 2))))) with (inject_Z (Z.abs (Qfloor (t + (1 # 2))))).
  rewrite <- Zle_Qle.
  assert (U : (Qfloor (t + (1 # 2)) <= N)%Z).
  { assert (H : (Qfloor (t + (1 # 2)) <= Qfloor (inject_Z N + (1 # 2)))%Z).
    { apply Qfloor_resp_le. lra. }
    assert (H2 : Qfloor (inject_Z N + (1 # 2)) = N).
    { pose proof (Qfloor_le (inject_Z N + (1 # 2))) as F1.
      pose proof (Qlt_floor (inject_Z N + (1 # 2))) as F2.
      rewrite inject_Z_succ in F2.
      assert (A : inject_Z N - 1 < inject_Z (Qfloor (inject_Z N + (1 # 2)))) by lra.
      assert (A2 : inject_Z (Qfloor (inject_Z N + (1 # 2))) < inject_Z N + 1) by lra.
      rewrite <- inject_Z_succ in A2. rewrite <- Zlt_Qlt in A2.
      assert (A3 : inject_Z (N - 1) < inject_Z (Qfloor (inject_Z N + (1 # 2)))).
      { unfold Z.sub. rewrite inject_Z_plus. exact A. }
      rewrite <- Zlt_Qlt in A3. lia. }
    lia. }
  assert (L : (- N <= Qfloor (t + (1 # 2)))%Z).
  { rewrite <- (Qfloor_Z (- N)). apply Qfloor_resp_le. rewrite inject_Z_opp. lra. }
  lia.
Qed.

Lemma Qfloor_unique t k : inject_Z k <= t -> t < inject_Z k + 1 -> Qfloor t = k.
Proof.
  intros H1 H2. pose proof (Qfloor_le t) as F1. pose proof (Qlt_floor t) as F2.
  rewrite inject_Z_succ in F2.
  assert (A : inject_Z (Qfloor t) < inject_Z (k + 1)) by (rewrite inject_Z_succ; lra).
  assert (B : inject_Z k < inject_Z (Qfloor t + 1)) by (rewrite inject_Z_succ; lra).
  rewrite <- Zlt_Qlt in A, B. lia.
Qed.

Lemma round2_Q_comp p q : p == q -> round2_Q p = round2_Q q.
Proof.
  intros E. unfold round2_Q, cents.
  assert (H : RN (p + eps) = RN (q + eps)) by (apply RN_comp; rewrite E; reflexivity).
  rewrite H. reflexivity.
Qed.

(** [round2] computes, on the rational value of a finite number, the function
    [round2_Q]. *)
Lemma round2_value x :
  isFinite x = true -> Qabs (to_Q x) <= pow2 1000 ->
  isFinite (round2 x) = true /\ to_Q (round2 x) == round2_Q (to_Q x).
Proof.
  intros F B. unfold round2.
  destruct (fadd_EPSILON_value x 1000 ltac:(lia) F B) as [F1 V1].
  assert (B1 : Qabs (to_Q (fadd x EPSILON)) <= pow2 1001).
  { rewrite V1. apply RN_bound; [lia|]. change 1001%Z with (1000 + 1)%Z. rewrite pow2_succ.
    pose proof (eps_le 1000 ltac:(lia)) as Be. pose proof eps_pos as Pe.
    pose proof (pow2_pos 1000). revert B. qabs. }
  destruct (fmul_hundred_value _ 1001 ltac:(lia) F1 B1) as [F2 V2].
  destruct (Math_round_value _ F2) as [F3 V3].
  assert (B3 : Qabs (to_Q (Math_round (fmul (fadd x EPSILON) hundred))) <= pow2 1008).
  { rewrite V3. rewrite pow2_Z by lia. apply Qfloor_bound. rewrite <- pow2_Z by lia.
    rewrite V2. apply RN_bound; [lia|].
    change 1008%Z with (1001 + 7)%Z. rewrite pow2_add. change (pow2 7) with 128.
    pose proof (pow2_pos 1001). revert B1. qabs. }
  destruct (fdiv_hundred_value _ 1008 ltac:(lia) F3 B3) as [F4 V4].
  split; [exact F4|].
  rewrite V4. unfold round2_Q, cents.
  erewrite RN_comp; [reflexivity|].
  rewrite V3.
  assert (H : RN (to_Q (fadd x EPSILON) * 100) = RN (RN (to_Q x + eps) * 100)).
  { apply RN_comp. rewrite V1. reflexivity. }
  rewrite V2, H. reflexivity.
Qed.

(** ** [round2] up to [2 ^ 45] *)

Lemma cents_monotone p q : p <= q -> (cents p <= cents q)%Z.
Proof.
  intros H. unfold cents. apply Qfloor_resp_le.
  assert (RN (RN (p + eps) * 100) <= RN (RN (q + eps) * 100)).
  { apply RN_monotone. 
    assert (RN (p + eps) <= RN (q + eps)) by (apply RN_monotone; lra). lra. }
  lra.
Qed.

Lemma cents_bound q : Qabs q <= B45 -> (Z.abs (cents q) <= 100 * 2 ^ 45)%Z.
Proof.
  intros B. apply Qabs_Qle_condition in B. destruct B as [B1 B2].
  pose proof (cents_monotone _ _ B1) as L. pose proof (cents_monotone _ _ B2) as U.
  assert (E1 : cents (- B45) = (- (100 * 2 ^ 45))%Z) by (vm_compute; reflexivity).
  assert (E2 : cents B45 = (100 * 2 ^ 45)%Z) by (vm_compute; reflexivity).
  rewrite E1 in L. rewrite E2 in U. lia.
Qed.

(** A value that is already a number of cents of magnitude at most
    [100 * 2 ^ 45] keeps its number of cents. *)
Lemma cents_of_cents k :
  (Z.abs k <= 100 * 2 ^ 45)%Z -> cents (RN (inject_Z k / 100)) = k.
Proof.
  intros Hk.
  set (r := RN (inject_Z k / 100)).
  assert (Bk : Qabs (inject_Z k) <= 100 * B45).
  { change (Qabs (inject_Z k)) with (inject_Z (Z.abs k)).
    change (100 * B45) with (inject_Z 100 * inject_Z (2 ^ 45)).
    rewrite <- inject_Z_mult, <- Zle_Qle. exact Hk. }
  assert (Er : Qabs (r - inject_Z k / 100) <= pow2 (-9)).
  { apply (RN_error _ 45); [lia|].
    rewrite pow2_Z by lia. fold B45.
    assert (EQ : inject_Z k / 100 == inject_Z k * (1 # 100)) by field.
    rewrite EQ. revert Bk. qabs. }
  set (v1 := RN (r + eps)).
  assert (E1 : Qabs (v1 - (r + eps)) <= eps).
  { eapply Qle_trans; [apply (RN_nearest _ r); apply representable_RN|].
    pose proof eps_pos. qabs. }
  set (v2 := RN (v1 * 100)).
  assert (Bv : Qabs (v1 * 100) <= pow2 52).
  { assert (EQ : inject_Z k / 100 == inject_Z k * (1 # 100)) by field.
    rewrite EQ in Er. 
    change (pow2 52) with (inject_Z (2 ^ 52)). 
    revert Er E1 Bk. unfold B45. change (pow2 (-9)) with (1 # 512).
    change eps with (1 # 4503599627370496).
    change (inject_Z (2 ^ 45)) with (35184372088832 # 1).
    change (inject_Z (2 ^ 52)) with (4503599627370496 # 1). qabs. }
  assert (E2 : Qabs (v2 - v1 * 100) <= pow2 (-2)).
  { apply (RN_error _ 52); [lia|exact Bv]. }
  unfold cents. fold v1 v2.
  apply Qfloor_unique.
  - assert (EQ : inject_Z k / 100 == inject_Z k * (1 # 100)) by field.
    rewrite EQ in Er. revert Er E1 E2. change (pow2 (-9)) with (1 # 512).
    change eps with (1 # 4503599627370496). change (pow2 (-2)) with (1 # 4). qabs.
  - assert (EQ : inject_Z k / 100 == inject_Z k * (1 # 100)) by field.
    rewrite EQ in Er. revert Er E1 E2. change (pow2 (-9)) with (1 # 512).
    change eps with (1 # 4503599627370496). change (pow2 (-2)) with (1 # 4). qabs.
Qed.

Lemma round2_Q_idempotent q :
  Qabs q <= B45 -> round2_Q (round2_Q q) = round2_Q q.
Proof.
  intros B. unfold round2_Q at 1 3.
  unfold round2_Q. rewrite cents_of_cents; [reflexivity|].
  apply cents_bound. exact B.
Qed.

(** *** Comparisons of finite numbers *)

Lemma Qcompare_le p q : (Qcompare p q = Lt \/ Qcompare p q = Eq) <-> p <= q.
Proof.
  destruct (Qcompare_spec p q) as [E|L|G]; split; intros H; try lra; auto.
  - destruct H; discriminate.
Qed.

Lemma leb_finite x y :
  isFinite x = true -> isFinite y = true -> (leb x y = true <-> to_Q x <= to_Q y).
Proof.
  intros Fx Fy. unfold leb.
  assert (E : ncompare x y = Some (Qcompare (to_Q x) (to_Q y))).
  { destruct x, y; try discriminate; reflexivity. }
  rewrite E. rewrite <- Qcompare_le.
  destruct (Qcompare (to_Q x) (to_Q y)); split; intros H; auto; try discriminate;
    destruct H; discriminate.
Qed.

Lemma ltb_finite x y :
  isFinite x = true -> isFinite y = true -> (ltb x y = true <-> to_Q x < to_Q y).
Proof.
  intros Fx Fy. unfold ltb.
  assert (E : ncompare x y = Some (Qcompare (to_Q x) (to_Q y))).
  { destruct x, y; try discriminate; reflexivity. }
  rewrite E. destruct (Qcompare_spec (to_Q x) (to_Q y)) as [C|C|C]; split; intros H; auto; try discriminate; lra.
Qed.

Lemma eqb_finite x y :
  isFinite x = true -> isFinite y = true -> (eqb x y = true <-> to_Q x == to_Q y).
Proof.
  intros Fx Fy. unfold eqb.
  assert (E : ncompare x y = Some (Qcompare (to_Q x) (to_Q y))).
  { destruct x, y; try discriminate; reflexivity. }
  rewrite E. destruct (Qcompare_spec (to_Q x) (to_Q y)) as [C|C|C]; split; intros H; auto; try discriminate; lra.
Qed.

(** A number between two finite numbers is finite. *)
Lemma between_finite lo hi x :
  isFinite lo = true -> isFinite hi = true ->
  leb lo x = true -> leb x hi = true -> isFinite x = true.
Proof.
  intros Fl Fh L H. destruct x as [| [|] | s | q]; try reflexivity.
  - destruct lo; discriminate L.
  - destruct lo; try discriminate Fl; discriminate L.
  - destruct hi; try discriminate Fh; discriminate H.
Qed.

Lemma within_two45 x :
  leb (fneg two45) x = true -> leb x two45 = true ->
  isFinite x = true /\ Qabs (to_Q x) <= B45.
Proof.
  intros L H.
  assert (F : isFinite x = true).
  { apply (between_finite (fneg two45) two45); [reflexivity | reflexivity | exact L | exact H]. }
  split; [exact F|].
  apply (leb_finite (fneg two45) x (eq_refl true) F) in L.
  apply (leb_finite x two45 F (eq_refl true)) in H.
  cbn [to_Q two45 fneg] in L, H. rewrite Qred_correct in L. fold B45 in L, H.
  apply Qabs_Qle_condition. split; assumption.
Qed.

Lemma B45_le : B45 <= pow2 1000.
Proof. unfold B45. rewrite <- pow2_Z by lia. apply pow2_le. lia. Qed.

Lemma round2_Q_bound q : Qabs q <= B45 -> Qabs (round2_Q q) <= B45.
Proof.
  intros B. pose proof (cents_bound q B) as C.
  unfold round2_Q, B45. rewrite <- pow2_Z by lia. apply RN_bound; [lia|].
  rewrite pow2_Z by lia.
  assert (Bk : Qabs (inject_Z (cents q)) <= 100 * inject_Z (2 ^ 45)).
  { change (Qabs (inject_Z (cents q))) with (inject_Z (Z.abs (cents q))).
    change 100 with (inject_Z 100). rewrite <- inject_Z_mult, <- Zle_Qle. exact C. }
  assert (EQ : inject_Z (cents q) / 100 == inject_Z (cents q) * (1 # 100)) by field.
  rewrite EQ. revert Bk. qabs.
Qed.

(** [round2] is idempotent on every number between [-2^45] and [2^45]. *)
Lemma round2_idempotent_on x :
  leb (fneg two45) x = true -> leb x two45 = true ->
  eqb (round2 (round2 x)) (round2 x) = true.
Proof.
  intros L H. destruct (within_two45 x L H) as [F B].
  destruct (round2_value x F (Qle_trans _ _ _ B B45_le)) as [F1 V1].
  assert (B1 : Qabs (to_Q (round2 x)) <= B45).
  { rewrite V1. apply round2_Q_bound. exact B. }
  destruct (round2_value _ F1 (Qle_trans _ _ _ B1 B45_le)) as [F2 V2].
  apply (eqb_finite _ _ F2 F1).
  rewrite V2, (round2_Q_comp _ _ V1), V1, (round2_Q_idempotent _ B). reflexivity.
Qed.

(** *** Signs *)

Lemma Qneg_false q : 0 <= q -> Qneg q = false.
Proof. intros H. unfold Qneg. destruct (Qlt_le_dec q 0); [lra|reflexivity]. Qed.

Lemma Qneg_true q : q < 0 -> Qneg q = true.
Proof. intros H. unfold Qneg. destruct (Qlt_le_dec q 0); [reflexivity|lra]. Qed.

Lemma nonneg_leb x : nonneg x <-> leb zero x = true.
Proof.
  destruct x as [| [|] | s | q].
  - split; [contradiction | discriminate].
  - split; discriminate.
  - split; reflexivity.
  - split; [reflexivity | intros _; exact I].
  - rewrite (leb_finite zero (Fin q) (eq_refl true) (eq_refl true)). reflexivity.
Qed.

Lemma of_Q_nonneg q : 0 <= q -> nonneg (of_Q q).
Proof.
  intros H. unfold of_Q.
  destruct (Qeq_bool (RN q) 0); [exact I|].
  destruct (Qle_bool (pow2 1024) (Qabs (RN q))).
  - cbn. apply Qneg_false. exact H.
  - cbn. apply RN_nonneg. exact H.
Qed.

Lemma fadd_EPSILON_nonneg x : nonneg x -> nonneg (fadd x EPSILON).
Proof.
  destruct x as [| s | s | q]; cbn [nonneg]; intros H; try contradiction.
  - subst. reflexivity.
  - cbn. vm_compute. discriminate.
  - unfold fadd, EPSILON. fold eps. destruct (Qeq_bool (q + eps) 0); [exact I|].
    apply of_Q_nonneg. pose proof eps_pos. lra.
Qed.

Lemma fmul_hundred_nonneg x : nonneg x -> nonneg (fmul x hundred).
Proof.
  destruct x as [| s | s | q]; cbn [nonneg]; intros H; try contradiction.
  - subst. reflexivity.
  - exact I.
  - unfold fmul, hundred. destruct (Qeq_bool (q * 100) 0); [exact I|].
    apply of_Q_nonneg. lra.
Qed.

Lemma fdiv_hundred_nonneg x : nonneg x -> nonneg (fdiv x hundred).
Proof.
  destruct x as [| s | s | q]; cbn [nonneg]; intros H; try contradiction.
  - subst. reflexivity.
  - exact I.
  - unfold fdiv, hundred. destruct (Qeq_bool (q / 100) 0); [exact I|].
    apply of_Q_nonneg. assert (EQ : q / 100 == q * (1 # 100)) by field. rewrite EQ. lra.
Qed.

Lemma Math_round_nonneg x : nonneg x -> nonneg (Math_round x).
Proof.
  destruct x as [| s | s | q]; cbn [nonneg Math_round]; intros H; try contradiction; auto.
  destruct (Qfloor (q + (1 # 2)) =? 0)%Z; [exact I|]. cbn [nonneg].
  change 0 with (inject_Z 0). rewrite <- Zle_Qle.
  rewrite <- (Qfloor_Z 0). apply Qfloor_resp_le. change (inject_Z 0) with 0. lra.
Qed.

Lemma round2_nonneg x : nonneg x -> nonneg (round2 x).
Proof.
  intros H. unfold round2.
  apply fdiv_hundred_nonneg, Math_round_nonneg, fmul_hundred_nonneg, fadd_EPSILON_nonneg, H.
Qed.

Lemma Math_max_zero_cases d :
  Math_max zero d = NaN \/ nonneg (Math_max zero d).
Proof.
  unfold Math_max. destruct (ncompare zero d) as [[| |]|] eqn:C.
  - right. exact I.
  - right. destruct d as [| [|] | s | q]; try discriminate C; try exact I; try reflexivity.
    assert (L : ltb zero (Fin q) = true) by (unfold ltb; rewrite C; reflexivity).
    apply (ltb_finite zero (Fin q) (eq_refl true) (eq_refl true)) in L.
    cbn [nonneg]. cbn [to_Q zero] in L. lra.
  - right. exact I.
  - left. reflexivity.
Qed.

Lemma round2_NaN : round2 NaN = NaN.
Proof. reflexivity. Qed.

(** What is left to save is never negative. *)
Lemma computeRemaining_cases t s :
  computeRemaining t s = NaN \/ nonneg (computeRemaining t s).
Proof.
  unfold computeRemaining. destruct (Math_max_zero_cases (fsub t s)) as [E|N].
  - left. rewrite E. reflexivity.
  - right. apply round2_nonneg. exact N.
Qed.

Lemma gtb_remaining_pos a t s :
  gtb a (computeRemaining t s) = true -> gtb a zero = true.
Proof.
  intros H. destruct (computeRemaining_cases t s) as [E|N].
  - rewrite E in H. destruct a; discriminate.
  - revert H N. generalize (computeRemaining t s). intros r H N.
    unfold gtb in *.
    destruct r as [| [|] | sr | qr].
    + destruct N.
    + discriminate N.
    + destruct a as [| [|] | sa | qa]; discriminate H.
    + destruct a as [| [|] | sa | qa]; try discriminate H; try reflexivity.
      apply (ltb_finite (Zero sr) (Fin qa) (eq_refl true) (eq_refl true)) in H.
      apply (ltb_finite zero (Fin qa) (eq_refl true) (eq_refl true)). exact H.
    + cbn [nonneg] in N.
      destruct a as [| [|] | sa | qa]; try discriminate H; try reflexivity.
      * apply (ltb_finite (Fin qr) (Zero sa) (eq_refl true) (eq_refl true)) in H.
        cbn [to_Q] in H. lra.
      * apply (ltb_finite (Fin qr) (Fin qa) (eq_refl true) (eq_refl true)) in H.
        apply (ltb_finite zero (Fin qa) (eq_refl true) (eq_refl true)).
        cbn [to_Q zero] in *. lra.
Qed.

(** ** The goal list *)

Lemma find_goal_update_same i f gs g :
  find_goal i gs = Some g -> id (f g) = id g ->
  find_goal i (update_goal i f gs) = Some (f g).
Proof.
  unfold find_goal. induction gs as [|h t IH]; intros F Hid; [discriminate|].
  cbn [find update_goal] in *. destruct (String.eqb (id h) i) eqn:E.
  - injection F as ->. cbn [find]. rewrite Hid, E. reflexivity.
  - cbn [find]. rewrite E. apply IH; assumption.
Qed.

Lemma find_goal_update_other i j f gs :
  j <> i -> (forall g, id (f g) = id g) ->
  find_goal j (update_goal i f gs) = find_goal j gs.
Proof.
  intros N Hid. unfold find_goal. induction gs as [|h t IH]; [reflexivity|].
  cbn [find update_goal]. destruct (String.eqb (id h) i) eqn:E.
  - cbn [find]. rewrite Hid. apply String.eqb_eq in E.
    destruct (String.eqb (id h) j) eqn:E2; [|reflexivity].
    apply String.eqb_eq in E2. congruence.
  - cbn [find]. rewrite IH. reflexivity.
Qed.

Lemma update_goal_absent i f gs : find_goal i gs = None -> update_goal i f gs = gs.
Proof.
  unfold find_goal. induction gs as [|h t IH]; intros F; [reflexivity|].
  cbn [find update_goal] in *. destruct (String.eqb (id h) i); [discriminate|].
  rewrite IH by exact F. reflexivity.
Qed.

Lemma filter_absent i gs :
  find_goal i gs = None -> filter (fun g => negb (String.eqb (id g) i)) gs = gs.
Proof.
  unfold find_goal. induction gs as [|h t IH]; intros F; [reflexivity|].
  cbn [find filter] in *. destruct (String.eqb (id h) i); [discriminate|].
  cbn [negb]. rewrite IH by exact F. reflexivity.
Qed.

Lemma length_update_goal i f gs : List.length (update_goal i f gs) = List.length gs.
Proof.
  induction gs as [|h t IH]; [reflexivity|]. cbn [update_goal].
  destruct (String.eqb (id h) i); cbn [List.length]; congruence.
Qed.

(** The goal that [find] returns is the first one with the id, and an
    assignment to one of its properties changes that element of the list and
    no other. *)
Lemma update_goal_split i f gs g :
  find_goal i gs = Some g ->
  exists before after,
    gs = (before ++ g :: after)%list /\ find_goal i before = None /\
    update_goal i f gs = (before ++ f g :: after)%list.
Proof.
  unfold find_goal. induction gs as [|h gs IH]; [discriminate|]. cbn [find update_goal].
  destruct (String.eqb (id h) i) eqn:E.
  - intros K. injection K as ->. exists [], gs. repeat split.
  - intros K. destruct (IH K) as (before & after & E1 & E2 & E3).
    exists (h :: before), after. cbn [app find]. rewrite E, E3, <- E1. repeat split. exact E2.
Qed.

(** ** Adding savings *)

(** C10.  [addSavings] rounds the amount first; when the rounded amount is
    not greater than zero (zero, negative or NaN) the call returns the state
    as it was, storage included, and produces no alert and no rendering. *)
Theorem addSavings_ignores_non_positive i amountToAdd st :
  gtb (round2 amountToAdd) zero = false ->
  addSavings i amountToAdd st = (st, []).
Proof.
  intros H. unfold addSavings. destruct (find_goal i (goals st)); [|reflexivity].
  rewrite H. reflexivity.
Qed.

(** C2, amended.  On an existing goal [addSavings] compares the rounded amount
    [amt = round2(amountToAdd)], not the amount itself, with
    [remaining = round2(max(0, target - saved))].  When [amt > remaining] the
    state is unchanged and the only effect is the alert that carries
    [remaining].  When [0 < amt <= remaining] the goal found, which is the
    first one with the id, gets [saved = round2(saved + amt)] in its place in
    the list; every other goal, the order and the number of the goals and the
    preferences are unchanged; the page is drawn once; and the new list and
    the preferences are written to storage. *)
Theorem addSavings_checks_rounded_amount i amountToAdd st g :
  find_goal i (goals st) = Some g ->
  let remaining := computeRemaining (target g) (saved g) in
  let amt := round2 amountToAdd in
  let st' := fst (addSavings i amountToAdd st) in
  (gtb amt remaining = true ->
     addSavings i amountToAdd st = (st, [Alert (MaxAdd remaining)])) /\
  (gtb amt zero = true -> gtb amt remaining = false ->
     find_goal i (goals st') = Some (set_saved (round2 (fadd (saved g) amt)) g) /\
     (forall j, j <> i -> find_goal j (goals st') = find_goal j (goals st)) /\
     prefs st' = prefs st /\
     slot_goals (storage st') = Some (Text (Some (JArr (map json_of_goal (goals st'))))) /\
     (exists before after,
        goals st = (before ++ g :: after)%list /\ find_goal i before = None /\
        goals st' = (before ++ set_saved (round2 (fadd (saved g) amt)) g :: after)%list) /\
     slot_prefs (storage st') = Some (Text (Some (json_of_prefs (prefs st')))) /\
     snd (addSavings i amountToAdd st)
     = [Rendered (prefs st') (renderSummary (goals st')) (renderGrid (goals st'))]).
Proof.
  intros F remaining amt st'. subst st'. unfold addSavings. rewrite F.
  fold remaining amt. split.
  - intros G. rewrite (gtb_remaining_pos _ _ _ G). cbn [negb]. rewrite G. reflexivity.
  - intros P G. rewrite P, G.
    cbn [negb render fst snd goals prefs storage saveToStorage slot_goals slot_prefs].
    split; [|split; [|split; [|split; [|split; [|split]]]]].
    + apply find_goal_update_same; [exact F | reflexivity].
    + intros j N. apply find_goal_update_other; [exact N | reflexivity].
    + reflexivity.
    + reflexivity.
    + destruct (update_goal_split i (set_saved (round2 (fadd (saved g) amt))) _ g F)
        as (before & after & E1 & E2 & E3).
      exists before, after. repeat split; assumption.
    + reflexivity.
    + reflexivity.
Qed.

(** ** Unknown ids *)

(** C3, amended.  For an id that no goal has, [addSavings] and [editTarget]
    return the state unchanged and signal nothing, and [deleteGoal] leaves
    the goal list as it was and raises no alert. *)
Theorem unknown_id_is_ignored i st :
  find_goal i (goals st) = None ->
  (forall amountToAdd, addSavings i amountToAdd st = (st, [])) /\
  (forall input, editTarget i input st = (st, [])) /\
  goals (fst (deleteGoal i st)) = goals st /\
  existsb is_alert (snd (deleteGoal i st)) = false.
Proof.
  intros F. split; [|split; [|split]].
  - intros a. unfold addSavings. rewrite F. reflexivity.
  - intros a. unfold editTarget. rewrite F. reflexivity.
  - unfold deleteGoal. cbn [render fst goals saveToStorage]. apply filter_absent. exact F.
  - reflexivity.
Qed.

(** ** A goal with nothing saved *)

Lemma round2_not_nan x : is_nan x = false -> is_nan (round2 x) = false.
Proof.
  intros H. destruct x as [| s | s | q]; [discriminate | destruct s; reflexivity | destruct s; reflexivity |].
  unfold round2.
  assert (A : is_nan (fadd (Fin q) EPSILON) = false).
  { unfold fadd, EPSILON. destruct (Qeq_bool _ 0); [reflexivity | apply of_Q_not_nan]. }
  assert (B : forall y, is_nan y = false -> is_nan (fmul y hundred) = false).
  { intros [| s | s | p] Hy; try discriminate; try reflexivity.
    unfold fmul, hundred. destruct (Qeq_bool _ 0); [reflexivity | apply of_Q_not_nan]. }
  assert (C : forall y, is_nan y = false -> is_nan (Math_round y) = false).
  { intros [| s | s | p] Hy; try discriminate; try reflexivity.
    cbn [Math_round]. destruct (_ =? 0)%Z; reflexivity. }
  assert (D : forall y, is_nan y = false -> is_nan (fdiv y hundred) = false).
  { intros [| s | s | p] Hy; try discriminate; try reflexivity.
    unfold fdiv, hundred. destruct (Qeq_bool _ 0); [reflexivity | apply of_Q_not_nan]. }
  apply D, C, B, A.
Qed.

Lemma gtb_zero_nonneg x : gtb x zero = true -> nonneg x.
Proof.
  unfold gtb. destruct x as [| [|] | s | q]; intros H; try discriminate H; try reflexivity.
  apply (ltb_finite zero (Fin q) (eq_refl true) (eq_refl true)) in H.
  cbn [nonneg]. cbn [to_Q zero] in H. lra.
Qed.

Lemma nonneg_above x : nonneg x -> leb (fneg two45) x = true.
Proof.
  destruct x as [| [|] | s | q]; cbn [nonneg]; intros H.
  - destruct H.
  - discriminate H.
  - reflexivity.
  - reflexivity.
  - apply (leb_finite (fneg two45) (Fin q) (eq_refl true) (eq_refl true)).
    cbn [to_Q two45 fneg]. rewrite Qred_correct.
    assert (0 <= inject_Z (2 ^ 45)) by (vm_compute; discriminate). lra.
Qed.

(** Nothing saved is no progress, whatever the target. *)
Lemma progress_of_nothing t : is_nan t = false -> computeProgressPct t zero = zero.
Proof.
  intros H. unfold computeProgressPct.
  destruct (leb t zero) eqn:L; [reflexivity|].
  destruct t as [| [|] | s | q];
    [discriminate H | reflexivity | reflexivity | discriminate L | reflexivity].
Qed.

Lemma fsub_zero t : isFinite t = true -> fsub t zero = t.
Proof.
  intros F. destruct t as [| s | s | q]; try discriminate; [|reflexivity].
  unfold fsub, fneg, fadd, zero. cbn [negb]. rewrite andb_true_r. reflexivity.
Qed.

(** With nothing saved, what remains is the rounded target. *)
Lemma remaining_of_nothing t :
  isFinite t = true -> nonneg t ->
  eqb (computeRemaining t zero) (round2 t) = true.
Proof.
  intros F N. unfold computeRemaining. rewrite (fsub_zero t F).
  destruct t as [| s | s | q]; try discriminate.
  - destruct s; reflexivity.
  - cbn [nonneg] in N. unfold Math_max.
    assert (C : ncompare zero (Fin q) = Some (Qcompare 0 q)) by reflexivity.
    rewrite C. destruct (Qcompare_spec 0 q) as [E|L|G].
    + cbn [sign zero].
      assert (R : round2 (Fin q) = round2 zero).
      { unfold round2. f_equal. f_equal. unfold fadd, EPSILON, zero. fold eps.
        assert (NZ : Qeq_bool (q + eps) 0 = false).
        { destruct (Qeq_bool (q + eps) 0) eqn:T; [|reflexivity].
          apply Qeq_bool_iff in T. pose proof eps_pos. lra. }
        rewrite NZ. unfold of_Q.
        assert (RE : RN (q + eps) = RN eps) by (apply RN_comp; lra).
        rewrite RE. rewrite (Qneg_false (q + eps)) by (pose proof eps_pos; lra).
        vm_compute. reflexivity. }
      rewrite R. reflexivity.
    + assert (F2 : isFinite (round2 (Fin q)) = true \/ round2 (Fin q) = Inf false).
      { pose proof (round2_nonneg (Fin q) N) as NN.
        destruct (round2 (Fin q)) as [| [|] | s | p]; cbn in NN; try contradiction;
          try discriminate; auto. }
      destruct F2 as [F2|F2].
      * apply (eqb_finite _ _ F2 F2). reflexivity.
      * rewrite F2. reflexivity.
    + lra.
Qed.

Lemma eqb_trans x y z : eqb x y = true -> eqb y z = true -> eqb x z = true.
Proof.
  intros H1 H2.
  destruct x as [| [|] | sx | qx], y as [| [|] | sy | qy]; try discriminate H1;
    destruct z as [| [|] | sz | qz]; try discriminate H2; try reflexivity;
    match type of H1 with eqb ?a ?b = true =>
      apply (eqb_finite a b (eq_refl true) (eq_refl true)) in H1 end;
    match type of H2 with eqb ?a ?b = true =>
      apply (eqb_finite a b (eq_refl true) (eq_refl true)) in H2 end;
    match goal with |- eqb ?a ?b = true =>
      apply (eqb_finite a b (eq_refl true) (eq_refl true)) end;
    cbn [to_Q] in *; lra.
Qed.

(** ** Creating a goal *)

(** For a name that is not empty after trimming and a finite target above
    zero, the add-goal form appends one goal with [saved = 0] and
    [target = round2(target)], whose progress is 0; and for a target of at
    most [2 ^ 45] its remaining amount equals its target. *)
Lemma submitAddGoal_new_goal uid now nm ds tg st :
  nonempty (trim nm) = true -> isFinite tg = true -> gtb tg zero = true ->
  let g := newGoal uid now nm ds tg in
  goals (fst (submitAddGoal uid now nm ds tg st)) = (goals st ++ [g])%list /\
  saved g = zero /\
  target g = round2 tg /\
  computeProgressPct (target g) (saved g) = zero /\
  (leb tg two45 = true ->
   eqb (computeRemaining (target g) (saved g)) (target g) = true).
Proof.
  intros Hn Hf Hp g.
  pose proof (gtb_zero_nonneg tg Hp) as N.
  split; [|split; [|split; [|split]]].
  - unfold submitAddGoal.
    assert (S : safeNumber tg = tg) by (unfold safeNumber; rewrite Hf; reflexivity).
    rewrite S, Hf. cbn [negb orb].
    destruct (trim nm) as [|c0 r0]; [discriminate Hn|].
    assert (L : leb tg zero = false).
    { destruct tg as [| sg | sg | q]; try discriminate Hf; [discriminate Hp|].
      destruct (leb (Fin q) zero) eqn:L; [|reflexivity].
      apply (leb_finite (Fin q) zero (eq_refl true) (eq_refl true)) in L.
      apply (ltb_finite zero (Fin q) (eq_refl true) (eq_refl true)) in Hp.
      cbn [to_Q zero] in *. lra. }
    rewrite L. reflexivity.
  - reflexivity.
  - reflexivity.
  - cbn [g newGoal target saved]. apply progress_of_nothing, round2_not_nan.
    destruct tg; try discriminate Hf; reflexivity.
  - intros Hb. cbn [g newGoal target saved].
    pose proof (nonneg_above tg N) as Lo.
    destruct (within_two45 tg Lo Hb) as [_ B].
    destruct (round2_value tg Hf (Qle_trans _ _ _ B B45_le)) as [F1 _].
    apply eqb_trans with (round2 (round2 tg)).
    + apply remaining_of_nothing; [exact F1 | apply round2_nonneg; exact N].
    + apply round2_idempotent_on; assumption.
Qed.

(** A name made of white space only is refused, also when the white space is
    not ASCII; and white space of any kind is stripped from both ends of the
    name that is stored, while the bytes of other characters stay. *)
Lemma submitAddGoal_trims_all_white_space :
  let blank := String.append no_break_space
                 (String.append line_separator (String.append byte_order_mark " ")) in
  let padded := String.append no_break_space
                  (String.append "Caf" (String.append (String (ascii_of_nat 195)
                     (String (ascii_of_nat 169) EmptyString))
                     (String.append " " line_separator))) in
  submitAddGoal "g1" 1 blank "x" (lit 5) st0 = (st0, [FormError NeedName]) /\
  map name (goals (fst (submitAddGoal "g1" 1 padded "x" (lit 5) st0)))
  = [String.append "Caf" (String (ascii_of_nat 195) (String (ascii_of_nat 169) EmptyString))].
Proof. vm_compute. split; reflexivity. Qed.

(** C7.  The goal created from the name "Yacht" and the valid target
    35184372088832.015625 has [saved = 0], [target = round2(target)] and
    progress 0, but its remaining amount is greater than its target
    (...832.03125 against ...832.0234375).  The card offers that amount as
    "Max add", and submitting it is accepted without an alert and leaves the
    savings above the target, against the script's own "cannot exceed
    target". *)
Theorem new_goal_remaining_above_target :
  let g := newGoal "g1" 1 "Yacht" "one day" big in
  let r := computeRemaining (target g) (saved g) in
  let o := submitAddSavings "g1" r st_yacht in
  nonempty (trim "Yacht") = true /\ isFinite big = true /\ gtb big zero = true /\
  goals (fst (submitAddGoal "g1" 1 "Yacht" "one day" big st0)) = [g] /\
  saved g = zero /\ target g = round2 big /\
  computeProgressPct (target g) (saved g) = zero /\
  eqb r (target g) = false /\ gtb r (target g) = true /\
  card_remaining (card_of g) = r /\
  existsb is_alert (snd o) = false /\
  map saved (goals (fst o)) = [r] /\ map target (goals (fst o)) = [target g] /\
  forallb within_target (goals (fst o)) = false.
Proof. vm_compute. repeat split. Qed.

(** ** Rounding to two digits *)

Lemma lit_value q E :
  (-1074 <= E < 1024)%Z -> Qabs q <= pow2 E ->
  isFinite (lit q) = true /\ to_Q (lit q) == RN q.
Proof.
  intros HE B. unfold lit. destruct (Qeq_bool q 0) eqn:Z.
  - split; [reflexivity|]. apply Qeq_bool_iff in Z. rewrite (RN_0 q Z). reflexivity.
  - apply (of_Q_finite q E HE B).
Qed.

(** C5, amended.  For [-2^45 <= x <= 2^45], let [s] be the binary64 product
    [(x + Number.EPSILON) * 100].  [round2(x)] is the binary64 quotient
    [n / 100] for the integer [n] nearest to [s], a tie going to the larger
    integer ([n - 1/2 <= s < n + 1/2]); for [s >= 0] that is rounding half
    away from zero.  On this range [round2] is idempotent. *)
Theorem round2_ties_up_and_idempotent x :
  leb (fneg two45) x = true -> leb x two45 = true ->
  let s := to_Q (fmul (fadd x EPSILON) hundred) in
  let n := Qfloor (s + (1 # 2)) in
  (inject_Z n - (1 # 2) <= s /\ s < inject_Z n + (1 # 2)) /\
  (0 <= s -> n = round_half_away s) /\
  eqb (round2 x) (lit (inject_Z n / 100)) = true /\
  eqb (round2 (round2 x)) (round2 x) = true.
Proof.
  intros L H s n.
  destruct (within_two45 x L H) as [F B].
  destruct (fadd_EPSILON_value x 1000 ltac:(lia) F (Qle_trans _ _ _ B B45_le)) as [F1 V1].
  assert (B1 : Qabs (to_Q (fadd x EPSILON)) <= pow2 1001).
  { rewrite V1. apply RN_bound; [lia|]. change 1001%Z with (1000 + 1)%Z. rewrite pow2_succ.
    pose proof (eps_le 1000 ltac:(lia)) as Be. pose proof eps_pos as Pe.
    pose proof (pow2_pos 1000). pose proof B45_le. revert B. qabs. }
  destruct (fmul_hundred_value _ 1001 ltac:(lia) F1 B1) as [F2 V2].
  destruct (Math_round_value _ F2) as [F3 V3]. fold s in V3. fold n in V3.
  assert (Bs : Qabs s <= pow2 1008).
  { unfold s. rewrite V2. apply RN_bound; [lia|].
    change 1008%Z with (1001 + 7)%Z. rewrite pow2_add. change (pow2 7) with 128.
    pose proof (pow2_pos 1001). revert B1. qabs. }
  assert (B3 : Qabs (inject_Z n) <= pow2 1008).
  { unfold n. rewrite pow2_Z by lia. apply Qfloor_bound. rewrite <- pow2_Z by lia. exact Bs. }
  split; [|split; [|split]].
  - pose proof (Qfloor_le (s + (1 # 2))) as A1. pose proof (Qlt_floor (s + (1 # 2))) as A2.
    fold n in A1, A2. rewrite inject_Z_succ in A2. split; lra.
  - intros P. unfold round_half_away. rewrite (Qneg_false s P). reflexivity.
  - assert (B4 : Qabs (to_Q (Math_round (fmul (fadd x EPSILON) hundred))) <= pow2 1008).
    { rewrite V3. exact B3. }
    destruct (fdiv_hundred_value _ 1008 ltac:(lia) F3 B4) as [F4 V4].
    assert (B5 : Qabs (inject_Z n / 100) <= pow2 1008).
    { assert (EQ : inject_Z n / 100 == inject_Z n * (1 # 100)) by field.
      rewrite EQ. pose proof (pow2_pos 1008). revert B3. qabs. }
    destruct (lit_value (inject_Z n / 100) 1008 ltac:(lia) B5) as [F5 V5].
    apply (eqb_finite _ _ F4 F5). unfold round2. rewrite V4, V5.
    erewrite RN_comp; [reflexivity|]. rewrite V3. reflexivity.
  - apply round2_idempotent_on; assumption.
Qed.

(** ** Editing the target *)

Lemma Qneg_comp p q : p == q -> Qneg p = Qneg q.
Proof.
  intros E. unfold Qneg. destruct (Qlt_le_dec p 0), (Qlt_le_dec q 0); try reflexivity; lra.
Qed.

Lemma of_Q_comp p q : p == q -> of_Q p = of_Q q.
Proof.
  intros E. unfold of_Q. rewrite (RN_comp p q E), (Qneg_comp p q E). reflexivity.
Qed.

Lemma fdiv_self q : 0 < q -> fdiv (Fin q) (Fin q) = Fin 1.
Proof.
  intros P. unfold fdiv.
  assert (E : q / q == 1) by (field; lra).
  assert (NZ : Qeq_bool (q / q) 0 = false).
  { destruct (Qeq_bool (q / q) 0) eqn:T; [|reflexivity].
    apply Qeq_bool_iff in T. lra. }
  rewrite NZ, (of_Q_comp _ _ E). reflexivity.
Qed.

(** A goal whose savings equal its positive, finite target is complete. *)
Lemma progress_when_full t :
  isFinite t = true -> gtb t zero = true -> computeProgressPct t t = hundred.
Proof.
  intros F P. destruct t as [| s | s | q]; try discriminate F; [discriminate P|].
  apply (ltb_finite zero (Fin q) (eq_refl true) (eq_refl true)) in P. cbn [to_Q zero] in P.
  unfold computeProgressPct.
  assert (L : leb (Fin q) zero = false).
  { destruct (leb (Fin q) zero) eqn:L; [|reflexivity].
    apply (leb_finite (Fin q) zero (eq_refl true) (eq_refl true)) in L. cbn [to_Q zero] in L. lra. }
  rewrite L, (fdiv_self q P). reflexivity.
Qed.

Lemma safeNumber_finite n : isFinite n = true -> safeNumber n = n.
Proof. intros F. unfold safeNumber. rewrite F. reflexivity. Qed.

Lemma gtb_zero_not_leb n : isFinite n = true -> gtb n zero = true -> leb n zero = false.
Proof.
  intros F P. destruct n as [| s | s | q]; try discriminate F; [discriminate P|].
  apply (ltb_finite zero (Fin q) (eq_refl true) (eq_refl true)) in P. cbn [to_Q zero] in P.
  destruct (leb (Fin q) zero) eqn:L; [|reflexivity].
  apply (leb_finite (Fin q) zero (eq_refl true) (eq_refl true)) in L. cbn [to_Q zero] in L. lra.
Qed.

Lemma editTarget_accepts i n st g :
  find_goal i (goals st) = Some g -> isFinite n = true -> gtb n zero = true ->
  editTarget i (Some n) st =
  render (mkState (update_goal i (retarget (round2 n)) (goals st)) (prefs st) (storage st)).
Proof.
  intros F Fn P. unfold editTarget. rewrite F, (safeNumber_finite n Fn), Fn.
  rewrite (gtb_zero_not_leb n Fn P). reflexivity.
Qed.

Lemma retarget_id t g : id (retarget t g) = id g.
Proof. unfold retarget. destruct (gtb _ _); reflexivity. Qed.

(** Lowering the target below the savings, to a target that is still
    positive after rounding, leaves the goal exactly complete. *)
Lemma editTarget_clamps_saved i n st g :
  find_goal i (goals st) = Some g -> isFinite n = true -> gtb n zero = true ->
  gtb (round2 n) zero = true -> gtb (saved g) (round2 n) = true ->
  let g' := set_saved (round2 n) (set_target (round2 n) g) in
  find_goal i (goals (fst (editTarget i (Some n) st))) = Some g' /\
  target g' = round2 n /\ saved g' = target g' /\
  computeProgressPct (target g') (saved g') = hundred.
Proof.
  intros F Fn P Pt Gs g'. rewrite (editTarget_accepts i n st g F Fn P).
  cbn [render fst goals saveToStorage].
  split; [|split; [|split]]; try reflexivity.
  - rewrite (find_goal_update_same i _ _ g F (retarget_id _ g)).
    unfold retarget. cbn [set_target saved target]. rewrite Gs. reflexivity.
  - cbn [g' set_saved set_target target saved]. apply progress_when_full; [|exact Pt].
    destruct (round2 n) as [| [|] | s | q]; try reflexivity; try discriminate Pt.
    destruct (saved g) as [| [|] | s' | q']; discriminate Gs.
Qed.

Lemma ncompare_antisym x y c :
  ncompare x y = Some c -> ncompare y x = Some (CompOpp c).
Proof.
  destruct x as [| [|] | sx | qx], y as [| [|] | sy | qy]; cbn [ncompare to_Q Bool.eqb];
    intros H; try discriminate H; injection H as <-; try reflexivity;
    rewrite <- Qcompare_antisym; reflexivity.
Qed.

Lemma ncompare_total x y :
  is_nan x = false -> is_nan y = false -> exists c, ncompare x y = Some c.
Proof.
  destruct x as [| [|] | sx | qx], y as [| [|] | sy | qy]; intros Hx Hy;
    try discriminate; cbn [ncompare]; eauto.
Qed.

Lemma not_gtb_leb a b :
  is_nan a = false -> is_nan b = false -> gtb a b = false -> leb a b = true.
Proof.
  intros Ha Hb G. destruct (ncompare_total a b Ha Hb) as [c C].
  unfold gtb, ltb in G. rewrite (ncompare_antisym a b c C) in G.
  unfold leb. rewrite C. destruct c; try reflexivity. discriminate G.
Qed.

Lemma leb_refl a : is_nan a = false -> leb a a = true.
Proof.
  destruct a as [| [|] | s | q]; intros H; try discriminate H; try reflexivity.
  apply (leb_finite (Fin q) (Fin q) (eq_refl true) (eq_refl true)). apply Qle_refl.
Qed.

(** [editTarget] always leaves the goal it changed within its target. *)
Lemma retarget_within_target n g :
  isFinite n = true -> gtb n zero = true -> leb zero (saved g) = true ->
  within_target (retarget (round2 n) g) = true.
Proof.
  intros Fn P S.
  assert (Nt : nonneg (round2 n)) by (apply round2_nonneg, gtb_zero_nonneg, P).
  assert (Tn : is_nan (round2 n) = false).
  { apply round2_not_nan. destruct n; try discriminate Fn; reflexivity. }
  unfold retarget. cbn [set_target saved target].
  destruct (gtb (saved g) (round2 n)) eqn:G; unfold within_target;
    cbn [set_saved set_target saved target].
  - apply nonneg_leb in Nt. rewrite Nt, (leb_refl _ Tn). reflexivity.
  - rewrite S. cbn [andb]. apply not_gtb_leb; [|exact Tn|exact G].
    destruct (saved g); try reflexivity. discriminate S.
Qed.

(** A goal is created within its target. *)
Lemma newGoal_within_target uid now nm ds tg :
  gtb tg zero = true -> within_target (newGoal uid now nm ds tg) = true.
Proof.
  intros P. unfold within_target. cbn [newGoal saved target].
  pose proof (round2_nonneg tg (gtb_zero_nonneg tg P)) as N.
  apply nonneg_leb in N. rewrite N. reflexivity.
Qed.

(** ** Loading from storage *)

(** What [loadFromStorage] returns, slot by slot:
    if either blob does not parse, goals and preferences are both the
    defaults; a goals blob that is missing or empty, or that parses to
    something that is not an array, gives the empty list, and one that parses
    to an array gives that array whatever its elements are; a preferences
    blob that is missing or empty, or that parses to something that is not an
    object, gives the default preferences, and one that parses to an object
    gives USD only for the currency "USD" and light only for the theme
    "light", each field falling back to INR and dark on its own. *)
Lemma loadFromStorage_fallbacks sto :
  let r := loadFromStorage sto initial in
  (unparseable (slot_goals sto) = true \/ unparseable (slot_prefs sto) = true ->
     r = initial) /\
  (unparseable (slot_prefs sto) = false ->
     (missing (slot_goals sto) = true -> l_goals r = []) /\
     (forall j, slot_goals sto = Some (Text (Some j)) ->
        l_goals r = match j with JArr l => l | _ => [] end)) /\
  (unparseable (slot_goals sto) = false ->
     (missing (slot_prefs sto) = true -> l_prefs r = default_prefs) /\
     (forall j, slot_prefs sto = Some (Text (Some j)) -> is_object j = false ->
        l_prefs r = default_prefs) /\
     (forall j, slot_prefs sto = Some (Text (Some j)) -> is_object j = true ->
        l_prefs r =
        mkPrefs (if is_str "USD" (prop "currency" j) then USD else INR)
                (if is_str "light" (prop "theme" j) then light else dark))).
Proof.
  destruct sto as [sg sp]. cbv zeta.
  unfold loadFromStorage, load_try. cbn [slot_goals slot_prefs].
  split; [|split].
  - intros [U|U].
    + destruct sg as [[|[j|]]|]; try discriminate U. reflexivity.
    + destruct sp as [[|[j|]]|]; try discriminate U.
      destruct (parse_or (JArr []) sg); reflexivity.
  - intros U. split.
    + intros M. destruct sg as [[|[j|]]|]; try discriminate M;
        destruct sp as [[|[[]|]]|]; try discriminate U; reflexivity.
    + intros j ->. destruct sp as [[|[[]|]]|]; try discriminate U; destruct j; reflexivity.
  - intros U. split; [|split].
    + intros M. destruct sp as [[|[j|]]|]; try discriminate M;
        destruct sg as [[|[[]|]]|]; try discriminate U; reflexivity.
    + intros j -> O. destruct sg as [[|[[]|]]|]; try discriminate U;
        destruct j; try discriminate O; reflexivity.
    + intros j -> O. destruct sg as [[|[[]|]]|]; try discriminate U;
        destruct j; try discriminate O; reflexivity.
Qed.


(** A stored goals array that holds a [null] is not replaced by the empty
    list: it is loaded as it is whenever the preferences blob does not fail
    to parse, and then the rendering that follows the load throws. *)
Lemma stored_null_fails_start_up l1 l2 p :
  let arr := (l1 ++ JNull :: l2)%list in
  let sto := mkStorage (Some (Text (Some (JArr arr)))) p in
  forallb is_goal_record arr = false /\
  l_goals (loadFromStorage sto initial) = (if unparseable p then [] else arr) /\
  init_throws sto = negb (unparseable p).
Proof.
  cbv zeta.
  assert (N : existsb is_null (l1 ++ JNull :: l2)%list = true).
  { rewrite existsb_app. cbn. apply orb_true_r. }
  split; [|split].
  - rewrite forallb_app. cbn. apply andb_false_r.
  - destruct p as [[|[[]|]]|]; reflexivity.
  - unfold init_throws. destruct p as [[|[[]|]]|]; cbn; try exact N; reflexivity.
Qed.

(** C6.  With the text [[null,7]] in the goals slot and no preferences
    stored, the blob parses, it is not an array of goal records, and yet
    [loadFromStorage] does not substitute the empty list: the module variable
    holds [[null, 7]], and the [render()] that [init()] calls next throws on
    the property read [g.target] of [null], so start-up fails.  The script's
    own comment on this function is "If storage is corrupted, start fresh". *)
Theorem init_fails_on_stored_null :
  let arr := [JNull; JNum (lit 7)] in
  let sto := mkStorage (Some (Text (Some (JArr arr)))) None in
  unparseable (slot_goals sto) = false /\
  missing (slot_goals sto) = false /\
  forallb is_goal_record arr = false /\
  loadFromStorage sto initial = mkLoaded arr default_prefs /\
  l_goals (loadFromStorage sto initial) <> l_goals initial /\
  init_throws sto = true.
Proof. vm_compute. repeat split. discriminate. Qed.

(** ** The summary *)

(** C8.  [renderSummary] counts the goals; its two totals are running sums
    in list order, starting from 0 and growing by the target, respectively
    the savings, of each further goal; and the total remaining is
    [Math.max(0, totalRequired - totalSaved)], which is NaN or at least 0. *)
Theorem renderSummary_totals gs g :
  renderSummary [] = mkSummary 0 zero zero zero /\
  totalGoals (renderSummary gs) = List.length gs /\
  totalRequired (renderSummary (gs ++ [g]))
    = fadd (totalRequired (renderSummary gs)) (target g) /\
  totalSaved (renderSummary (gs ++ [g]))
    = fadd (totalSaved (renderSummary gs)) (saved g) /\
  totalRemaining (renderSummary gs)
    = Math_max zero (fsub (totalRequired (renderSummary gs)) (totalSaved (renderSummary gs))) /\
  (totalRemaining (renderSummary gs) = NaN \/ leb zero (totalRemaining (renderSummary gs)) = true).
Proof.
  split; [reflexivity|]. split; [reflexivity|].
  split; [|split; [|split]].
  - unfold renderSummary, reduce_sum. cbn [totalRequired]. rewrite fold_left_app. reflexivity.
  - unfold renderSummary, reduce_sum. cbn [totalSaved]. rewrite fold_left_app. reflexivity.
  - reflexivity.
  - cbn [renderSummary totalRemaining].
    destruct (Math_max_zero_cases (fsub (reduce_sum target gs) (reduce_sum saved gs))) as [E|N].
    + left. exact E.
    + right. apply nonneg_leb. exact N.
Qed.

(** ** Reset *)

(** C9.  After any sequence of actions from any state, a confirmed
    [resetAll] leaves no goal and the default preferences: nothing is listed,
    and what is written to storage loads back as the initial values. *)
Theorem resetAll_clears acts st :
  let st' := fst (resetAll true (run acts st)) in
  goals st' = [] /\ prefs st' = default_prefs /\
  newest_first (goals st') = [] /\ renderGrid (goals st') = [] /\
  loadFromStorage (storage st') initial = initial.
Proof.
  cbv zeta. unfold resetAll. cbn [negb render fst saveToStorage goals prefs storage].
  repeat split.
Qed.

Lemma resetAll_declined st : resetAll false st = (st, []).
Proof. reflexivity. Qed.

(** ** Amounts in cents below [2 ^ 43] *)

Lemma representable_comp p q : p == q -> representable p -> representable q.
Proof. intros E (m & c & Hm & Hc & Hf). exists m, c. rewrite <- E. auto. Qed.

Lemma representable_0 : representable 0.
Proof. exists 0%Z, 0%Z. split; [cbn; lia|]. split; [lia|]. reflexivity. Qed.

Lemma div100 q : q / 100 == q * (1 # 100).
Proof. field. Qed.

Lemma inject_K43 k : (Z.abs k <= K43)%Z -> Qabs (inject_Z k / 100) <= inject_Z (2 ^ 43).
Proof.
  intros H. rewrite div100.
  assert (B : Qabs (inject_Z k) <= inject_Z K43).
  { change (Qabs (inject_Z k)) with (inject_Z (Z.abs k)). rewrite <- Zle_Qle. exact H. }
  change (inject_Z K43) with (100 * inject_Z (2 ^ 43)) in B. revert B. qabs.
Qed.

Lemma cents_value_bounds k x :
  (Z.abs k <= K43)%Z -> cents_value k x ->
  representable (to_Q x) /\ Qabs (to_Q x - inject_Z k / 100) <= 1 # 2048 /\
  Qabs (to_Q x) <= inject_Z (2 ^ 43).
Proof.
  intros Hk [F V]. pose proof (inject_K43 k Hk) as B. split; [|split].
  - apply (representable_comp (RN (inject_Z k / 100))); [symmetry; exact V | apply representable_RN].
  - rewrite V. change (1 # 2048) with (pow2 (43 - 54)). apply RN_error; [lia|].
    rewrite pow2_Z by lia. exact B.
  - rewrite V. rewrite <- pow2_Z by lia. apply RN_bound; [lia|]. rewrite pow2_Z by lia. exact B.
Qed.

(** A binary64 value within [2 ^ -9] of a number of cents [k / 100], for
    [|k| <= 100 * 2 ^ 43], has [k] as its number of cents. *)
Lemma cents_near k d :
  representable d -> (Z.abs k <= K43)%Z ->
  Qabs (d - inject_Z k / 100) <= 1 # 512 -> cents d = k.
Proof.
  intros R Hk Hd. pose proof (inject_K43 k Hk) as Bk. rewrite div100 in Hd, Bk.
  set (v1 := RN (d + eps)).
  assert (E1 : Qabs (v1 - (d + eps)) <= eps).
  { eapply Qle_trans; [apply (RN_nearest _ d R)|]. pose proof eps_pos. qabs. }
  set (v2 := RN (v1 * 100)).
  assert (Bv : Qabs (v1 * 100) <= pow2 50).
  { change (pow2 50) with (inject_Z (2 ^ 50)).
    revert Hd E1 Bk. change eps with (1 # 4503599627370496).
    change (inject_Z (2 ^ 43)) with (8796093022208 # 1).
    change (inject_Z (2 ^ 50)) with (1125899906842624 # 1). qabs. }
  assert (E2 : Qabs (v2 - v1 * 100) <= pow2 (50 - 54)).
  { apply (RN_error _ 50); [lia|exact Bv]. }
  change (pow2 (50 - 54)) with (1 # 16) in E2.
  unfold cents. fold v1 v2. apply Qfloor_unique;
    revert Hd E1 E2; change eps with (1 # 4503599627370496); qabs.
Qed.

Lemma round2_near x k :
  isFinite x = true -> representable (to_Q x) -> (Z.abs k <= K43)%Z ->
  Qabs (to_Q x - inject_Z k / 100) <= 1 # 512 -> cents_value k (round2 x).
Proof.
  intros F R Hk Hd. pose proof (inject_K43 k Hk) as Bk.
  assert (B : Qabs (to_Q x) <= pow2 1000).
  { apply Qle_trans with (pow2 44); [|apply pow2_le; lia].
    change (pow2 44) with (inject_Z (2 ^ 44)).
    revert Hd Bk. change (inject_Z (2 ^ 43)) with (8796093022208 # 1).
    change (inject_Z (2 ^ 44)) with (17592186044416 # 1). qabs. }
  destruct (round2_value x F B) as [F1 V1]. split; [exact F1|].
  rewrite V1. unfold round2_Q. rewrite (cents_near k (to_Q x) R Hk Hd). reflexivity.
Qed.

(** Distinct numbers of cents stay in order once rounded to binary64. *)
Lemma RN_cents_lt k1 k2 :
  (Z.abs k1 <= K43)%Z -> (k1 < k2)%Z ->
  RN (inject_Z k1 / 100) < RN (inject_Z k2 / 100).
Proof.
  intros H1 L.
  assert (M : RN (inject_Z (k1 + 1) / 100) <= RN (inject_Z k2 / 100)).
  { apply RN_monotone. rewrite !div100.
    assert (inject_Z (k1 + 1) <= inject_Z k2) by (rewrite <- Zle_Qle; lia). lra. }
  pose proof (inject_K43 k1 H1) as B1. rewrite div100 in B1.
  assert (S : inject_Z (k1 + 1) / 100 == inject_Z k1 * (1 # 100) + (1 # 100)).
  { rewrite inject_Z_succ. field. }
  assert (E1 : Qabs (RN (inject_Z k1 / 100) - inject_Z k1 * (1 # 100)) <= 1 # 1024).
  { rewrite <- div100. change (1 # 1024) with (pow2 (44 - 54)).
    apply RN_error; [lia|]. change (pow2 44) with (inject_Z (2 ^ 44)). rewrite div100.
    revert B1. change (inject_Z (2 ^ 43)) with (8796093022208 # 1).
    change (inject_Z (2 ^ 44)) with (17592186044416 # 1). qabs. }
  assert (E2 : Qabs (RN (inject_Z (k1 + 1) / 100) - (inject_Z k1 * (1 # 100) + (1 # 100)))
               <= 1 # 1024).
  { rewrite <- S. change (1 # 1024) with (pow2 (44 - 54)).
    apply RN_error; [lia|]. change (pow2 44) with (inject_Z (2 ^ 44)). rewrite S.
    revert B1. change (inject_Z (2 ^ 43)) with (8796093022208 # 1).
    change (inject_Z (2 ^ 44)) with (17592186044416 # 1). qabs. }
  revert E1 E2 M. generalize (RN (inject_Z (k1 + 1) / 100)).
  generalize (RN (inject_Z k1 / 100)). generalize (RN (inject_Z k2 / 100)).
  intros a b c. qabs.
Qed.

Lemma RN_cents_le_inv k1 k2 :
  (Z.abs k2 <= K43)%Z -> RN (inject_Z k1 / 100) <= RN (inject_Z k2 / 100) -> (k1 <= k2)%Z.
Proof.
  intros H2 L. destruct (Z_le_gt_dec k1 k2) as [C|C]; [exact C|].
  pose proof (RN_cents_lt k2 k1 H2 ltac:(lia)). lra.
Qed.

Lemma RN_cents_le k1 k2 :
  (k1 <= k2)%Z -> RN (inject_Z k1 / 100) <= RN (inject_Z k2 / 100).
Proof.
  intros L. apply RN_monotone. rewrite !div100.
  assert (inject_Z k1 <= inject_Z k2) by (rewrite <- Zle_Qle; exact L). lra.
Qed.

Lemma cents_value_zero : cents_value 0 zero.
Proof. split; reflexivity. Qed.

Lemma cents_value_le k1 k2 x y :
  cents_value k1 x -> cents_value k2 y -> (k1 <= k2)%Z -> leb x y = true.
Proof.
  intros [F1 V1] [F2 V2] L. apply (leb_finite x y F1 F2). rewrite V1, V2.
  apply RN_cents_le. exact L.
Qed.

Lemma well_kept_within_target g : well_kept g -> within_target g = true.
Proof.
  intros (kt & ks & [H0 H1] & H2 & Ct & Cs). unfold within_target.
  rewrite (cents_value_le 0 ks zero (saved g) cents_value_zero Cs H0).
  rewrite (cents_value_le ks kt _ _ Cs Ct H1). reflexivity.
Qed.

(** *** Sums and differences of finite numbers *)

Lemma fneg_value y :
  isFinite y = true -> isFinite (fneg y) = true /\ to_Q (fneg y) == - to_Q y.
Proof.
  intros F. destruct y as [| s | s | q]; try discriminate F.
  - split; reflexivity.
  - split; [reflexivity|]. cbn [fneg to_Q]. apply Qred_correct.
Qed.

Lemma fadd_value x y E :
  (-1074 <= E < 1024)%Z -> isFinite x = true -> isFinite y = true ->
  representable (to_Q x) -> representable (to_Q y) ->
  Qabs (to_Q x + to_Q y) <= pow2 E ->
  isFinite (fadd x y) = true /\ to_Q (fadd x y) == RN (to_Q x + to_Q y).
Proof.
  intros HE Fx Fy Rx Ry B.
  destruct x as [| sx | sx | p]; try discriminate Fx;
    destruct y as [| sy | sy | q]; try discriminate Fy; cbn [to_Q] in *.
  - split; reflexivity.
  - split; [reflexivity|]. cbn [fadd to_Q].
    rewrite (RN_comp (0 + q) q) by ring. symmetry. apply RN_id. exact Ry.
  - split; [reflexivity|]. cbn [fadd to_Q].
    rewrite (RN_comp (p + 0) p) by ring. symmetry. apply RN_id. exact Rx.
  - unfold fadd. destruct (Qeq_bool (p + q) 0) eqn:Z.
    + split; [reflexivity|]. apply Qeq_bool_iff in Z. rewrite (RN_0 _ Z). reflexivity.
    + apply (of_Q_finite _ E HE B).
Qed.

Lemma Math_max_zero_value d :
  isFinite d = true -> 0 <= to_Q d ->
  isFinite (Math_max zero d) = true /\ to_Q (Math_max zero d) == to_Q d.
Proof.
  intros F P. destruct d as [| s | s | q]; try discriminate F.
  - split; reflexivity.
  - cbn [to_Q] in P. unfold Math_max.
    assert (C : ncompare zero (Fin q) = Some (Qcompare 0 q)) by reflexivity.
    rewrite C. destruct (Qcompare_spec 0 q) as [E|L|G].
    + split; [reflexivity|]. cbn [sign zero to_Q]. exact E.
    + split; reflexivity.
    + lra.
Qed.

(** Every finite amount is rounded to a number of cents, or to an infinity. *)
Lemma of_Q_cases q :
  of_Q q = Inf (Qneg q) \/ (isFinite (of_Q q) = true /\ to_Q (of_Q q) == RN q).
Proof.
  unfold of_Q. destruct (Qeq_bool (RN q) 0) eqn:Z.
  - right. split; [reflexivity|]. apply Qeq_bool_iff in Z. rewrite Z. reflexivity.
  - destruct (Qle_bool (pow2 1024) (Qabs (RN q))); [left; reflexivity|].
    right. split; reflexivity.
Qed.

Lemma round2_cases x :
  isFinite x = true ->
  (exists s, round2 x = Inf s) \/ (exists k, cents_value k (round2 x)).
Proof.
  intros F. unfold round2.
  assert (A : (exists s, fadd x EPSILON = Inf s) \/ isFinite (fadd x EPSILON) = true).
  { destruct x as [| s | s | q]; try discriminate F; [right; reflexivity|].
    unfold fadd, EPSILON. destruct (Qeq_bool _ 0); [right; reflexivity|].
    destruct (of_Q_cases (q + Qred (pow2 (-52)))) as [I|[Fi _]]; [left; eauto | right; exact Fi]. }
  destruct A as [[s A]|A]; [rewrite A; left; destruct s; eexists; reflexivity|].
  assert (B : (exists s, fmul (fadd x EPSILON) hundred = Inf s)
              \/ isFinite (fmul (fadd x EPSILON) hundred) = true).
  { destruct (fadd x EPSILON) as [| s | s | q]; try discriminate A; [right; reflexivity|].
    unfold fmul, hundred. destruct (Qeq_bool _ 0); [right; reflexivity|].
    destruct (of_Q_cases (q * 100)) as [I|[Fi _]]; [left; eauto | right; exact Fi]. }
  destruct B as [[s B]|B]; [rewrite B; left; destruct s; eexists; reflexivity|].
  destruct (Math_round_value _ B) as [C V].
  destruct (Math_round (fmul (fadd x EPSILON) hundred)) as [| s | s | q] eqn:M;
    try discriminate C.
  - right. exists 0%Z. split; reflexivity.
  - cbn [to_Q] in V. unfold fdiv, hundred.
    destruct (Qeq_bool (q / 100) 0) eqn:Z.
    + right. exists 0%Z. split; reflexivity.
    + destruct (of_Q_cases (q / 100)) as [I|[Fi Vi]]; [left; eauto|].
      right. exists (Qfloor (to_Q (fmul (fadd x EPSILON) hundred) + (1 # 2))).
      split; [exact Fi|]. rewrite Vi.
      erewrite RN_comp; [reflexivity|]. rewrite V. reflexivity.
Qed.

(** *** The actions on goals kept in cents *)

Lemma cents_value_nonneg k x : (0 <= k)%Z -> cents_value k x -> 0 <= to_Q x.
Proof.
  intros H [F V]. rewrite V. apply RN_nonneg. rewrite div100.
  assert (0 <= inject_Z k) by (change 0 with (inject_Z 0); rewrite <- Zle_Qle; exact H). lra.
Qed.

Lemma cents_value_order k1 k2 x y :
  cents_value k1 x -> cents_value k2 y -> (k1 <= k2)%Z -> to_Q x <= to_Q y.
Proof. intros [F1 V1] [F2 V2] L. rewrite V1, V2. apply RN_cents_le. exact L. Qed.

(** What remains of a goal kept in cents is the difference in cents. *)
Lemma computeRemaining_cents kt ks t s :
  (0 <= ks <= kt)%Z -> (kt <= K43)%Z -> cents_value kt t -> cents_value ks s ->
  cents_value (kt - ks) (computeRemaining t s).
Proof.
  intros [H0 H1] H2 Ct Cs.
  destruct (cents_value_bounds kt t ltac:(lia) Ct) as (Rt & Et & Bt).
  destruct (cents_value_bounds ks s ltac:(lia) Cs) as (Rs & Es & Bs).
  pose proof (cents_value_nonneg ks s H0 Cs) as Ps.
  pose proof (cents_value_order ks kt s t Cs Ct H1) as Ost.
  destruct Ct as [Ft Vt], Cs as [Fs Vs].
  destruct (fneg_value s Fs) as [Fn Vn].
  assert (Rn : representable (to_Q (fneg s))).
  { apply (representable_comp (- to_Q s)); [symmetry; exact Vn | apply representable_opp, Rs]. }
  assert (Bd : Qabs (to_Q t + to_Q (fneg s)) <= pow2 43).
  { rewrite Vn. change (pow2 43) with (inject_Z (2 ^ 43)). revert Bt Bs. qabs. }
  destruct (fadd_value t (fneg s) 43 ltac:(lia) Ft Fn Rt Rn Bd) as [Fd Vd].
  fold (fsub t s) in Fd, Vd.
  assert (Pd : 0 <= to_Q (fsub t s)).
  { rewrite Vd. apply RN_nonneg. rewrite Vn. lra. }
  destruct (Math_max_zero_value _ Fd Pd) as [Fm Vm].
  unfold computeRemaining. apply round2_near.
  - exact Fm.
  - apply (representable_comp (RN (to_Q t + to_Q (fneg s)))); [|apply representable_RN].
    rewrite Vm, Vd. reflexivity.
  - unfold K43 in *. lia.
  - rewrite Vm, Vd.
    pose proof (RN_error (to_Q t + to_Q (fneg s)) 43 ltac:(lia) Bd) as Er.
    change (pow2 (43 - 54)) with (1 # 2048) in Er.
    unfold Z.sub. rewrite inject_Z_plus, inject_Z_opp. rewrite div100 in *.
    revert Er Et Es Vn.
    generalize (RN (to_Q t + to_Q (fneg s))). generalize (to_Q (fneg s)).
    intros ns r. qabs.
Qed.

(** Adding an accepted amount to a goal kept in cents keeps it so. *)
Lemma add_cents kt ks ka s a :
  (0 <= ks)%Z -> (0 <= ka)%Z -> (ks + ka <= kt)%Z -> (kt <= K43)%Z ->
  cents_value ks s -> cents_value ka a ->
  cents_value (ks + ka) (round2 (fadd s a)).
Proof.
  intros H0 Ha H1 H2 Cs Ca.
  destruct (cents_value_bounds ks s ltac:(lia) Cs) as (Rs & Es & Bs).
  destruct (cents_value_bounds ka a ltac:(lia) Ca) as (Ra & Ea & Ba).
  destruct Cs as [Fs Vs], Ca as [Fa Va].
  assert (Bd : Qabs (to_Q s + to_Q a) <= pow2 44).
  { change (pow2 44) with (inject_Z (2 ^ 44)). revert Bs Ba.
    change (inject_Z (2 ^ 43)) with (8796093022208 # 1).
    change (inject_Z (2 ^ 44)) with (17592186044416 # 1). qabs. }
  destruct (fadd_value s a 44 ltac:(lia) Fs Fa Rs Ra Bd) as [Fd Vd].
  apply round2_near.
  - exact Fd.
  - apply (representable_comp (RN (to_Q s + to_Q a))); [symmetry; exact Vd | apply representable_RN].
  - lia.
  - rewrite Vd.
    pose proof (RN_error (to_Q s + to_Q a) 44 ltac:(lia) Bd) as Er.
    change (pow2 (44 - 54)) with (1 # 1024) in Er.
    rewrite inject_Z_plus. rewrite div100 in *.
    revert Er Es Ea. generalize (RN (to_Q s + to_Q a)). intros r. qabs.
Qed.

Lemma cents_value_pos k x : cents_value k x -> gtb x zero = true -> (1 <= k)%Z.
Proof.
  intros [F V] P. apply (ltb_finite zero x (eq_refl true) F) in P. cbn [to_Q zero] in P.
  destruct (Z_le_gt_dec k 0) as [C|C]; [|lia].
  pose proof (RN_cents_le k 0 C) as L. rewrite <- V in L.
  change (RN (inject_Z 0 / 100)) with 0 in L. lra.
Qed.

Lemma well_kept_addSavings g amountToAdd :
  well_kept g -> isFinite amountToAdd = true ->
  gtb (round2 amountToAdd) zero = true ->
  gtb (round2 amountToAdd) (computeRemaining (target g) (saved g)) = false ->
  well_kept (set_saved (round2 (fadd (saved g) (round2 amountToAdd))) g).
Proof.
  intros (kt & ks & [H0 H1] & H2 & Ct & Cs) F P G.
  pose proof (computeRemaining_cents kt ks _ _ (conj H0 H1) H2 Ct Cs) as Cr.
  destruct (round2_cases amountToAdd F) as [[s I]|[ka Ca]].
  - exfalso. rewrite I in P, G. destruct s; [discriminate P|].
    destruct Cr as [Fr _].
    destruct (computeRemaining (target g) (saved g)); try discriminate Fr; discriminate G.
  - pose proof (cents_value_pos ka _ Ca P) as Hka.
    assert (Le : (ka <= kt - ks)%Z).
    { apply RN_cents_le_inv; [unfold K43 in *; lia|].
      destruct Ca as [Fa Va], Cr as [Fr Vr]. rewrite <- Va, <- Vr.
      apply (leb_finite _ _ Fa Fr). apply not_gtb_leb; [| |exact G].
      - destruct (round2 amountToAdd); try discriminate Fa; reflexivity.
      - destruct (computeRemaining (target g) (saved g)); try discriminate Fr; reflexivity. }
    exists kt, (ks + ka)%Z. split; [lia|]. split; [exact H2|].
    cbn [set_saved target saved]. split; [exact Ct|].
    apply (add_cents kt); try assumption; lia.
Qed.

Lemma cents_value_round2 x :
  leb zero x = true -> leb x two43 = true ->
  cents_value (cents (to_Q x)) (round2 x) /\ (0 <= cents (to_Q x) <= K43)%Z.
Proof.
  intros L H.
  assert (F : isFinite x = true).
  { apply (between_finite zero two43); [reflexivity | reflexivity | exact L | exact H]. }
  apply (leb_finite zero x (eq_refl true) F) in L.
  apply (leb_finite x two43 F (eq_refl true)) in H. cbn [to_Q zero two43] in L, H.
  assert (B : Qabs (to_Q x) <= pow2 1000).
  { apply Qle_trans with (pow2 43); [|apply pow2_le; lia].
    change (pow2 43) with (inject_Z (2 ^ 43)). qabs. }
  destruct (round2_value x F B) as [F1 V1]. split; [split; [exact F1 | exact V1]|].
  pose proof (cents_monotone _ _ L) as M1. pose proof (cents_monotone _ _ H) as M2.
  assert (E1 : cents 0 = 0%Z) by (vm_compute; reflexivity).
  assert (E2 : cents (inject_Z (2 ^ 43)) = K43) by (vm_compute; reflexivity).
  rewrite E1 in M1. rewrite E2 in M2. lia.
Qed.

Lemma leb_zero_of_gtb x : gtb x zero = true -> leb zero x = true.
Proof. intros P. apply nonneg_leb, gtb_zero_nonneg, P. Qed.

Lemma well_kept_retarget g n :
  well_kept g -> gtb n zero = true -> leb n two43 = true ->
  well_kept (retarget (round2 n) g).
Proof.
  intros (kt & ks & [H0 H1] & H2 & Ct & Cs) P B.
  destruct (cents_value_round2 n (leb_zero_of_gtb n P) B) as [Cn [N0 N1]].
  unfold retarget. cbn [set_target saved target].
  destruct (gtb (saved g) (round2 n)) eqn:G.
  - exists (cents (to_Q n)), (cents (to_Q n)). cbn [set_saved set_target target saved].
    split; [lia|]. split; [exact N1|]. split; exact Cn.
  - exists (cents (to_Q n)), ks. cbn [set_target target saved].
    split; [|split; [exact N1|split; [exact Cn|exact Cs]]].
    split; [exact H0|].
    apply RN_cents_le_inv; [lia|].
    destruct Cn as [Fn Vn], Cs as [Fs Vs]. rewrite <- Vn, <- Vs.
    apply (leb_finite _ _ Fs Fn). apply not_gtb_leb; [| |exact G].
    + destruct (saved g); try discriminate Fs; reflexivity.
    + destruct (round2 n); try discriminate Fn; reflexivity.
Qed.

Lemma well_kept_newGoal uid now nm ds tg :
  gtb tg zero = true -> leb tg two43 = true -> well_kept (newGoal uid now nm ds tg).
Proof.
  intros P B.
  destruct (cents_value_round2 tg (leb_zero_of_gtb tg P) B) as [Cn [N0 N1]].
  exists (cents (to_Q tg)), 0%Z. cbn [newGoal target saved].
  split; [lia|]. split; [exact N1|]. split; [exact Cn | exact cents_value_zero].
Qed.

Lemma Forall_update_goal (P : Goal -> Prop) i f gs :
  Forall P gs ->
  (forall g, find_goal i gs = Some g -> P g -> P (f g)) ->
  Forall P (update_goal i f gs).
Proof.
  unfold find_goal. induction gs as [|h t IH]; intros A H; [constructor|].
  inversion A as [|? ? Ph Pt]; subst. cbn [update_goal find] in *.
  destruct (String.eqb (id h) i).
  - constructor; [apply H; [reflexivity | exact Ph] | exact Pt].
  - constructor; [exact Ph | apply IH; assumption].
Qed.

Lemma Forall_filter (P : Goal -> Prop) f gs : Forall P gs -> Forall P (filter f gs).
Proof.
  induction 1 as [|h t Ph Pt IH]; [constructor|]. cbn [filter].
  destruct (f h); [constructor; assumption | exact IH].
Qed.

Lemma not_leb_gtb n : isFinite n = true -> leb n zero = false -> gtb n zero = true.
Proof.
  intros F L. destruct n as [| s | s | q]; try discriminate F; [discriminate L|].
  apply (ltb_finite zero (Fin q) (eq_refl true) (eq_refl true)). cbn [to_Q zero].
  destruct (Qlt_le_dec 0 q) as [C|C]; [exact C|].
  apply (leb_finite (Fin q) zero (eq_refl true) (eq_refl true)) in C. congruence.
Qed.

(** The handlers either leave the goals alone or run the action on a finite,
    positive amount. *)
Lemma submitAddGoal_cases uid now nm ds tg st :
  goals (fst (submitAddGoal uid now nm ds tg st)) = goals st \/
  (isFinite tg = true /\ gtb tg zero = true /\
   goals (fst (submitAddGoal uid now nm ds tg st))
   = (goals st ++ [newGoal uid now nm ds tg])%list).
Proof.
  unfold submitAddGoal. destruct (trim nm) as [|c r]; [left; reflexivity|].
  destruct (isFinite tg) eqn:F.
  - rewrite (safeNumber_finite tg F), F. cbn [negb orb].
    destruct (leb tg zero) eqn:L; [left; reflexivity|].
    right. split; [reflexivity|]. split; [apply not_leb_gtb; assumption | reflexivity].
  - left. unfold safeNumber. rewrite F. reflexivity.
Qed.

Lemma addSavings_cases i amountToAdd st :
  fst (addSavings i amountToAdd st) = st \/
  (exists g, find_goal i (goals st) = Some g /\
     gtb (round2 amountToAdd) zero = true /\
     gtb (round2 amountToAdd) (computeRemaining (target g) (saved g)) = false /\
     goals (fst (addSavings i amountToAdd st))
     = update_goal i (set_saved (round2 (fadd (saved g) (round2 amountToAdd)))) (goals st)).
Proof.
  unfold addSavings. destruct (find_goal i (goals st)) as [g|] eqn:F; [|left; reflexivity].
  destruct (gtb (round2 amountToAdd) zero) eqn:P; [|left; reflexivity]. cbn [negb].
  destruct (gtb (round2 amountToAdd) (computeRemaining (target g) (saved g))) eqn:G;
    [left; reflexivity|].
  right. exists g. split; [reflexivity|]. split; [reflexivity|]. split; [exact G|]. reflexivity.
Qed.

Lemma submitAddSavings_cases i value st :
  fst (submitAddSavings i value st) = st \/
  (isFinite value = true /\
   fst (submitAddSavings i value st) = fst (addSavings i value st)).
Proof.
  unfold submitAddSavings. destruct (isFinite value) eqn:F.
  - rewrite (safeNumber_finite value F), F. cbn [negb orb].
    destruct (leb value zero); [left; reflexivity | right; split; reflexivity].
  - left. unfold safeNumber. rewrite F. reflexivity.
Qed.

Lemma editTarget_cases i input st :
  fst (editTarget i input st) = st \/
  (exists g n, input = Some n /\ find_goal i (goals st) = Some g /\
     isFinite n = true /\ gtb n zero = true /\
     goals (fst (editTarget i input st))
     = update_goal i (retarget (round2 n)) (goals st)).
Proof.
  unfold editTarget. destruct (find_goal i (goals st)) as [g|] eqn:F; [|left; reflexivity].
  destruct input as [n|]; [|left; reflexivity].
  destruct (isFinite n) eqn:Fn.
  - rewrite (safeNumber_finite n Fn), Fn. cbn [negb orb].
    destruct (leb n zero) eqn:L; [left; reflexivity|].
    right. exists g, n. split; [reflexivity|]. split; [reflexivity|]. split; [exact Fn|].
    split; [apply not_leb_gtb; assumption | reflexivity].
  - left. unfold safeNumber. rewrite Fn. reflexivity.
Qed.

Lemma step_well_kept st a :
  modest a = true -> Forall well_kept (goals st) -> Forall well_kept (goals (step st a)).
Proof.
  intros M A. destruct a as [uid now nm ds tg | i value | i input | i | |]; unfold step.
  - destruct (submitAddGoal_cases uid now nm ds tg st) as [E|(F & P & E)]; rewrite E;
      [exact A|].
    apply Forall_app. split; [exact A|]. constructor; [|constructor].
    apply well_kept_newGoal; [exact P | exact M].
  - destruct (submitAddSavings_cases i value st) as [E|[F E]]; rewrite E; [exact A|].
    destruct (addSavings_cases i value st) as [E'|(g & Fg & P & G & E')]; rewrite E';
      [exact A|].
    apply Forall_update_goal; [exact A|].
    intros g' Fg' W. assert (g' = g) by congruence. subst g'.
    apply well_kept_addSavings; assumption.
  - destruct (editTarget_cases i input st) as [E|(g & n & -> & Fg & F & P & E)]; rewrite E;
      [exact A|].
    apply Forall_update_goal; [exact A|].
    intros g' _ W. apply well_kept_retarget; [exact W | exact P | exact M].
  - cbn [deleteGoal render fst goals saveToStorage]. apply Forall_filter. exact A.
  - exact A.
  - exact A.
Qed.

(** Below [2 ^ 43], about 8.8e12, no sequence of actions takes the savings of
    a goal above its target or below zero. *)
Lemma within_target_below_2_43 acts :
  forallb modest acts = true ->
  forallb within_target (goals (run acts st0)) = true.
Proof.
  intros M.
  assert (W : Forall well_kept (goals (run acts st0))).
  { unfold run. revert M. generalize st0 (Forall_nil well_kept : Forall well_kept (goals st0)).
    induction acts as [|a acts IH]; intros st A M; [exact A|].
    cbn [forallb] in M. apply andb_prop in M. destruct M as [Ma Ms].
    cbn [fold_left]. apply IH; [|exact Ms]. apply step_well_kept; assumption. }
  apply forallb_forall. intros g Hg. apply well_kept_within_target.
  rewrite Forall_forall in W. apply W. exact Hg.
Qed.

(** ** Amounts that are not above zero *)

Lemma nonpos_leb x : nonpos x <-> leb x zero = true.
Proof.
  destruct x as [| [|] | s | q].
  - split; [contradiction | discriminate].
  - split; reflexivity.
  - split; discriminate.
  - split; [reflexivity | intros _; exact I].
  - rewrite (leb_finite (Fin q) zero (eq_refl true) (eq_refl true)). reflexivity.
Qed.

Lemma of_Q_nonpos q : q <= 0 -> nonpos (of_Q q).
Proof.
  intros H. unfold of_Q.
  destruct (Qeq_bool (RN q) 0) eqn:Z; [exact I|].
  destruct (Qle_bool (pow2 1024) (Qabs (RN q))).
  - cbn [nonpos]. apply Qneg_true.
    destruct (Qeq_dec q 0) as [E|N]; [|lra].
    rewrite (RN_0 q E) in Z. discriminate Z.
  - cbn [nonpos]. apply RN_nonpos. exact H.
Qed.

Lemma fmul_hundred_nonpos x : nonpos x -> nonpos (fmul x hundred).
Proof.
  destruct x as [| s | s | q]; cbn [nonpos]; intros H.
  - destruct H.
  - subst. reflexivity.
  - exact I.
  - unfold fmul, hundred. destruct (Qeq_bool (q * 100) 0); [exact I|].
    apply of_Q_nonpos. lra.
Qed.

Lemma fdiv_hundred_nonpos x : nonpos x -> nonpos (fdiv x hundred).
Proof.
  destruct x as [| s | s | q]; cbn [nonpos]; intros H.
  - destruct H.
  - subst. reflexivity.
  - exact I.
  - unfold fdiv, hundred. destruct (Qeq_bool (q / 100) 0); [exact I|].
    apply of_Q_nonpos. rewrite div100. lra.
Qed.

Lemma Math_round_nonpos x : nonpos x -> nonpos (Math_round x).
Proof.
  destruct x as [| s | s | q]; cbn [nonpos Math_round]; intros H; auto.
  destruct (Qfloor (q + (1 # 2)) =? 0)%Z; [exact I|]. cbn [nonpos].
  change 0 with (inject_Z 0). rewrite <- Zle_Qle.
  assert (E : Qfloor (1 # 2) = 0%Z) by reflexivity. rewrite <- E.
  apply Qfloor_resp_le. lra.
Qed.

(** An amount that is not above zero is not above zero once rounded. *)
Lemma round2_nonpos x : leb x zero = true -> leb (round2 x) zero = true.
Proof.
  intros L. apply nonpos_leb in L. apply nonpos_leb.
  destruct x as [| s | s | q]; cbn [nonpos] in L.
  - destruct L.
  - subst. exact (eq_refl true).
  - destruct s; exact I.
  - destruct (Qlt_le_dec (- eps) q) as [C|C].
    + assert (B : Qabs q <= pow2 1000).
      { pose proof (eps_le 1000 ltac:(lia)) as Be. apply Qabs_case; intros; lra. }
      destruct (round2_value (Fin q) (eq_refl true) B) as [F V].
      apply nonpos_leb. apply (leb_finite (round2 (Fin q)) zero F (eq_refl true)).
      rewrite V. cbn [to_Q zero]. unfold round2_Q. apply RN_nonpos.
      pose proof (cents_monotone q 0 L) as M.
      assert (E : cents 0 = 0%Z) by (vm_compute; reflexivity). rewrite E in M.
      rewrite div100.
      assert (inject_Z (cents q) <= 0) by (change 0 with (inject_Z 0); rewrite <- Zle_Qle; exact M).
      lra.
    + unfold round2.
      apply fdiv_hundred_nonpos, Math_round_nonpos, fmul_hundred_nonpos.
      unfold fadd, EPSILON. fold eps. destruct (Qeq_bool (q + eps) 0); [exact I|].
      apply of_Q_nonpos. lra.
Qed.

(** [addSavings] ignores an amount that is NaN, zero or negative. *)
Lemma addSavings_ignores_nan_zero_negative i amountToAdd st :
  is_nan amountToAdd = true \/ leb amountToAdd zero = true ->
  addSavings i amountToAdd st = (st, []).
Proof.
  intros H.
  assert (G : gtb (round2 amountToAdd) zero = false).
  { destruct H as [N|L].
    - destruct amountToAdd; try discriminate N. reflexivity.
    - pose proof (round2_nonpos _ L) as L'. unfold gtb, ltb, leb in *.
      destruct (round2 amountToAdd) as [| [|] | s | q]; try discriminate L'; try reflexivity.
      cbn [ncompare to_Q zero] in *.
      destruct (Qcompare_spec q 0) as [E|Lt|Gt]; try discriminate L';
        destruct (Qcompare_spec 0 q) as [E'|Lt'|Gt']; try reflexivity; lra. }
  unfold addSavings. destruct (find_goal i (goals st)); [|reflexivity].
  rewrite G. reflexivity.
Qed.

(** ** The clamp of the summary *)

Lemma fsub_nonpos t s : ltb t s = true -> nonpos (fsub t s).
Proof.
  intros L. unfold fsub.
  destruct t as [| [|] | st | p], s as [| [|] | ss | q]; try discriminate L;
    try exact I; try reflexivity.
  - apply (ltb_finite (Zero st) (Fin q) (eq_refl true) (eq_refl true)) in L.
    cbn [to_Q] in L. cbn [fneg fadd nonpos]. rewrite Qred_correct. lra.
  - apply (ltb_finite (Fin p) (Zero ss) (eq_refl true) (eq_refl true)) in L.
    cbn [to_Q] in L. cbn [fneg fadd nonpos]. lra.
  - apply (ltb_finite (Fin p) (Fin q) (eq_refl true) (eq_refl true)) in L.
    cbn [to_Q] in L. cbn [fneg fadd].
    destruct (Qeq_bool (p + Qred (- q)) 0); [exact I|].
    apply of_Q_nonpos. rewrite Qred_correct. lra.
Qed.

Lemma fsub_nonneg t s : leb s t = true -> fsub t s = NaN \/ nonneg (fsub t s).
Proof.
  intros L. unfold fsub.
  destruct t as [| [|] | st | p], s as [| [|] | ss | q]; try discriminate L;
    try (left; reflexivity); try (right; exact I); try (right; reflexivity).
  - right. apply (leb_finite (Fin q) (Zero st) (eq_refl true) (eq_refl true)) in L.
    cbn [to_Q] in L. cbn [fneg fadd nonneg]. rewrite Qred_correct. lra.
  - right. apply (leb_finite (Zero ss) (Fin p) (eq_refl true) (eq_refl true)) in L.
    cbn [to_Q] in L. cbn [fneg fadd nonneg]. lra.
  - right. apply (leb_finite (Fin q) (Fin p) (eq_refl true) (eq_refl true)) in L.
    cbn [to_Q] in L. cbn [fneg fadd].
    destruct (Qeq_bool (p + Qred (- q)) 0); [exact I|].
    apply of_Q_nonneg. rewrite Qred_correct. lra.
Qed.

Lemma Math_max_zero_nonpos d : nonpos d -> Math_max zero d = zero.
Proof.
  destruct d as [| [|] | s | q]; cbn [nonpos]; intros H.
  - destruct H.
  - reflexivity.
  - discriminate H.
  - reflexivity.
  - unfold Math_max.
    assert (C : ncompare zero (Fin q) = Some (Qcompare 0 q)) by reflexivity.
    rewrite C. destruct (Qcompare_spec 0 q) as [E|L|G]; try reflexivity. lra.
Qed.

Lemma Math_max_zero_nonneg d : nonneg d -> eqb (Math_max zero d) d = true.
Proof.
  destruct d as [| [|] | s | q]; cbn [nonneg]; intros H.
  - destruct H.
  - discriminate H.
  - reflexivity.
  - reflexivity.
  - unfold Math_max.
    assert (C : ncompare zero (Fin q) = Some (Qcompare 0 q)) by reflexivity.
    rewrite C. destruct (Qcompare_spec 0 q) as [E|L|G].
    + cbn [sign zero]. apply (eqb_finite zero (Fin q) (eq_refl true) (eq_refl true)). exact E.
    + apply (eqb_finite (Fin q) (Fin q) (eq_refl true) (eq_refl true)). reflexivity.
    + lra.
Qed.

(** The total remaining is 0 when more is saved than required in total, and
    the difference of the two totals otherwise, NaN if that difference is. *)
Lemma totalRemaining_clamped gs :
  let s := renderSummary gs in
  (ltb (totalRequired s) (totalSaved s) = true -> totalRemaining s = zero) /\
  (leb (totalSaved s) (totalRequired s) = true ->
   totalRemaining s = NaN \/
   eqb (totalRemaining s) (fsub (totalRequired s) (totalSaved s)) = true).
Proof.
  cbv zeta. cbn [renderSummary totalRequired totalSaved totalRemaining]. split.
  - intros L. apply Math_max_zero_nonpos, fsub_nonpos, L.
  - intros L. destruct (fsub_nonneg _ _ L) as [E|N].
    + left. rewrite E. reflexivity.
    + right. apply Math_max_zero_nonneg, N.
Qed.

(** ** The documented invariant, [0 <= saved <= target] *)

(** C1, at the failing input.  A goal is created with target
    36000000000000 and 0.05 is saved: the goal is within its target and the
    card shows 35999999999999.96 as the most that can be added.  Adding
    35999999999999.96 is accepted without an alert and stores
    36000000000000.01 as saved, which is above the target. *)
Theorem addSavings_overshoots_target :
  let o := submitAddSavings "g1" (lit (3599999999999996 # 100)) st_fund in
  forallb within_target (goals st_fund) = true /\
  map (fun g => (target g, saved g, computeRemaining (target g) (saved g)))
      (goals st_fund)
  = [(lit 36000000000000, lit (5 # 100), lit (3599999999999996 # 100))] /\
  existsb is_alert (snd o) = false /\
  map (fun g => (target g, saved g)) (goals (fst o))
  = [(lit 36000000000000, lit (3600000000000001 # 100))] /\
  gtb (lit (3600000000000001 # 100)) (lit 36000000000000) = true /\
  forallb within_target (goals (fst o)) = false.
Proof. vm_compute. repeat split. Qed.

(** The same in one step, for an amount with more than two decimals: the
    goal created with target 35184372088832.015625 stores the target
    35184372088832.0234375, and adding the same amount to it stores
    35184372088832.03125 as saved. *)
Lemma addSavings_overshoots_in_one_step :
  let o := submitAddSavings "g1" big st_yacht in
  isFinite big = true /\ gtb big zero = true /\
  forallb within_target (goals st_yacht) = true /\
  existsb is_alert (snd o) = false /\
  map (fun g => (target g, saved g)) (goals (fst o))
  = [(Fin (4503599627370499 # 128), Fin (1125899906842625 # 32))] /\
  forallb within_target (goals (fst o)) = false.
Proof. vm_compute. repeat split. Qed.

(** ** A target that rounds to zero *)

(** C4, at the failing input.  The goal with target 10000 and 4000 saved is
    edited to the new target 0.001, which is finite and greater than 0: the
    call is accepted without an alert, the target is stored as 0, the savings
    are clamped to 0, and the progress is 0, not 100. *)
Theorem editTarget_rounds_target_to_zero :
  let n := lit (1 # 1000) in
  let o := editTarget "g1" (Some n) st_bike in
  isFinite n = true /\ gtb n zero = true /\
  map (fun g => (target g, saved g)) (goals st_bike) = [(Fin 10000, Fin 4000)] /\
  existsb is_alert (snd o) = false /\
  map (fun g => (target g, saved g)) (goals (fst o)) = [(zero, zero)] /\
  map (fun g => computeProgressPct (target g) (saved g)) (goals (fst o)) = [zero].
Proof. vm_compute. repeat split. Qed.

(** ** Inputs at which the specification and the script differ *)

(** C2: with 100 remaining, the amount 100.004 is greater than what remains,
    yet it is accepted without an alert, as the 100.00 it rounds to. *)
Lemma addSavings_accepts_above_remaining :
  let amount := lit (100004 # 1000) in
  let o := addSavings "g1" amount st_pen in
  map (fun g => computeRemaining (target g) (saved g)) (goals st_pen) = [hundred] /\
  gtb amount hundred = true /\
  map saved (goals (fst o)) = [hundred] /\
  existsb is_alert (snd o) = false.
Proof. vm_compute. repeat split. Qed.

(** C3: for an id that no goal has, [addSavings] and [editTarget] do nothing
    and report nothing. *)
Lemma unknown_id_is_silent :
  find_goal "g9" (goals st_bike) = None /\
  silent st_bike (addSavings "g9" (lit 50) st_bike) /\
  silent st_bike (editTarget "g9" (Some (lit 50)) st_bike).
Proof. unfold silent. vm_compute. repeat split. Qed.

(** C5: [round2] is not idempotent at 35184372088832.015625, and it rounds
    -0.125, whose hundredfold is exactly the tie -12.5, to -0.12 where
    rounding half away from zero gives -0.13. *)
Lemma round2_counterexample :
  (isFinite big = true /\ eqb (round2 (round2 big)) (round2 big) = false) /\
  (to_Q (lit (- (1 # 8))) * 100 == - (25 # 2) /\
   round_half_away (to_Q (lit (- (1 # 8))) * 100) = (-13)%Z /\
   eqb (round2 (lit (- (1 # 8)))) (lit (- (12 # 100))) = true /\
   eqb (round2 (lit (- (1 # 8)))) (round2_half_away (lit (- (1 # 8)))) = false).
Proof. vm_compute. repeat split. Qed.

(** ** The theorems at concrete inputs *)

Lemma addSavings_checks_rounded_amount_witness :
  addSavings "g1" (lit 7000) st_bike
  = (st_bike, [Alert (MaxAdd (computeRemaining (target bike) (saved bike)))]).
Proof.
  assert (F : find_goal "g1" (goals st_bike) = Some bike) by (vm_compute; reflexivity).
  destruct (addSavings_checks_rounded_amount "g1" (lit 7000) st_bike bike F) as [R _].
  apply R. vm_compute. reflexivity.
Defined.

Lemma unknown_id_is_ignored_witness :
  addSavings "g9" (lit 50) st_bike = (st_bike, []).
Proof.
  assert (F : find_goal "g9" (goals st_bike) = None) by (vm_compute; reflexivity).
  apply (proj1 (unknown_id_is_ignored "g9" st_bike F)).
Defined.

Lemma round2_ties_up_and_idempotent_witness :
  eqb (round2 (round2 (lit (1005 # 1000)))) (round2 (lit (1005 # 1000))) = true.
Proof.
  assert (L : leb (fneg two45) (lit (1005 # 1000)) = true) by (vm_compute; reflexivity).
  assert (H : leb (lit (1005 # 1000)) two45 = true) by (vm_compute; reflexivity).
  destruct (round2_ties_up_and_idempotent (lit (1005 # 1000)) L H) as (_ & _ & _ & I).
  exact I.
Defined.

Lemma addSavings_ignores_non_positive_witness :
  addSavings "g1" (lit (4 # 1000)) st_bike = (st_bike, []).
Proof.
  apply addSavings_ignores_non_positive. vm_compute. reflexivity.
Defined.

(** ** Agreement with the standard library's IEEE 754 operations

    On these operands, which include the ones of the failing inputs above, the
    operators and comparisons of [Num] give the results of [SFadd], [SFsub],
    [SFmul], [SFdiv], [SFltb], [SFleb] and [SFeqb] at precision 53 and maximal
    exponent 1024. *)

Lemma fadd_agrees_with_SFadd :
  let ops := [(lit (1 # 10), lit (2 # 10)); (big, EPSILON); (lit (- (1 # 8)), EPSILON);
              (lit (1005 # 1000), EPSILON); (lit (5 # 100), lit (3599999999999996 # 100));
              (lit (17 * 10 ^ 307), lit (17 * 10 ^ 307)); (Inf false, Inf true);
              (lit (1 # 10 ^ 320), lit (- (1 # 10 ^ 321)))] in
  map (fun p => to_SF (fadd (fst p) (snd p))) ops
  = map (fun p => SFadd 53 1024 (to_SF (fst p)) (to_SF (snd p))) ops.
Proof. vm_compute. reflexivity. Qed.

Lemma fsub_agrees_with_SFsub :
  let ops := [(lit (3 # 10), lit (1 # 10)); (lit 10000, lit 4000); (round2 big, zero);
              (lit 36000000000000, lit (5 # 100)); (lit 100, lit 100);
              (Inf false, Inf false)] in
  map (fun p => to_SF (fsub (fst p) (snd p))) ops
  = map (fun p => SFsub 53 1024 (to_SF (fst p)) (to_SF (snd p))) ops.
Proof. vm_compute. reflexivity. Qed.

Lemma fmul_agrees_with_SFmul :
  let ops := [(lit (1005 # 1000), hundred); (big, hundred); (round2 big, hundred);
              (fsub (lit 36000000000000) (lit (5 # 100)), hundred);
              (lit (5 * 10 ^ 307), hundred); (lit (1 # 10 ^ 320), lit (1 # 100));
              (lit (- (1 # 8)), hundred); (zero, Inf false)] in
  map (fun p => to_SF (fmul (fst p) (snd p))) ops
  = map (fun p => SFmul 53 1024 (to_SF (fst p)) (to_SF (snd p))) ops.
Proof. vm_compute. reflexivity. Qed.

Lemma fdiv_agrees_with_SFdiv :
  let ops := [(lit 101, hundred); (lit 3518437208883202, hundred);
              (lit 3518437208883203, hundred); (lit 3599999999999996, hundred);
              (lit 4000, lit 10000); (lit (1 # 10 ^ 310), hundred);
              (zero, lit 3000); (lit 1, zero); (zero, zero); (Inf false, Inf false)] in
  map (fun p => to_SF (fdiv (fst p) (snd p))) ops
  = map (fun p => SFdiv 53 1024 (to_SF (fst p)) (to_SF (snd p))) ops.
Proof. vm_compute. reflexivity. Qed.

Lemma comparisons_agree_with_SFcompare :
  let ops := [(lit (1 # 10), lit (2 # 10)); (lit 7000, lit 6000); (lit 100, lit 100);
              (zero, Zero true); (NaN, lit 1); (lit 1, NaN); (Inf false, lit 1);
              (Inf true, Inf true); (lit (- (1 # 8)), zero)] in
  map (fun p => (ltb (fst p) (snd p), leb (fst p) (snd p), eqb (fst p) (snd p))) ops
  = map (fun p => (SFltb (to_SF (fst p)) (to_SF (snd p)),
                   SFleb (to_SF (fst p)) (to_SF (snd p)),
                   SFeqb (to_SF (fst p)) (to_SF (snd p)))) ops.
Proof. vm_compute. reflexivity. Qed.

(** * Further properties of the script *)

(** ** The order of numbers *)

Lemma leb_of_compare a b c :
  ncompare a b = Some c -> c <> Gt -> leb a b = true.
Proof. intros E N. unfold leb. rewrite E. destruct c; congruence. Qed.

Lemma leb_of_compare_rev a b c :
  ncompare a b = Some c -> c <> Lt -> leb b a = true.
Proof.
  intros E N. apply ncompare_antisym in E. unfold leb. rewrite E. destruct c; cbn; congruence.
Qed.

Lemma leb_not_nan a b : leb a b = true -> is_nan a = false /\ is_nan b = false.
Proof. destruct a, b; cbn; intros H; try discriminate H; split; reflexivity. Qed.

Lemma leb_false_nan a b : is_nan a = true \/ is_nan b = true -> leb a b = false.
Proof. intros [H|H]; destruct a, b; try discriminate H; reflexivity. Qed.

Lemma leb_to_Q x y :
  isFinite x = true -> isFinite y = true -> to_Q x <= to_Q y -> leb x y = true.
Proof. intros Fx Fy H. apply (leb_finite x y Fx Fy). exact H. Qed.

Lemma eqb_to_Q x y :
  isFinite x = true -> isFinite y = true -> to_Q x == to_Q y -> eqb x y = true.
Proof. intros Fx Fy H. apply (eqb_finite x y Fx Fy). exact H. Qed.

Lemma leb_transitive a b c : leb a b = true -> leb b c = true -> leb a c = true.
Proof.
  intros H1 H2.
  destruct (isFinite a) eqn:Fa, (isFinite b) eqn:Fb, (isFinite c) eqn:Fc;
    try (apply (leb_finite a c Fa Fc);
         apply (leb_finite a b Fa Fb) in H1; apply (leb_finite b c Fb Fc) in H2; lra);
    destruct a as [|[|]|sa|p], b as [|[|]|sb|q], c as [|[|]|sc|r];
    try discriminate; try reflexivity.
Qed.

Lemma leb_antisymmetric a b : leb a b = true -> leb b a = true -> eqb a b = true.
Proof.
  unfold leb, eqb. intros H1 H2. destruct (ncompare a b) as [c|] eqn:E; [|discriminate].
  rewrite (ncompare_antisym _ _ _ E) in H2. destruct c; cbn in *; congruence.
Qed.

Lemma eqb_leb a b : eqb a b = true -> leb a b = true /\ leb b a = true.
Proof.
  unfold leb, eqb. intros H. destruct (ncompare a b) as [c|] eqn:E; [|discriminate].
  rewrite (ncompare_antisym _ _ _ E). destruct c; try discriminate. split; reflexivity.
Qed.

Lemma eqb_same x : is_nan x = false -> eqb x x = true.
Proof. intros N. apply leb_antisymmetric; apply leb_refl; exact N. Qed.

Lemma eqb_leb_zero x : eqb x zero = true -> leb x zero = true.
Proof. unfold eqb, leb. destruct (ncompare x zero) as [[| |]|]; congruence. Qed.

Lemma ltb_not_leb x y : ltb x y = true -> leb y x = false.
Proof.
  unfold ltb, leb. intros H. destruct (ncompare x y) as [c|] eqn:E; [|discriminate H].
  rewrite (ncompare_antisym _ _ _ E). destruct c; try discriminate H. reflexivity.
Qed.

Lemma ltb_not_eqb x y : ltb x y = true -> eqb x y = false /\ eqb y x = false.
Proof.
  unfold ltb, eqb. intros H. destruct (ncompare x y) as [c|] eqn:E; [|discriminate H].
  rewrite (ncompare_antisym _ _ _ E). destruct c; try discriminate H. split; reflexivity.
Qed.

Lemma leb_neg_inf x : is_nan x = false -> leb (Inf true) x = true.
Proof. destruct x as [|[|]| |]; try discriminate; reflexivity. Qed.

Lemma leb_pos_inf x : is_nan x = false -> leb x (Inf false) = true.
Proof. destruct x as [|[|]| |]; try discriminate; reflexivity. Qed.

Lemma leb_pos_inf_inv y : leb (Inf false) y = true -> y = Inf false.
Proof. destruct y as [|[|]| |]; try discriminate; reflexivity. Qed.

Lemma leb_zero_sign_l s x : leb (Zero s) x = leb zero x.
Proof. destruct x; reflexivity. Qed.

Lemma leb_zero_sign_r s x : leb x (Zero s) = leb x zero.
Proof. destruct x; reflexivity. Qed.

(** ** [Math.max], [Math.min] and [clamp] *)

Lemma Math_max_spec a b :
  is_nan a = false -> is_nan b = false ->
  (Math_max a b = a \/ Math_max a b = b) /\
  leb a (Math_max a b) = true /\ leb b (Math_max a b) = true.
Proof.
  intros Na Nb. destruct (ncompare_total a b Na Nb) as [c E]. unfold Math_max. rewrite E.
  destruct c.
  - destruct (sign a); repeat split; auto;
      try (apply leb_refl; assumption);
      first [ apply (leb_of_compare _ _ _ E); discriminate
            | apply (leb_of_compare_rev _ _ _ E); discriminate ].
  - repeat split; auto; [apply (leb_of_compare _ _ _ E); discriminate | apply leb_refl; assumption].
  - repeat split; auto; [apply leb_refl; assumption | apply (leb_of_compare_rev _ _ _ E); discriminate].
Qed.

Lemma Math_min_spec a b :
  is_nan a = false -> is_nan b = false ->
  (Math_min a b = a \/ Math_min a b = b) /\
  leb (Math_min a b) a = true /\ leb (Math_min a b) b = true.
Proof.
  intros Na Nb. destruct (ncompare_total a b Na Nb) as [c E]. unfold Math_min. rewrite E.
  destruct c.
  - destruct (sign a); repeat split; auto;
      try (apply leb_refl; assumption);
      first [ apply (leb_of_compare _ _ _ E); discriminate
            | apply (leb_of_compare_rev _ _ _ E); discriminate ].
  - repeat split; auto; [apply leb_refl; assumption | apply (leb_of_compare _ _ _ E); discriminate].
  - repeat split; auto; [apply (leb_of_compare_rev _ _ _ E); discriminate | apply leb_refl; assumption].
Qed.

Lemma Math_max_nan a b : is_nan (Math_max a b) = is_nan a || is_nan b.
Proof.
  destruct (is_nan a) eqn:Na; [destruct a; try discriminate; reflexivity|].
  destruct (is_nan b) eqn:Nb; [destruct b; try discriminate; destruct a; reflexivity|].
  destruct (Math_max_spec a b Na Nb) as [[E|E] _]; rewrite E; assumption.
Qed.

Lemma Math_min_nan a b : is_nan (Math_min a b) = is_nan a || is_nan b.
Proof.
  destruct (is_nan a) eqn:Na; [destruct a; try discriminate; reflexivity|].
  destruct (is_nan b) eqn:Nb; [destruct b; try discriminate; destruct a; reflexivity|].
  destruct (Math_min_spec a b Na Nb) as [[E|E] _]; rewrite E; assumption.
Qed.

Lemma Math_min_mono c x y :
  is_nan c = false -> leb x y = true -> leb (Math_min c x) (Math_min c y) = true.
Proof.
  intros Nc H. destruct (leb_not_nan _ _ H) as [Nx Ny].
  destruct (Math_min_spec c x Nc Nx) as (_ & A & B).
  destruct (Math_min_spec c y Nc Ny) as ([E|E] & _); rewrite E;
    [exact A | exact (leb_transitive _ _ _ B H)].
Qed.

Lemma Math_max_mono c x y :
  is_nan c = false -> leb x y = true -> leb (Math_max c x) (Math_max c y) = true.
Proof.
  intros Nc H. destruct (leb_not_nan _ _ H) as [Nx Ny].
  destruct (Math_max_spec c y Nc Ny) as (_ & A & B).
  destruct (Math_max_spec c x Nc Nx) as ([E|E] & _); rewrite E;
    [exact A | exact (leb_transitive _ _ _ H B)].
Qed.

Lemma clamp_nan n lo hi :
  is_nan lo = false -> is_nan hi = false -> is_nan (clamp n lo hi) = is_nan n.
Proof.
  intros Nlo Nhi. unfold clamp. rewrite Math_max_nan, Math_min_nan, Nlo, Nhi. reflexivity.
Qed.

Lemma clamp_bounds n lo hi :
  leb lo hi = true -> is_nan n = false ->
  leb lo (clamp n lo hi) = true /\ leb (clamp n lo hi) hi = true.
Proof.
  intros H Nn. destruct (leb_not_nan _ _ H) as [Nlo Nhi]. unfold clamp.
  destruct (Math_min_spec hi n Nhi Nn) as (Em & M1 & M2).
  assert (Nm : is_nan (Math_min hi n) = false) by (rewrite Math_min_nan, Nhi, Nn; reflexivity).
  destruct (Math_max_spec lo (Math_min hi n) Nlo Nm) as (Ex & X1 & X2).
  split; [exact X1|]. destruct Ex as [E|E]; rewrite E; assumption.
Qed.

(** X1.  For bounds in order, [clamp(n, lo, hi)] is NaN exactly when [n] is;
    otherwise it lies between the bounds; and it is [n] itself exactly when
    [n] lies between them. *)
Theorem clamp_between n lo hi :
  leb lo hi = true ->
  is_nan (clamp n lo hi) = is_nan n /\
  leb lo (clamp n lo hi) && leb (clamp n lo hi) hi = negb (is_nan n) /\
  eqb (clamp n lo hi) n = leb lo n && leb n hi.
Proof.
  intros H. destruct (leb_not_nan _ _ H) as [Nlo Nhi].
  assert (N : is_nan (clamp n lo hi) = is_nan n) by (apply clamp_nan; assumption).
  split; [exact N|].
  destruct (is_nan n) eqn:Nn.
  - destruct n; try discriminate Nn.
    destruct (clamp NaN lo hi); try discriminate N.
    rewrite !(leb_false_nan lo NaN) by (right; reflexivity). split; reflexivity.
  - destruct (clamp_bounds n lo hi H Nn) as [X1 U]. unfold clamp in *.
    destruct (Math_min_spec hi n Nhi Nn) as (Em & M1 & M2).
    assert (Nm : is_nan (Math_min hi n) = false) by (rewrite Math_min_nan, Nhi, Nn; reflexivity).
    destruct (Math_max_spec lo (Math_min hi n) Nlo Nm) as (Ex & _ & X2).
    split; [rewrite X1, U; reflexivity|].
    destruct (leb lo n) eqn:L; [destruct (leb n hi) eqn:V|]; cbn [andb].
    + apply leb_antisymmetric.
      * destruct Ex as [E|E]; rewrite E; [exact L | exact M2].
      * apply leb_transitive with (Math_min hi n); [|exact X2].
        destruct Em as [E|E]; rewrite E; [exact V | apply leb_refl; exact Nn].
    + destruct (eqb _ n) eqn:Q; [|reflexivity].
      apply eqb_leb in Q. destruct Q as [_ Q].
      rewrite (leb_transitive _ _ _ Q U) in V. discriminate V.
    + destruct (eqb _ n) eqn:Q; [|reflexivity].
      apply eqb_leb in Q. destruct Q as [Q _].
      rewrite (leb_transitive _ _ _ X1 Q) in L. discriminate L.
Qed.

Lemma clamp_between_witness :
  is_nan (clamp (lit 150) zero hundred) = is_nan (lit 150) /\
  leb zero (clamp (lit 150) zero hundred) && leb (clamp (lit 150) zero hundred) hundred
  = negb (is_nan (lit 150)) /\
  eqb (clamp (lit 150) zero hundred) (lit 150) = leb zero (lit 150) && leb (lit 150) hundred.
Proof. apply (clamp_between (lit 150) zero hundred). reflexivity. Defined.

(** ** Operations are monotone *)

Lemma of_Q_class e :
  (RN e == 0 /\ exists s, of_Q e = Zero s) \/
  (pow2 1024 <= RN e /\ of_Q e = Inf false) \/
  (RN e <= - pow2 1024 /\ of_Q e = Inf true) \/
  (- pow2 1024 < RN e /\ RN e < pow2 1024 /\ of_Q e = Fin (RN e)).
Proof.
  pose proof (pow2_pos 1024) as B. unfold of_Q.
  destruct (Qeq_bool (RN e) 0) eqn:Z.
  { left. apply Qeq_bool_iff in Z. split; [exact Z | eexists; reflexivity]. }
  apply Qeq_bool_neq in Z. right.
  destruct (Qle_bool (pow2 1024) (Qabs (RN e))) eqn:O.
  - apply Qle_bool_iff in O. destruct (Qlt_le_dec e 0) as [L|L].
    + right. left. rewrite (Qneg_true _ L). split; [|reflexivity].
      pose proof (RN_nonpos e (Qlt_le_weak _ _ L)) as R.
      rewrite Qabs_neg in O by exact R. lra.
    + left. rewrite (Qneg_false _ L). split; [|reflexivity].
      pose proof (RN_nonneg e L) as R. rewrite Qabs_pos in O by exact R. exact O.
  - right. right.
    assert (O' : ~ pow2 1024 <= Qabs (RN e)).
    { intros C. apply Qle_bool_iff in C. congruence. }
    repeat split; apply Qnot_le_lt; intros C; apply O'.
    + rewrite Qabs_neg by lra. lra.
    + rewrite Qabs_pos by lra. lra.
Qed.

Lemma of_Q_mono e1 e2 : e1 <= e2 -> leb (of_Q e1) (of_Q e2) = true.
Proof.
  intros H. pose proof (RN_monotone _ _ H) as M. pose proof (pow2_pos 1024) as B.
  destruct (of_Q_class e1) as [[R1 [s1 E1]]|[[R1 E1]|[[R1 E1]|(L1 & U1 & E1)]]];
    destruct (of_Q_class e2) as [[R2 [s2 E2]]|[[R2 E2]|[[R2 E2]|(L2 & U2 & E2)]]];
    rewrite E1, E2; try reflexivity; try (exfalso; lra);
    try (apply leb_to_Q; [reflexivity | reflexivity | cbn [to_Q]; lra]).
Qed.

Lemma of_Q_zero e : e == 0 -> of_Q e = zero.
Proof. intros H. rewrite (of_Q_comp e 0 H). reflexivity. Qed.

(** The result of an operation on finite numbers whose exact value is [e]. *)
Lemma res_mono s1 s2 e1 e2 :
  e1 <= e2 ->
  leb (if Qeq_bool e1 0 then Zero s1 else of_Q e1)
      (if Qeq_bool e2 0 then Zero s2 else of_Q e2) = true.
Proof.
  intros H. pose proof (of_Q_mono e1 e2 H) as M.
  destruct (Qeq_bool e1 0) eqn:Z1; destruct (Qeq_bool e2 0) eqn:Z2;
    try (apply Qeq_bool_iff in Z1; rewrite (of_Q_zero e1 Z1) in M);
    try (apply Qeq_bool_iff in Z2; rewrite (of_Q_zero e2 Z2) in M);
    rewrite ?leb_zero_sign_l, ?leb_zero_sign_r; exact M.
Qed.

Lemma res_not_nan s e : is_nan (if Qeq_bool e 0 then Zero s else of_Q e) = false.
Proof. destruct (Qeq_bool e 0); [reflexivity | apply of_Q_not_nan]. Qed.

Lemma mono_lift (f : number -> number) :
  (forall s, f (Inf s) = Inf s) ->
  (forall x, isFinite x = true -> is_nan (f x) = false) ->
  (forall x y, isFinite x = true -> isFinite y = true -> to_Q x <= to_Q y ->
               leb (f x) (f y) = true) ->
  forall x y, leb x y = true -> leb (f x) (f y) = true.
Proof.
  intros HI HN HF x y H.
  destruct (isFinite x) eqn:Fx; [destruct (isFinite y) eqn:Fy|].
  - apply HF; try assumption. apply (leb_finite x y Fx Fy). exact H.
  - destruct y as [|[|]| |]; try discriminate Fy.
    + destruct x; discriminate.
    + destruct x; discriminate.
    + rewrite HI. apply leb_pos_inf. apply HN. exact Fx.
  - destruct x as [|[|]| |]; try discriminate Fx.
    + discriminate H.
    + rewrite HI. apply leb_neg_inf.
      destruct y as [|sy|sy|q]; [discriminate H | rewrite HI; reflexivity | |];
        apply HN; reflexivity.
    + destruct y as [|[|]| |]; try discriminate H. rewrite HI. reflexivity.
Qed.

Lemma mono_res (f : number -> number) (g : Q -> Q) :
  (forall s, f (Inf s) = Inf s) ->
  (forall x, isFinite x = true ->
     exists s, f x = if Qeq_bool (g (to_Q x)) 0 then Zero s else of_Q (g (to_Q x))) ->
  (forall p q, p <= q -> g p <= g q) ->
  forall x y, leb x y = true -> leb (f x) (f y) = true.
Proof.
  intros HI HR HG. apply mono_lift; [exact HI | |].
  - intros x Fx. destruct (HR x Fx) as [s E]. rewrite E. apply res_not_nan.
  - intros x y Fx Fy H. destruct (HR x Fx) as [s E]. destruct (HR y Fy) as [s' E'].
    rewrite E, E'. apply res_mono. apply HG. exact H.
Qed.

Lemma fadd_EPSILON_mono x y :
  leb x y = true -> leb (fadd x EPSILON) (fadd y EPSILON) = true.
Proof.
  apply (mono_res (fun x => fadd x EPSILON) (fun q => q + eps)).
  - intros s. reflexivity.
  - intros [|s|s|p] F; try discriminate F; exists false; [vm_compute|]; reflexivity.
  - intros p q H. lra.
Qed.

Lemma fmul_hundred_mono x y :
  leb x y = true -> leb (fmul x hundred) (fmul y hundred) = true.
Proof.
  apply (mono_res (fun x => fmul x hundred) (fun q => q * 100)).
  - intros [|]; reflexivity.
  - intros [|s|s|p] F; try discriminate F; eexists; reflexivity.
  - intros p q H. lra.
Qed.

Lemma fdiv_pos_mono d x y :
  0 < d -> leb x y = true -> leb (fdiv x (Fin d)) (fdiv y (Fin d)) = true.
Proof.
  intros D. apply (mono_res (fun x => fdiv x (Fin d)) (fun q => q / d)).
  - intros s. cbn. rewrite (Qneg_false d) by lra. destruct s; reflexivity.
  - intros [|s|s|p] F; try discriminate F.
    + eexists. cbn [to_Q fdiv].
      assert (E : Qeq_bool (0 / d) 0 = true) by (apply Qeq_bool_iff; field; lra).
      rewrite E. reflexivity.
    + eexists. reflexivity.
  - intros p q H. unfold Qdiv. apply Qmult_le_compat_r; [exact H|].
    apply Qlt_le_weak, Qinv_lt_0_compat, D.
Qed.

Lemma Math_round_mono x y :
  leb x y = true -> leb (Math_round x) (Math_round y) = true.
Proof.
  apply (mono_lift Math_round).
  - reflexivity.
  - intros z F. destruct (Math_round_value z F) as [F' _].
    destruct (Math_round z); try discriminate; reflexivity.
  - intros a b Fa Fb H.
    destruct (Math_round_value a Fa) as [Fa' Va]. destruct (Math_round_value b Fb) as [Fb' Vb].
    apply leb_to_Q; try assumption. rewrite Va, Vb. rewrite <- Zle_Qle.
    apply Qfloor_resp_le. lra.
Qed.

(** ** [round2]: order and accuracy *)

(** X2.  [round2] keeps the order of any two numbers, infinities and
    amounts that overflow included: if [x <= y] then
    [round2(x) <= round2(y)]. *)
Theorem round2_monotone x y : leb x y = true -> leb (round2 x) (round2 y) = true.
Proof.
  intros H. unfold round2.
  apply (fdiv_pos_mono 100); [reflexivity|].
  apply Math_round_mono, fmul_hundred_mono, fadd_EPSILON_mono, H.
Qed.

Lemma round2_monotone_witness :
  leb (round2 (lit (1004 # 1000))) (round2 (lit (1005 # 1000))) = true.
Proof.
  apply (round2_monotone (lit (1004 # 1000)) (lit (1005 # 1000))). vm_compute. reflexivity.
Defined.



(** ** What remains, and the progress *)

Lemma round2_nan_iff x : is_nan (round2 x) = is_nan x.
Proof.
  destruct (is_nan x) eqn:N; [destruct x; try discriminate N; reflexivity|].
  apply round2_not_nan. exact N.
Qed.

(** X4.  [computeRemaining] never returns a negative amount, whatever its
    arguments, and it returns NaN exactly when the difference
    [target - saved] is NaN. *)
Theorem computeRemaining_never_negative t s :
  ltb (computeRemaining t s) zero = false /\
  is_nan (computeRemaining t s) = is_nan (fsub t s).
Proof.
  split.
  - destruct (computeRemaining_cases t s) as [E|E]; [rewrite E; reflexivity|].
    apply nonneg_leb in E. unfold leb in E. unfold ltb.
    destruct (ncompare zero (computeRemaining t s)) as [c|] eqn:C; [|discriminate E].
    rewrite (ncompare_antisym _ _ _ C). destruct c; try discriminate E; reflexivity.
  - unfold computeRemaining. rewrite round2_nan_iff, Math_max_nan. reflexivity.
Qed.

Lemma positive_target t :
  isFinite t = true -> leb t zero = false -> exists d, t = Fin d /\ 0 < d.
Proof.
  intros F L. destruct t as [|s|s|d]; try discriminate.
  exists d. split; [reflexivity|]. apply Qnot_le_lt. intros C.
  assert (K : leb (Fin d) zero = true) by (apply leb_to_Q; [reflexivity | reflexivity | exact C]).
  congruence.
Qed.

Lemma ratio_not_nan t s :
  isFinite t = true -> leb t zero = false -> isFinite s = true ->
  is_nan (fmul (fdiv s t) hundred) = false.
Proof.
  intros Ft L Fs. destruct (positive_target t Ft L) as (d & -> & D).
  assert (N : is_nan (fdiv s (Fin d)) = false).
  { destruct s as [|b|b|p]; try discriminate Fs; cbn; [reflexivity|].
    apply res_not_nan. }
  destruct (fdiv s (Fin d)) as [|b|b|p]; try discriminate N; cbn; try reflexivity.
  apply res_not_nan.
Qed.

(** X5.  The progress is a number from 0 to 100 unless it is NaN, and it is
    never NaN when the target and the savings are both finite. *)
Theorem computeProgressPct_range t s :
  let pct := computeProgressPct t s in
  leb zero pct && leb pct hundred = negb (is_nan pct) /\
  isFinite t && isFinite s && is_nan pct = false.
Proof.
  cbn zeta. unfold computeProgressPct. destruct (leb t zero) eqn:L.
  - split; [reflexivity|]. apply andb_false_r.
  - set (v := fmul (fdiv s t) hundred).
    assert (N : is_nan (clamp v zero hundred) = is_nan v) by (apply clamp_nan; reflexivity).
    split.
    + rewrite N. destruct (is_nan v) eqn:Nv.
      * destruct (clamp v zero hundred); try discriminate N. reflexivity.
      * destruct (clamp_bounds v zero hundred (eq_refl true) Nv) as [A B].
        rewrite A, B. reflexivity.
    + destruct (isFinite t) eqn:Ft; [|reflexivity].
      destruct (isFinite s) eqn:Fs; [|reflexivity].
      rewrite N. cbn [andb]. apply ratio_not_nan; assumption.
Qed.

(** X6.  For a finite target, more savings never show less progress. *)
Theorem computeProgressPct_monotone t s1 s2 :
  isFinite t = true -> leb s1 s2 = true ->
  leb (computeProgressPct t s1) (computeProgressPct t s2) = true.
Proof.
  intros Ft H. unfold computeProgressPct. destruct (leb t zero) eqn:L; [reflexivity|].
  destruct (positive_target t Ft L) as (d & -> & D). unfold clamp.
  apply Math_max_mono; [reflexivity|]. apply Math_min_mono; [reflexivity|].
  apply fmul_hundred_mono, fdiv_pos_mono; assumption.
Qed.

Lemma computeProgressPct_monotone_witness :
  leb (computeProgressPct (lit 10000) (lit 4000))
      (computeProgressPct (lit 10000) (lit 5000)) = true.
Proof.
  apply (computeProgressPct_monotone (lit 10000) (lit 4000) (lit 5000));
    vm_compute; reflexivity.
Defined.

(** ** [escapeHtml] *)

Lemma string_app_assoc (a b c : string) :
  String.append (String.append a b) c = String.append a (String.append b c).
Proof. induction a as [|x a IH]; [reflexivity|]. cbn [String.append]. rewrite IH. reflexivity. Qed.

Lemma replaceAll_app c by_ s t :
  replaceAll c by_ (String.append s t)
  = String.append (replaceAll c by_ s) (replaceAll c by_ t).
Proof.
  induction s as [|a s IH]; [reflexivity|]. cbn [String.append replaceAll].
  destruct (Ascii.eqb a c).
  - rewrite IH, string_app_assoc. reflexivity.
  - cbn [String.append]. rewrite IH. reflexivity.
Qed.

Lemma escapeHtml_app s t :
  escapeHtml (String.append s t) = String.append (escapeHtml s) (escapeHtml t).
Proof. unfold escapeHtml. rewrite !replaceAll_app. reflexivity. Qed.

Lemma escapeHtml_char a : escapeHtml (String a EmptyString) = escape_char a.
Proof.
  unfold escapeHtml, escape_char. cbn [replaceAll].
  destruct (Ascii.eqb_spec a "&") as [->|N1]; [reflexivity|]. cbn [replaceAll].
  destruct (Ascii.eqb_spec a "<") as [->|N2]; [reflexivity|]. cbn [replaceAll].
  destruct (Ascii.eqb_spec a ">") as [->|N3]; [reflexivity|]. cbn [replaceAll].
  destruct (Ascii.eqb_spec a dquote) as [->|N4]; [reflexivity|]. cbn [replaceAll].
  destruct (Ascii.eqb_spec a "'") as [->|N5]; reflexivity.
Qed.

Lemma escapeHtml_String a s :
  escapeHtml (String a s) = String.append (escape_char a) (escapeHtml s).
Proof.
  change (String a s) with (String.append (String a EmptyString) s).
  rewrite escapeHtml_app, escapeHtml_char. reflexivity.
Qed.

(** X7.  The five replacements made one after the other amount to one pass
    over the text in which each character is replaced on its own: an
    ampersand that an earlier replacement wrote is never escaped again. *)
Theorem escapeHtml_one_pass s : escapeHtml s = escape_each s.
Proof.
  induction s as [|a s IH]; [reflexivity|].
  rewrite escapeHtml_String, IH. reflexivity.
Qed.

Lemma string_forall_app p s t :
  string_forall p (String.append s t) = string_forall p s && string_forall p t.
Proof.
  induction s as [|a s IH]; [reflexivity|]. cbn [String.append string_forall].
  rewrite IH, andb_assoc. reflexivity.
Qed.

Lemma escape_char_safe a : string_forall (fun c => negb (is_markup c)) (escape_char a) = true.
Proof.
  unfold escape_char.
  destruct (Ascii.eqb a "&"); [reflexivity|].
  destruct (Ascii.eqb a "<") eqn:E1; [reflexivity|].
  destruct (Ascii.eqb a ">") eqn:E2; [reflexivity|].
  destruct (Ascii.eqb a dquote) eqn:E3; [reflexivity|].
  destruct (Ascii.eqb a "'") eqn:E4; [reflexivity|].
  cbn [string_forall]. unfold is_markup. rewrite E1, E2, E3, E4. reflexivity.
Qed.

(** X8.  Whatever the text, the escaped text holds none of [<], [>], the
    double quote and the single quote. *)
Theorem escapeHtml_no_markup s :
  string_forall (fun c => negb (is_markup c)) (escapeHtml s) = true.
Proof.
  induction s as [|a s IH]; [reflexivity|].
  rewrite escapeHtml_String, string_forall_app, escape_char_safe, IH. reflexivity.
Qed.

Lemma escape_char_cases a :
  (escape_char a = String a EmptyString /\ Ascii.eqb a "&" = false) \/
  escape_char a = "&amp;"%string \/ escape_char a = "&lt;"%string \/
  escape_char a = "&gt;"%string \/ escape_char a = "&quot;"%string \/
  escape_char a = "&#039;"%string.
Proof.
  unfold escape_char.
  destruct (Ascii.eqb a "&"); [auto|].
  destruct (Ascii.eqb a "<"); [auto|].
  destruct (Ascii.eqb a ">"); [auto|].
  destruct (Ascii.eqb a dquote); [auto 10|].
  destruct (Ascii.eqb a "'"); [auto 10|]. auto.
Qed.

(** X9.  In the escaped text every ampersand opens one of the five entities
    [&amp;], [&lt;], [&gt;], [&quot;] and [&#039;]. *)
Theorem escapeHtml_entities s : entities_only (escapeHtml s) = true.
Proof.
  induction s as [|a s IH]; [reflexivity|]. rewrite escapeHtml_String.
  destruct (escape_char_cases a) as [[E N]|[E|[E|[E|[E|E]]]]]; rewrite E.
  - cbn [String.append entities_only]. rewrite N. exact IH.
  - cbn. rewrite IH. destruct (escapeHtml s); reflexivity.
  - cbn. rewrite IH. destruct (escapeHtml s); reflexivity.
  - cbn. rewrite IH. destruct (escapeHtml s); reflexivity.
  - cbn. rewrite IH. destruct (escapeHtml s); reflexivity.
  - cbn. rewrite IH. destruct (escapeHtml s); reflexivity.
Qed.

Lemma escape_char_spec a :
  (a = "&"%char \/ a = "<"%char \/ a = ">"%char \/ a = dquote \/ a = "'"%char) \/
  (escape_char a = String a EmptyString /\ a <> "&"%char).
Proof.
  unfold escape_char.
  destruct (Ascii.eqb_spec a "&"); [auto|].
  destruct (Ascii.eqb_spec a "<"); [auto|].
  destruct (Ascii.eqb_spec a ">"); [auto|].
  destruct (Ascii.eqb_spec a dquote); [auto 10|].
  destruct (Ascii.eqb_spec a "'"); [auto 10|]. auto.
Qed.

Lemma escape_char_prefix_free a b x y :
  String.append (escape_char a) x = String.append (escape_char b) y -> a = b /\ x = y.
Proof.
  intros H.
  destruct (escape_char_spec a) as [[E|[E|[E|[E|E]]]]|[Ea Na]];
    destruct (escape_char_spec b) as [[F|[F|[F|[F|F]]]]|[Eb Nb]];
    try subst a; try subst b;
    try rewrite Ea in H; try rewrite Eb in H; cbn in H;
    try discriminate H;
    try (injection H as H; split; [reflexivity | exact H]);
    try (injection H as H1 H2; subst; congruence).
  injection H as H1 H2. split; assumption.
Qed.

Lemma escapeHtml_injective s t : escapeHtml s = escapeHtml t -> s = t.
Proof.
  revert t. induction s as [|a s IH]; intros [|b t] H.
  - reflexivity.
  - rewrite escapeHtml_String in H. exfalso.
    destruct (escape_char_cases b) as [[E N]|[E|[E|[E|[E|E]]]]]; rewrite E in H; discriminate H.
  - rewrite escapeHtml_String in H. exfalso.
    destruct (escape_char_cases a) as [[E N]|[E|[E|[E|[E|E]]]]]; rewrite E in H; discriminate H.
  - rewrite !escapeHtml_String in H.
    destruct (escape_char_prefix_free _ _ _ _ H) as [-> K]. f_equal. apply IH. exact K.
Qed.

(** X10.  Escaping loses nothing: two texts have the same escaped text
    exactly when they are the same text. *)
Theorem escapeHtml_distinct s t :
  String.eqb (escapeHtml s) (escapeHtml t) = String.eqb s t.
Proof.
  destruct (String.eqb_spec s t) as [->|N]; [apply String.eqb_refl|].
  destruct (String.eqb_spec (escapeHtml s) (escapeHtml t)) as [E|E]; [|reflexivity].
  elim N. apply escapeHtml_injective. exact E.
Qed.

(** ** Storage: what is written can be read back *)



Lemma json_of_number_finite x :
  isFinite x = true ->
  exists y, json_of_number x = JNum y /\ isFinite y = true /\ eqb y x = true.
Proof.
  destruct x as [|s|s|q]; try discriminate; intros _.
  - exists (Zero false). repeat split.
  - exists (Fin q). repeat split. apply eqb_same. reflexivity.
Qed.

Lemma json_of_number_not_finite x : isFinite x = false -> json_of_number x = JNull.
Proof. destruct x; try discriminate; reflexivity. Qed.

Lemma createdAt_value z :
  (Z.abs z <= 2 ^ 53)%Z ->
  isFinite (lit (inject_Z z)) = true /\ to_Q (lit (inject_Z z)) == inject_Z z.
Proof.
  intros H.
  assert (B : Qabs (inject_Z z) <= pow2 53).
  { rewrite pow2_Z by lia.
    apply Qabs_case; intros _; [|rewrite <- inject_Z_opp]; rewrite <- Zle_Qle; lia. }
  destruct (lit_value (inject_Z z) 53 ltac:(lia) B) as [F V]. split; [exact F|].
  rewrite V. apply RN_id. exists z, 0%Z. repeat split; [exact H | lia |].
  change (pow2 0) with 1. ring.
Qed.

(** X12.  A goal written to storage reads back with its id, name and
    description, and with a creation time of the same value when that is an
    integer of at most 53 bits; its target and savings read back as equal
    numbers when they are finite, and the object read is a goal record
    exactly when both are: NaN and the infinities are written as [null]. *)
Theorem saved_goal_reads_back g :
  (Z.abs (createdAt g) <= 2 ^ 53)%Z ->
  let j := json_of_goal g in
  is_goal_record j = isFinite (target g) && isFinite (saved g) /\
  as_string (prop "id" j) = Some (id g) /\
  as_string (prop "name" j) = Some (name g) /\
  as_string (prop "desc" j) = Some (desc g) /\
  (isFinite (target g) = true ->
   exists t, as_number (prop "target" j) = Some t /\ eqb t (target g) = true) /\
  (isFinite (saved g) = true ->
   exists s, as_number (prop "saved" j) = Some s /\ eqb s (saved g) = true) /\
  (exists c, as_number (prop "createdAt" j) = Some c /\ to_Q c == inject_Z (createdAt g)).
Proof.
  intros H j. destruct (createdAt_value _ H) as [F V].
  assert (C : exists c, json_of_number (lit (inject_Z (createdAt g))) = JNum c /\
                        to_Q c == inject_Z (createdAt g)).
  { destruct (json_of_number_finite _ F) as (c & E & Fc & Q). exists c. split; [exact E|].
    rewrite <- V. apply (eqb_finite c _ Fc F). exact Q. }
  destruct C as (c & Ec & Vc).
  subst j. unfold is_goal_record, json_of_goal.
  cbn [prop get_field String.eqb Ascii.eqb Bool.eqb as_string].
  cbn. rewrite Ec. cbn.
  repeat split.
  - destruct (isFinite (target g)) eqn:Ft.
    + destruct (json_of_number_finite _ Ft) as (t & Et & _). rewrite Et. cbn.
      destruct (isFinite (saved g)) eqn:Fs.
      * destruct (json_of_number_finite _ Fs) as (s & Es & _). rewrite Es. reflexivity.
      * rewrite (json_of_number_not_finite _ Fs). reflexivity.
    + rewrite (json_of_number_not_finite _ Ft). reflexivity.
  - intros Ft. destruct (json_of_number_finite _ Ft) as (t & Et & _ & Q).
    exists t. rewrite Et. split; [reflexivity | exact Q].
  - intros Fs. destruct (json_of_number_finite _ Fs) as (s & Es & _ & Q).
    exists s. rewrite Es. split; [reflexivity | exact Q].
  - exists c. split; [reflexivity | exact Vc].
Qed.

Lemma saved_goal_reads_back_witness :
  is_goal_record (json_of_goal bike) = isFinite (target bike) && isFinite (saved bike).
Proof.
  assert (H : (Z.abs (createdAt bike) <= 2 ^ 53)%Z) by (cbn; lia).
  exact (proj1 (saved_goal_reads_back bike H)).
Defined.

(** ** Handlers: what is drawn and what is stored *)

Lemma synced_saveToStorage st : synced (saveToStorage st).
Proof. reflexivity. Qed.

Lemma settled_render st st' : settled st (render st').
Proof. cbn. repeat split. Qed.

(** X13.  Every handler either leaves the state untouched, signalling
    nothing or one message, or changes it and draws the page once; the page
    drawn then shows the preferences, the summary and the cards of the new
    state, and the new state is the one in storage.  No handler both
    signals an error and changes the state. *)
Theorem perform_settles st a :
  step st a = fst (perform st a) /\ settled st (perform st a).
Proof.
  split; [destruct a; reflexivity|].
  destruct a as [uid now nm ds tg|i value|i input|i| |]; unfold perform.
  - unfold submitAddGoal. destruct (trim nm); [reflexivity|].
    destruct (negb _ || _); [reflexivity | apply settled_render].
  - unfold submitAddSavings. destruct (negb _ || _); [reflexivity|].
    unfold addSavings. destruct (find_goal _ _); [|reflexivity].
    destruct (negb _); [reflexivity|].
    destruct (gtb _ _); [reflexivity | apply settled_render].
  - unfold editTarget. destruct (find_goal _ _); [|reflexivity].
    destruct input; [|reflexivity].
    destruct (negb _ || _); [reflexivity | apply settled_render].
  - apply settled_render.
  - apply settled_render.
  - apply settled_render.
Qed.

Lemma step_synced st a : step st a = st \/ synced (step st a).
Proof.
  destruct a as [uid now nm ds tg|i value|i input|i| |]; unfold step.
  - unfold submitAddGoal. destruct (trim nm); [left; reflexivity|].
    destruct (negb _ || _); [left; reflexivity | right; apply synced_saveToStorage].
  - unfold submitAddSavings. destruct (negb _ || _); [left; reflexivity|].
    unfold addSavings. destruct (find_goal _ _); [|left; reflexivity].
    destruct (negb _); [left; reflexivity|].
    destruct (gtb _ _); [left; reflexivity | right; apply synced_saveToStorage].
  - unfold editTarget. destruct (find_goal _ _); [|left; reflexivity].
    destruct input; [|left; reflexivity].
    destruct (negb _ || _); [left; reflexivity | right; apply synced_saveToStorage].
  - right. apply synced_saveToStorage.
  - right. apply synced_saveToStorage.
  - right. apply synced_saveToStorage.
Qed.

Lemma run_keeps_synced acts st : synced st -> synced (run acts st).
Proof.
  revert st. induction acts as [|a acts IH]; intros st H; [exact H|].
  cbn. apply IH. destruct (step_synced st a) as [E|E]; [rewrite E; exact H | exact E].
Qed.

(** X14.  After any sequence of actions, either nothing has changed at all
    or storage holds exactly the goals and preferences of the current
    state: no change is ever left unwritten. *)
Theorem actions_write_through acts st :
  run acts st = st \/ synced (run acts st).
Proof.
  revert st. induction acts as [|a acts IH]; intros st; [left; reflexivity|].
  cbn [run fold_left]. fold (run acts (step st a)).
  destruct (step_synced st a) as [E|E].
  - rewrite E. apply IH.
  - right. apply run_keeps_synced. exact E.
Qed.

(** ** The grid *)

Lemma insert_newest_perm g l : Permutation (insert_newest g l) (g :: l).
Proof.
  induction l as [|h t IH]; [apply Permutation_refl|]. cbn.
  destruct (createdAt h <=? createdAt g)%Z; [apply Permutation_refl|].
  apply Permutation_trans with (h :: g :: t); [apply perm_skip; exact IH | apply perm_swap].
Qed.

Lemma newest_first_perm gs : Permutation (newest_first gs) gs.
Proof.
  induction gs as [|g gs IH]; [apply perm_nil|]. cbn.
  apply Permutation_trans with (g :: newest_first gs);
    [apply insert_newest_perm | apply perm_skip; exact IH].
Qed.

Lemma insert_newest_sorted g l :
  StronglySorted newer_or_same l -> StronglySorted newer_or_same (insert_newest g l).
Proof.
  induction 1 as [|h t S IH F]; cbn.
  - constructor; constructor.
  - destruct (createdAt h <=? createdAt g)%Z eqn:E.
    + apply Z.leb_le in E. constructor; [constructor; assumption|].
      constructor; [exact E|].
      apply Forall_impl with (P := newer_or_same h); [|exact F].
      unfold newer_or_same. intros b B. lia.
    + apply Z.leb_gt in E. constructor; [exact IH|].
      apply (Permutation_Forall (Permutation_sym (insert_newest_perm g t))).
      constructor; [unfold newer_or_same; lia | exact F].
Qed.

Lemma newest_first_sorted gs : StronglySorted newer_or_same (newest_first gs).
Proof.
  induction gs as [|g gs IH]; [constructor|]. cbn. apply insert_newest_sorted. exact IH.
Qed.

Lemma filter_insert_newest t g l :
  filter (made_at t) (insert_newest g l) = filter (made_at t) (g :: l).
Proof.
  induction l as [|h r IH]; [reflexivity|]. cbn [insert_newest].
  destruct (createdAt h <=? createdAt g)%Z eqn:E; [reflexivity|].
  apply Z.leb_gt in E. cbn [filter] in *. rewrite IH.
  unfold made_at. destruct (createdAt g =? t)%Z eqn:G; [|reflexivity].
  apply Z.eqb_eq in G.
  destruct (createdAt h =? t)%Z eqn:K; [apply Z.eqb_eq in K; lia | reflexivity].
Qed.

Lemma newest_first_stable t gs :
  filter (made_at t) (newest_first gs) = filter (made_at t) gs.
Proof.
  induction gs as [|g gs IH]; [reflexivity|]. cbn [newest_first fold_right].
  rewrite filter_insert_newest. fold (newest_first gs). cbn [filter]. rewrite IH. reflexivity.
Qed.

(** X15.  The grid has one card for every goal and no other; the cards run
    from the newest goal to the oldest; goals made at the same time keep
    the order they have in the list; and each card is computed from its
    goal alone. *)
Theorem renderGrid_newest_first gs :
  let shown := map card_goal (renderGrid gs) in
  map card_of shown = renderGrid gs /\
  Permutation shown gs /\
  StronglySorted newer_or_same shown /\
  (forall t, filter (made_at t) shown = filter (made_at t) gs).
Proof.
  assert (E : map card_goal (renderGrid gs) = newest_first gs).
  { unfold renderGrid. rewrite map_map. cbn. apply map_id. }
  cbn zeta. rewrite E. repeat split.
  - apply newest_first_perm.
  - apply newest_first_sorted.
  - intros t. apply newest_first_stable.
Qed.

(** *** Amounts in cents on the card *)

Lemma cents_value_eq k x y : cents_value k x -> cents_value k y -> eqb x y = true.
Proof.
  intros [Fx Vx] [Fy Vy]. apply (eqb_finite x y Fx Fy). rewrite Vx, Vy. reflexivity.
Qed.

Lemma cents_value_lt k1 k2 x y :
  (Z.abs k1 <= K43)%Z -> (k1 < k2)%Z -> cents_value k1 x -> cents_value k2 y ->
  ltb x y = true.
Proof.
  intros B L [Fx Vx] [Fy Vy]. apply (ltb_finite x y Fx Fy). rewrite Vx, Vy.
  apply RN_cents_lt; assumption.
Qed.

Lemma cents_value_round2_again k x :
  (Z.abs k <= K43)%Z -> cents_value k x -> cents_value k (round2 x).
Proof.
  intros B V. destruct (cents_value_bounds k x B V) as (R & D & _).
  apply round2_near; [exact (proj1 V) | exact R | exact B |].
  apply Qle_trans with (1 # 2048); [exact D | discriminate].
Qed.

(** X16.  For a goal kept in cents below [2 ^ 43], the card says "Goal
    Achieved" exactly when the savings equal a target above zero. *)
Theorem card_achieved_iff_full g :
  well_kept g ->
  card_achieved (card_of g) = eqb (saved g) (target g) && gtb (target g) zero.
Proof.
  intros (kt & ks & O & B & T & S). unfold card_of. cbn [card_achieved]. f_equal.
  pose proof (computeRemaining_cents kt ks _ _ O B T S) as R.
  destruct (Z.eq_dec ks kt) as [E|E].
  - subst ks. rewrite (cents_value_eq kt _ _ S T).
    apply eqb_leb_zero. replace (kt - kt)%Z with 0%Z in R by lia.
    apply (cents_value_eq 0); [exact R | exact cents_value_zero].
  - assert (L1 : ltb zero (computeRemaining (target g) (saved g)) = true).
    { apply (cents_value_lt 0 (kt - ks)); [unfold K43; lia | lia | exact cents_value_zero | exact R]. }
    assert (L2 : ltb (saved g) (target g) = true).
    { apply (cents_value_lt ks kt); [lia | lia | exact S | exact T]. }
    rewrite (ltb_not_leb _ _ L1). destruct (ltb_not_eqb _ _ L2) as [Q _]. rewrite Q. reflexivity.
Qed.

Lemma well_kept_bike : well_kept bike.
Proof.
  exists 1000000%Z, 400000%Z. split; [lia|]. split; [unfold K43; lia|].
  split; (split; [reflexivity | vm_compute; reflexivity]).
Qed.

Lemma card_achieved_iff_full_witness :
  card_achieved (card_of bike) = eqb (saved bike) (target bike) && gtb (target bike) zero.
Proof. apply (card_achieved_iff_full bike). exact well_kept_bike. Defined.

(** ** The summary of goals that are within their targets *)

Lemma binary64_of_Q e : binary64 (of_Q e).
Proof.
  destruct (of_Q_class e) as [[_ [s E]]|[[_ E]|[[_ E]|(L & U & E)]]];
    rewrite E; cbn [binary64]; auto.
  split; [apply representable_RN|]. apply Qabs_case; intros _; lra.
Qed.

Lemma of_Q_binary64 q :
  representable q -> Qabs q < pow2 1024 -> eqb (Fin q) (of_Q q) = true.
Proof.
  intros R B. pose proof (RN_id q R) as I.
  assert (B' : - pow2 1024 < q /\ q < pow2 1024).
  { revert B. apply Qabs_case; intros; lra. }
  destruct (of_Q_class q) as [[Z [s E]]|[[O E]|[[O E]|(L & U & E)]]]; rewrite E;
    try (exfalso; lra);
    (apply eqb_to_Q; [reflexivity | reflexivity | cbn [to_Q]; lra]).
Qed.

Lemma fadd_finite_eqb x y :
  isFinite x = true -> isFinite y = true -> binary64 x -> binary64 y ->
  eqb (fadd x y) (of_Q (to_Q x + to_Q y)) = true.
Proof.
  intros Fx Fy Bx By.
  destruct x as [|sx|sx|p]; try discriminate Fx; destruct y as [|sy|sy|q]; try discriminate Fy;
    cbn [fadd to_Q].
  - rewrite (of_Q_zero (0 + 0)) by reflexivity. reflexivity.
  - rewrite (of_Q_comp (0 + q) q) by ring. apply of_Q_binary64; apply By.
  - rewrite (of_Q_comp (p + 0) p) by ring. apply of_Q_binary64; apply Bx.
  - destruct (Qeq_bool (p + q) 0) eqn:Z.
    + apply Qeq_bool_iff in Z. rewrite (of_Q_zero _ Z). reflexivity.
    + apply eqb_same, of_Q_not_nan.
Qed.

Lemma binary64_fadd x y : binary64 x -> binary64 y -> binary64 (fadd x y).
Proof.
  intros Bx By.
  destruct x as [|sx|sx|p]; destruct y as [|sy|sy|q]; cbn [fadd]; try exact I;
    try assumption.
  - destruct (Bool.eqb sx sy); exact I.
  - destruct (Qeq_bool (p + q) 0); [exact I | apply binary64_of_Q].
Qed.

Lemma fadd_nonneg x y : leb zero x = true -> leb zero y = true -> leb zero (fadd x y) = true.
Proof.
  intros Hx Hy. apply nonneg_leb in Hx. apply nonneg_leb in Hy. apply nonneg_leb.
  destruct x as [|sx|sx|p]; destruct y as [|sy|sy|q];
    cbn [nonneg fadd andb Bool.eqb] in *; try contradiction; subst;
    try exact I; try reflexivity; try assumption.
  destruct (Qeq_bool (p + q) 0); [exact I|]. apply of_Q_nonneg. lra.
Qed.

Lemma fadd_pos_inf_l y : leb zero y = true -> fadd (Inf false) y = Inf false.
Proof. destruct y as [|[|]| |]; try discriminate; reflexivity. Qed.

Lemma fadd_pos_inf_r x : leb zero x = true -> fadd x (Inf false) = Inf false.
Proof. destruct x as [|[|]| |]; try discriminate; reflexivity. Qed.

Lemma nonneg_finite_or_inf x :
  leb zero x = true -> isFinite x = true \/ x = Inf false.
Proof. destruct x as [|[|]| |]; try discriminate; auto. Qed.

(** Sums of binary64 values that are at least zero keep the order. *)
Lemma fadd_monotone a1 a2 s t :
  binary64 a1 -> binary64 a2 -> binary64 s -> binary64 t ->
  leb zero a1 = true -> leb zero s = true ->
  leb a1 a2 = true -> leb s t = true ->
  leb (fadd a1 s) (fadd a2 t) = true.
Proof.
  intros Ba1 Ba2 Bs Bt Pa Ps La Ls.
  pose proof (leb_transitive _ _ _ Pa La) as Pa2. pose proof (leb_transitive _ _ _ Ps Ls) as Pt.
  pose proof (fadd_nonneg _ _ Pa Ps) as P1.
  destruct (leb_not_nan _ _ P1) as [_ N1].
  destruct (nonneg_finite_or_inf a2 Pa2) as [Fa2| ->];
    [|rewrite (fadd_pos_inf_l t Pt); apply leb_pos_inf; exact N1].
  destruct (nonneg_finite_or_inf t Pt) as [Ft| ->];
    [|rewrite (fadd_pos_inf_r a2 Pa2); apply leb_pos_inf; exact N1].
  destruct (nonneg_finite_or_inf a1 Pa) as [Fa1| ->];
    [|apply leb_pos_inf_inv in La; subst a2; discriminate Fa2].
  destruct (nonneg_finite_or_inf s Ps) as [Fs| ->];
    [|apply leb_pos_inf_inv in Ls; subst t; discriminate Ft].
  destruct (eqb_leb _ _ (fadd_finite_eqb a1 s Fa1 Fs Ba1 Bs)) as [E1 _].
  destruct (eqb_leb _ _ (fadd_finite_eqb a2 t Fa2 Ft Ba2 Bt)) as [_ E2].
  apply leb_transitive with (of_Q (to_Q a1 + to_Q s)); [exact E1|].
  apply leb_transitive with (of_Q (to_Q a2 + to_Q t)); [|exact E2].
  apply of_Q_mono.
  apply (leb_finite a1 a2 Fa1 Fa2) in La. apply (leb_finite s t Fs Ft) in Ls. lra.
Qed.

Lemma sums_in_order gs : forall a1 a2,
  Forall stored_as_binary64 gs -> forallb within_target gs = true ->
  binary64 a1 -> binary64 a2 -> leb zero a1 = true -> leb a1 a2 = true ->
  leb zero (fold_left (fun acc g => fadd acc (saved g)) gs a1) = true /\
  leb (fold_left (fun acc g => fadd acc (saved g)) gs a1)
      (fold_left (fun acc g => fadd acc (target g)) gs a2) = true.
Proof.
  induction gs as [|g gs IH]; intros a1 a2 HB HW B1 B2 P L; [split; assumption|].
  cbn [fold_left]. inversion HB as [|? ? [Bt Bs] HB']; subst.
  cbn [forallb] in HW. apply andb_prop in HW. destruct HW as [W HW].
  unfold within_target in W. apply andb_prop in W. destruct W as [W0 W1].
  apply IH; try assumption.
  - apply binary64_fadd; assumption.
  - apply binary64_fadd; assumption.
  - apply fadd_nonneg; assumption.
  - apply fadd_monotone; assumption.
Qed.

(** X17.  When every goal has [0 <= saved <= target], the total saved is at
    least zero and at most the total required, rounding of the running sums
    and overflow included: the clamp of the total remaining is then never
    what keeps it from being negative. *)
Theorem summary_totals_in_order gs :
  Forall stored_as_binary64 gs -> forallb within_target gs = true ->
  let s := renderSummary gs in
  leb zero (totalSaved s) = true /\ leb (totalSaved s) (totalRequired s) = true.
Proof.
  intros HB HW. cbn. unfold reduce_sum.
  apply sums_in_order; try assumption; try exact I; reflexivity.
Qed.

Lemma binary64_round2 x : binary64 (round2 x).
Proof.
  unfold round2. destruct (Math_round (fmul (fadd x EPSILON) hundred)) as [|s|s|p];
    cbn [fdiv hundred sign binary64]; try exact I.
  destruct (Qeq_bool (p / 100) 0); [exact I | apply binary64_of_Q].
Qed.

Lemma stored_as_binary64_retarget n g :
  stored_as_binary64 g -> stored_as_binary64 (retarget (round2 n) g).
Proof.
  intros [_ Bs]. unfold retarget, stored_as_binary64. cbn [set_target saved target].
  destruct (gtb (saved g) (round2 n)); cbn [set_saved set_target saved target];
    split; try assumption; apply binary64_round2.
Qed.

(** Every amount that the handlers store is a binary64 value, whatever
    numbers they are given. *)
Lemma step_stored_as_binary64 st a :
  Forall stored_as_binary64 (goals st) -> Forall stored_as_binary64 (goals (step st a)).
Proof.
  intros H. destruct a as [uid now nm ds tg|i value|i input|i| |]; unfold step.
  - destruct (submitAddGoal_cases uid now nm ds tg st) as [E|(_ & _ & E)]; rewrite E.
    + exact H.
    + apply Forall_app. split; [exact H|]. constructor; [|constructor].
      split; [apply binary64_round2 | exact I].
  - destruct (submitAddSavings_cases i value st) as [E|[_ E]]; rewrite E; [exact H|].
    destruct (addSavings_cases i value st) as [E'|(g & _ & _ & _ & E')]; rewrite E'.
    + exact H.
    + apply Forall_update_goal; [exact H|]. intros g0 _ [Bt _].
      split; [exact Bt | apply binary64_round2].
  - destruct (editTarget_cases i input st) as [E|(g & n & _ & _ & _ & _ & E)]; rewrite E.
    + exact H.
    + apply Forall_update_goal; [exact H|]. intros g0 _ B.
      apply stored_as_binary64_retarget. exact B.
  - cbn. apply Forall_filter. exact H.
  - exact H.
  - exact H.
Qed.

Lemma run_stored_as_binary64 acts : Forall stored_as_binary64 (goals (run acts st0)).
Proof.
  unfold run.
  generalize st0 (Forall_nil stored_as_binary64 : Forall stored_as_binary64 (goals st0)).
  induction acts as [|a acts IH]; intros st A; [exact A|].
  cbn [fold_left]. apply IH. apply step_stored_as_binary64. exact A.
Qed.

(** The theorem at a reachable state of three goals, with 0.1 of 0.1, 0.1 of
    0.2 and 0.3 of 0.7 saved: the running sum of the targets is rounded on
    the way (0.1 + 0.2 is 0.30000000000000004 in binary64). *)
Lemma summary_totals_in_order_witness :
  leb zero (totalSaved (renderSummary (goals st_three))) = true /\
  leb (totalSaved (renderSummary (goals st_three)))
      (totalRequired (renderSummary (goals st_three))) = true.
Proof.
  apply (summary_totals_in_order (goals st_three)).
  - apply run_stored_as_binary64.
  - vm_compute. reflexivity.
Defined.

(** ** Deleting a goal *)

Lemma find_goal_filter_out i gs :
  find_goal i (filter (fun g => negb (String.eqb (id g) i)) gs) = None.
Proof.
  induction gs as [|g gs IH]; [reflexivity|]. cbn.
  destruct (String.eqb (id g) i) eqn:E; cbn; [exact IH|].
  unfold find_goal in *. cbn. rewrite E. exact IH.
Qed.

Lemma find_goal_filter_other i j gs :
  j <> i ->
  find_goal j (filter (fun g => negb (String.eqb (id g) i)) gs) = find_goal j gs.
Proof.
  intros N. induction gs as [|g gs IH]; [reflexivity|]. unfold find_goal in *. cbn.
  destruct (String.eqb_spec (id g) i) as [E|E]; cbn.
  - destruct (String.eqb_spec (id g) j) as [F|F]; [congruence | exact IH].
  - destruct (String.eqb (id g) j); [reflexivity | exact IH].
Qed.

(** X18.  [deleteGoal(id)] removes every goal that has the id, not only the
    first one, and keeps all the others; the preferences stay; and deleting
    the same id again changes nothing. *)
Theorem deleteGoal_removes_every_match i st :
  let st' := fst (deleteGoal i st) in
  find_goal i (goals st') = None /\
  (forall g, In g (goals st') <-> In g (goals st) /\ id g <> i) /\
  (forall j, j <> i -> find_goal j (goals st') = find_goal j (goals st)) /\
  prefs st' = prefs st /\
  fst (deleteGoal i st') = st'.
Proof.
  cbn. repeat split.
  - apply find_goal_filter_out.
  - apply filter_In in H. tauto.
  - apply filter_In in H. destruct H as [_ H]. intros E. subst i.
    rewrite String.eqb_refl in H. discriminate H.
  - intros [H N]. apply filter_In. split; [exact H|].
    destruct (String.eqb_spec (id g) i); [contradiction | reflexivity].
  - intros j N. apply find_goal_filter_other. exact N.
  - unfold deleteGoal, render, saveToStorage. cbn.
    rewrite (filter_absent i _ (find_goal_filter_out i (goals st))). reflexivity.
Qed.

(** ** What adding savings and editing a target leave alone *)

Lemma map_update_goal {A} (proj : Goal -> A) i f gs :
  (forall g, proj (f g) = proj g) -> map proj (update_goal i f gs) = map proj gs.
Proof.
  intros H. induction gs as [|g gs IH]; [reflexivity|]. cbn.
  destruct (String.eqb (id g) i); cbn; [rewrite H | rewrite IH]; reflexivity.
Qed.

Lemma label_retarget t g : label (retarget t g) = label g.
Proof. unfold retarget, label. destruct (gtb _ _); reflexivity. Qed.

(** X19.  Submitting the add-savings form never changes the number or the
    order of the goals, the id, name, description or creation time of any
    goal, any target, any goal with another id, or the preferences. *)
Theorem submitAddSavings_changes_only_saved i value st :
  let st' := fst (submitAddSavings i value st) in
  map label (goals st') = map label (goals st) /\
  map target (goals st') = map target (goals st) /\
  (forall j, j <> i -> find_goal j (goals st') = find_goal j (goals st)) /\
  prefs st' = prefs st.
Proof.
  cbn zeta. destruct (submitAddSavings_cases i value st) as [E|[_ E]]; rewrite E.
  - repeat split.
  - destruct (addSavings_cases i value st) as [E'|(g & _ & _ & _ & E')].
    + rewrite E'. repeat split.
    + rewrite E'. repeat split.
      * apply map_update_goal. reflexivity.
      * apply map_update_goal. reflexivity.
      * intros j N. apply find_goal_update_other; [exact N | reflexivity].
      * unfold addSavings. destruct (find_goal _ _); [|reflexivity].
        destruct (negb _); [reflexivity|]. destruct (gtb _ _); reflexivity.
Qed.

Lemma fdiv_equal a b d : a == b -> fdiv (Fin a) (Fin d) = fdiv (Fin b) (Fin d).
Proof.
  intros E. unfold fdiv. cbn [sign].
  assert (Q : a / d == b / d) by (rewrite E; reflexivity).
  rewrite (Qneg_comp a b E), (of_Q_comp _ _ Q).
  assert (Z : Qeq_bool (a / d) 0 = Qeq_bool (b / d) 0).
  { destruct (Qeq_bool (b / d) 0) eqn:T.
    - apply Qeq_bool_iff. apply Qeq_bool_iff in T. rewrite Q. exact T.
    - destruct (Qeq_bool (a / d) 0) eqn:U; [|reflexivity].
      apply Qeq_bool_iff in U. rewrite Q in U. apply Qeq_bool_iff in U. congruence. }
  rewrite Z. reflexivity.
Qed.

Lemma progress_when_equal t s :
  isFinite t = true -> gtb t zero = true -> isFinite s = true -> to_Q s == to_Q t ->
  computeProgressPct t s = hundred.
Proof.
  intros Ft P Fs E. rewrite <- (progress_when_full t Ft P).
  destruct t as [|b|b|d]; try discriminate Ft; [discriminate P|].
  apply (ltb_finite zero (Fin d) (eq_refl true) (eq_refl true)) in P. cbn [to_Q zero] in P, E.
  destruct s as [|b|b|a]; try discriminate Fs; cbn [to_Q] in E; [lra|].
  unfold computeProgressPct. rewrite (fdiv_equal a d d E). reflexivity.
Qed.

(** X20.  For a goal kept in cents below [2 ^ 43] that is not yet complete,
    submitting exactly the remaining amount, the "Max add" of its card, is
    accepted and completes it: the savings then equal the target, the card
    says "Goal Achieved" and the progress is 100. *)
Theorem saving_the_remaining_completes i st g :
  find_goal i (goals st) = Some g -> well_kept g -> ltb (saved g) (target g) = true ->
  let r := computeRemaining (target g) (saved g) in
  exists g', find_goal i (goals (fst (submitAddSavings i r st))) = Some g' /\
             target g' = target g /\
             eqb (saved g') (target g') = true /\
             card_achieved (card_of g') = true /\
             card_pct (card_of g') = hundred.
Proof.
  intros H (kt & ks & O & B & T & S) L r.
  assert (Lk : (ks < kt)%Z).
  { destruct (Z_lt_le_dec ks kt) as [K|K]; [exact K|].
    pose proof (cents_value_le kt ks _ _ T S K) as C.
    rewrite (ltb_not_leb _ _ L) in C. discriminate C. }
  assert (R : cents_value (kt - ks) r) by (apply computeRemaining_cents; assumption).
  assert (Bk : (Z.abs (kt - ks) <= K43)%Z) by lia.
  assert (A : cents_value (kt - ks) (round2 r)) by (apply cents_value_round2_again; assumption).
  assert (Pr : ltb zero r = true).
  { apply (cents_value_lt 0 (kt - ks)); [unfold K43; lia | lia | exact cents_value_zero | exact R]. }
  assert (Pa : gtb (round2 r) zero = true).
  { apply (cents_value_lt 0 (kt - ks)); [unfold K43; lia | lia | exact cents_value_zero | exact A]. }
  assert (Na : gtb (round2 r) r = false).
  { unfold gtb, ltb. pose proof (cents_value_eq _ _ _ R A) as Q. unfold eqb in Q.
    destruct (ncompare r (round2 r)) as [[| |]|]; try discriminate Q. reflexivity. }
  set (s' := round2 (fadd (saved g) (round2 r))).
  assert (S' : cents_value kt s').
  { replace kt with (ks + (kt - ks))%Z at 1 by lia.
    apply (add_cents kt); try assumption; lia. }
  exists (set_saved s' g).
  assert (P : gtb (target g) zero = true).
  { apply (cents_value_lt 0 kt); [unfold K43; lia | lia | exact cents_value_zero | exact T]. }
  split; [|split; [reflexivity | split; [|split]]].
  - unfold submitAddSavings. rewrite (safeNumber_finite r (proj1 R)), (proj1 R).
    rewrite (ltb_not_leb _ _ Pr). cbn [negb orb].
    unfold addSavings. rewrite H. fold r. rewrite Pa, Na. cbn [negb fst render goals saveToStorage].
    apply find_goal_update_same; [exact H | reflexivity].
  - cbn [saved target set_saved]. apply (cents_value_eq kt); assumption.
  - unfold card_of. cbn [card_achieved saved target set_saved]. rewrite P, andb_true_r.
    apply eqb_leb_zero. apply (cents_value_eq 0); [|exact cents_value_zero].
    replace 0%Z with (kt - kt)%Z by lia.
    apply computeRemaining_cents; try assumption; lia.
  - unfold card_of. cbn [card_pct saved target set_saved].
    apply progress_when_equal; [exact (proj1 T) | exact P | exact (proj1 S') |].
    rewrite (proj2 S'), (proj2 T). reflexivity.
Qed.

Lemma saving_the_remaining_completes_witness :
  exists g',
    find_goal "g1"
      (goals (fst (submitAddSavings "g1" (computeRemaining (target bike) (saved bike)) st_bike)))
    = Some g' /\
    target g' = target bike /\
    eqb (saved g') (target g') = true /\
    card_achieved (card_of g') = true /\
    card_pct (card_of g') = hundred.
Proof.
  apply (saving_the_remaining_completes "g1" st_bike bike).
  - vm_compute. reflexivity.
  - exact well_kept_bike.
  - vm_compute. reflexivity.
Defined.

(** X21.  [editTarget] never changes the number or the order of the goals,
    the id, name, description or creation time of any goal, any goal with
    another id, or the preferences. *)
Theorem editTarget_changes_only_amounts i input st :
  let st' := fst (editTarget i input st) in
  map label (goals st') = map label (goals st) /\
  (forall j, j <> i -> find_goal j (goals st') = find_goal j (goals st)) /\
  prefs st' = prefs st.
Proof.
  cbn zeta. destruct (editTarget_cases i input st) as [E|(g & n & _ & _ & _ & _ & E)].
  - rewrite E. repeat split.
  - rewrite E. repeat split.
    + apply map_update_goal. apply label_retarget.
    + intros j N. apply find_goal_update_other; [exact N | apply retarget_id].
    + unfold editTarget. destruct (find_goal _ _); [|reflexivity].
      destruct input; [|reflexivity]. destruct (negb _ || _); reflexivity.
Qed.

(** ** The invariant [0 <= saved <= target], action by action *)

Lemma forallb_Forall_within gs :
  forallb within_target gs = true <-> Forall (fun g => within_target g = true) gs.
Proof. rewrite forallb_forall, Forall_forall. reflexivity. Qed.

(** X22.  Creating a goal, editing a target, deleting a goal and the two
    toggles keep [0 <= saved <= target] on every goal, for amounts of any
    size: adding savings is the only action that can break it. *)
Theorem only_savings_can_break_within_target st a :
  is_saving a = false ->
  forallb within_target (goals st) = true ->
  forallb within_target (goals (step st a)) = true.
Proof.
  intros S H. rewrite forallb_Forall_within in *.
  destruct a as [uid now nm ds tg|i value|i input|i| |]; try discriminate S; unfold step.
  - destruct (submitAddGoal_cases uid now nm ds tg st) as [E|(F & P & E)]; rewrite E.
    + exact H.
    + apply Forall_app. split; [exact H|]. constructor; [|constructor].
      apply newGoal_within_target. exact P.
  - destruct (editTarget_cases i input st) as [E|(g & n & _ & _ & F & P & E)]; rewrite E.
    + exact H.
    + apply Forall_update_goal; [exact H|]. intros g0 _ W.
      apply retarget_within_target; [exact F | exact P |].
      unfold within_target in W. apply andb_prop in W. tauto.
  - cbn. apply Forall_filter. exact H.
  - exact H.
  - exact H.
Qed.

Lemma only_savings_can_break_within_target_witness :
  forallb within_target (goals (step st_bike (EditTarget "g1" (Some (lit 3000))))) = true.
Proof.
  apply (only_savings_can_break_within_target st_bike (EditTarget "g1" (Some (lit 3000)))).
  - reflexivity.
  - vm_compute. reflexivity.
Defined.

(** X23.  As long as no target above [2 ^ 43] is entered, every goal of
    every reachable state is kept in cents: its target and its savings are
    the binary64 values nearest to whole numbers of cents [kt] and [ks], with
    [0 <= ks <= kt <= 100 * 2 ^ 43]. *)
Theorem amounts_stay_cents_below_2_43 acts :
  forallb modest acts = true -> Forall well_kept (goals (run acts st0)).
Proof.
  unfold run. generalize st0 (Forall_nil well_kept : Forall well_kept (goals st0)).
  induction acts as [|a acts IH]; intros st A M; [exact A|].
  cbn [forallb] in M. apply andb_prop in M. destruct M as [Ma Ms].
  cbn [fold_left]. apply IH; [|exact Ms]. apply step_well_kept; assumption.
Qed.

Lemma amounts_stay_cents_below_2_43_witness :
  Forall well_kept
    (goals (run [Create "g1" 1 "Bike" "to work" (lit 10000); AddSavings "g1" (lit 4000)]%string
                st0)).
Proof.
  apply (amounts_stay_cents_below_2_43
           [Create "g1" 1 "Bike" "to work" (lit 10000); AddSavings "g1" (lit 4000)]%string).
  vm_compute. reflexivity.
Defined.

(** ** The two toggles *)

(** X24.  Toggling the currency twice, or the theme twice, brings back the
    preferences there were, with the goals untouched and the state written
    to storage; and the two toggles can be used in either order. *)
Theorem toggles_flip_back st :
  fst (toggleCurrency (fst (toggleCurrency st))) = saveToStorage st /\
  fst (toggleTheme (fst (toggleTheme st))) = saveToStorage st /\
  fst (toggleTheme (fst (toggleCurrency st))) = fst (toggleCurrency (fst (toggleTheme st))).
Proof. destruct st as [gs [[|] [|]] sto]; repeat split. Qed.

(** ** Adding savings and editing a target, counted in cents *)

Lemma leb_not_ltb a b : leb a b = true -> ltb b a = false.
Proof.
  unfold ltb, leb. intros H. destruct (ncompare a b) as [c|] eqn:E; [|discriminate H].
  rewrite (ncompare_antisym _ _ _ E). destruct c; try discriminate H; reflexivity.
Qed.

(** X25.  Below [2 ^ 43], [addSavings] is exact arithmetic on whole cents.
    For a goal of [kt] cents with [ks] cents saved and an amount from 0 to
    [2 ^ 43], [round2] makes a whole number [ka] of cents of the amount, and
    then: [ka = 0] is ignored in silence; [ka > kt - ks] is refused with the
    alert; and [1 <= ka <= kt - ks] is accepted and leaves exactly
    [ks + ka] cents saved, the target and the rest of the goal unchanged. *)
Theorem addSavings_in_cents i st g amount kt ks :
  find_goal i (goals st) = Some g ->
  (0 <= ks <= kt)%Z -> (kt <= K43)%Z ->
  cents_value kt (target g) -> cents_value ks (saved g) ->
  leb zero amount = true -> leb amount two43 = true ->
  let ka := cents (to_Q amount) in
  (cents_value ka (round2 amount) /\ (0 <= ka <= K43)%Z) /\
  (ka = 0%Z -> addSavings i amount st = (st, [])) /\
  ((kt - ks < ka)%Z ->
   addSavings i amount st
   = (st, [Alert (MaxAdd (computeRemaining (target g) (saved g)))])) /\
  ((1 <= ka <= kt - ks)%Z ->
   exists g', find_goal i (goals (fst (addSavings i amount st))) = Some g' /\
              label g' = label g /\ target g' = target g /\
              cents_value (ks + ka) (saved g')).
Proof.
  intros H O B T S La Ua ka.
  destruct (cents_value_round2 amount La Ua) as [A Ka]. fold ka in A, Ka.
  pose proof (computeRemaining_cents kt ks _ _ O B T S) as R.
  split; [split; [exact A | exact Ka]|].
  unfold addSavings. rewrite H. cbn zeta.
  repeat split.
  - intros Z. rewrite Z in A.
    destruct (eqb_leb _ _ (cents_value_eq 0 _ _ A cents_value_zero)) as [L _].
    unfold gtb. rewrite (leb_not_ltb _ _ L). reflexivity.
  - intros Z.
    assert (P : gtb (round2 amount) zero = true).
    { apply (cents_value_lt 0 ka); [unfold K43; lia | lia | exact cents_value_zero | exact A]. }
    assert (G : gtb (round2 amount) (computeRemaining (target g) (saved g)) = true).
    { apply (cents_value_lt (kt - ks) ka); [lia | exact Z | exact R | exact A]. }
    rewrite P, G. reflexivity.
  - intros Z.
    assert (P : gtb (round2 amount) zero = true).
    { apply (cents_value_lt 0 ka); [unfold K43; lia | lia | exact cents_value_zero | exact A]. }
    assert (G : gtb (round2 amount) (computeRemaining (target g) (saved g)) = false).
    { apply leb_not_ltb. apply (cents_value_le ka (kt - ks)); [exact A | exact R | lia]. }
    rewrite P, G. cbn [negb fst render goals saveToStorage].
    exists (set_saved (round2 (fadd (saved g) (round2 amount))) g).
    split; [apply find_goal_update_same; [exact H | reflexivity]|].
    split; [reflexivity|]. split; [reflexivity|]. cbn [saved set_saved].
    apply (add_cents kt); try assumption; lia.
Qed.

Lemma addSavings_in_cents_witness :
  exists g', find_goal "g1" (goals (fst (addSavings "g1" (lit 2500) st_bike))) = Some g' /\
             label g' = label bike /\ target g' = target bike /\
             cents_value (400000 + 250000) (saved g').
Proof.
  assert (F : find_goal "g1" (goals st_bike) = Some bike) by (vm_compute; reflexivity).
  assert (T : cents_value 1000000 (target bike)).
  { split; [reflexivity | vm_compute; reflexivity]. }
  assert (S : cents_value 400000 (saved bike)).
  { split; [reflexivity | vm_compute; reflexivity]. }
  assert (L : leb zero (lit 2500) = true) by (vm_compute; reflexivity).
  assert (U : leb (lit 2500) two43 = true) by (vm_compute; reflexivity).
  assert (E : cents (to_Q (lit 2500)) = 250000%Z) by (vm_compute; reflexivity).
  destruct (addSavings_in_cents "g1" st_bike bike (lit 2500) 1000000 400000 F
              ltac:(lia) ltac:(unfold K43; lia) T S L U) as (_ & _ & _ & K).
  rewrite E in K. apply K. lia.
Defined.

(** X26.  Below [2 ^ 43], [editTarget] is exact arithmetic on whole cents.
    For a goal of [kt] cents with [ks] cents saved and an answer [n] with
    [0 < n <= 2 ^ 43], [round2] makes a whole number [kn] of cents of [n];
    the edit is accepted, the target becomes [kn] cents and the savings
    [min ks kn] cents, the rest of the goal unchanged.  [kn] is 0 for every
    answer up to 0.0049 and at least 1 for every answer from 0.005 on. *)
Theorem editTarget_in_cents i st g n kt ks :
  find_goal i (goals st) = Some g ->
  (0 <= ks <= kt)%Z -> (kt <= K43)%Z ->
  cents_value kt (target g) -> cents_value ks (saved g) ->
  gtb n zero = true -> leb n two43 = true ->
  let kn := cents (to_Q n) in
  (exists g', find_goal i (goals (fst (editTarget i (Some n) st))) = Some g' /\
              label g' = label g /\
              (0 <= kn <= K43)%Z /\
              cents_value kn (target g') /\
              cents_value (Z.min ks kn) (saved g')) /\
  (to_Q n <= 49 # 10000 -> kn = 0%Z) /\
  (1 # 200 <= to_Q n -> (1 <= kn)%Z).
Proof.
  intros H O B T S P U kn.
  pose proof (leb_zero_of_gtb n P) as L.
  assert (F : isFinite n = true).
  { apply (between_finite zero two43); [reflexivity | reflexivity | exact L | exact U]. }
  destruct (cents_value_round2 n L U) as [A Ka]. fold kn in A, Ka.
  split; [|split].
  - rewrite (editTarget_accepts i n st g H F P). cbn [render fst goals saveToStorage].
    exists (retarget (round2 n) g).
    split; [apply find_goal_update_same; [exact H | apply retarget_id]|].
    split; [apply label_retarget|]. split; [exact Ka|].
    unfold retarget. cbn [set_target saved target].
    destruct (Z_lt_le_dec kn ks) as [K|K].
    + assert (G : gtb (saved g) (round2 n) = true).
      { apply (cents_value_lt kn ks); [lia | exact K | exact A | exact S]. }
      rewrite G. cbn [target saved set_saved set_target].
      rewrite Z.min_r by lia. split; exact A.
    + assert (G : gtb (saved g) (round2 n) = false).
      { apply leb_not_ltb. apply (cents_value_le ks kn); [exact S | exact A | exact K]. }
      rewrite G. cbn [target saved set_saved set_target].
      rewrite Z.min_l by lia. split; [exact A | exact S].
  - intros Q. pose proof (cents_monotone _ _ Q) as M. fold kn in M.
    assert (E : cents (49 # 10000) = 0%Z) by (vm_compute; reflexivity).
    rewrite E in M. lia.
  - intros Q. pose proof (cents_monotone _ _ Q) as M. fold kn in M.
    assert (E : cents (1 # 200) = 1%Z) by (vm_compute; reflexivity).
    rewrite E in M. exact M.
Qed.

Lemma editTarget_in_cents_witness :
  exists g', find_goal "g1" (goals (fst (editTarget "g1" (Some (lit 3000)) st_bike))) = Some g' /\
             label g' = label bike /\
             (0 <= cents (to_Q (lit 3000)) <= K43)%Z /\
             cents_value (cents (to_Q (lit 3000))) (target g') /\
             cents_value (Z.min 400000 (cents (to_Q (lit 3000)))) (saved g').
Proof.
  assert (F : find_goal "g1" (goals st_bike) = Some bike) by (vm_compute; reflexivity).
  assert (T : cents_value 1000000 (target bike)).
  { split; [reflexivity | vm_compute; reflexivity]. }
  assert (S : cents_value 400000 (saved bike)).
  { split; [reflexivity | vm_compute; reflexivity]. }
  assert (P : gtb (lit 3000) zero = true) by (vm_compute; reflexivity).
  assert (U : leb (lit 3000) two43 = true) by (vm_compute; reflexivity).
  exact (proj1 (editTarget_in_cents "g1" st_bike bike (lit 3000) 1000000 400000 F
                  ltac:(lia) ltac:(unfold K43; lia) T S P U)).
Defined.
